(** * Highway inventory backend

    A shallow embedding of the report task store, the background report
    orchestrator, the bulk asset ingestion, the bulk photo upload and the
    KMZ report of the backend, with the properties of its specification. *)

From Stdlib Require Import ZArith Ascii String.
From stdpp Require Import gmap strings list fin_maps pretty sorting.

Local Open Scope string_scope.

(** ** Python results: a value or a raised exception *)

(** An exception with its class name and message, or FastAPI's
    [HTTPException]. *)
Inductive exn :=
| Exception (exn_type msg : string)
| HTTPException (status_code : nat) (detail : string).

(** [str(e)] *)
Definition str (e : exn) : string :=
  match e with
  | Exception _ msg => msg
  | HTTPException status_code detail => pretty status_code +:+ ": " +:+ detail
  end.

Inductive res (A : Type) : Type :=
| Ok (a : A)
| Raise (e : exn).
Arguments Ok {A} a.
Arguments Raise {A} e.

(** Effectful code threads a state [St] and may raise. *)
Definition M (St A : Type) : Type := St → res A * St.

Section monad.
Context {St : Type}.

Definition ret {A} (a : A) : M St A := λ s, (Ok a, s).

Definition bind {A B} (f : A → M St B) (m : M St A) : M St B :=
  λ s, match m s with
       | (Ok a, s') => f a s'
       | (Raise e, s') => (Raise e, s')
       end.

Definition raise {A} (e : exn) : M St A := λ s, (Raise e, s).

(** [try: body except Exception as e: handler e] *)
Definition try_except {A} (body : M St A) (handler : exn → M St A) : M St A :=
  λ s, match body s with
       | (Ok a, s') => (Ok a, s')
       | (Raise e, s') => handler e s'
       end.

Definition get : M St St := λ s, (Ok s, s).
Definition modify (f : St → St) : M St unit := λ s, (Ok tt, f s).

(** A collaborator's answer enters the computation as it is. *)
Definition lift {A} (r : res A) : M St A := λ s, (r, s).

(** [try: body except (C1, C2) as e: handler e], with [catches] telling
    the exceptions of the listed classes. *)
Definition try_except_on {A} (catches : exn → bool) (body : M St A)
    (handler : exn → M St A) : M St A :=
  λ s, match body s with
       | (Ok a, s') => (Ok a, s')
       | (Raise e, s') => if catches e then handler e s' else (Raise e, s')
       end.
End monad.

Global Instance M_ret {St} : MRet (M St) := @ret St.
Global Instance M_bind {St} : MBind (M St) := @bind St.

(** [for x in l: acc = f acc x] *)
Fixpoint foldM {St A B} (f : B → A → M St B) (b : B) (l : list A) : M St B :=
  match l with
  | [] => mret b
  | x :: l' => b' ← f b x; foldM f b' l'
  end.

(** ** The task store (app/utils/async_report_manager.py) *)

Module TaskStore.

Inductive ReportStatus := PENDING | COMPLETED | FAILED.

Global Instance ReportStatus_eq_dec : EqDecision ReportStatus.
Proof. solve_decision. Defined.

(** A file of the temp_reports directory: modification time in seconds
    and content. *)
Record file := File { st_mtime : Z; data : string }.

(** The directory, the clock, and the pending I/O faults: every
    fallible file operation consumes one flag, [true] makes it raise. *)
Record fs := Fs { files : gmap string file; now : Z; faults : list bool }.

Definition set_files (f : gmap string file → gmap string file) (s : fs) : fs :=
  Fs (f (files s)) (now s) (faults s).

Definition REPORT_EXPIRATION_HOURS : Z := 1.
Definition MAX_CONCURRENT_REPORTS : nat := 1.

Definition get_report_path (task_id : string) (status : ReportStatus) : string :=
  match status with
  | PENDING => task_id +:+ ".pending"
  | COMPLETED => task_id +:+ ".xlsx"
  | FAILED => task_id +:+ ".failed"
  end.

(** *** File operations *)

Definition OSError (what : string) : exn := Exception "OSError" what.
Definition FileNotFoundError (p : string) : exn := Exception "FileNotFoundError" p.

Definition io_point (what : string) : M fs unit :=
  λ s, match faults s with
       | true :: fl => (Raise (OSError what), Fs (files s) (now s) fl)
       | false :: fl => (Ok tt, Fs (files s) (now s) fl)
       | [] => (Ok tt, s)
       end.

Definition path_exists (p : string) : M fs bool :=
  λ s, (Ok (bool_decide (is_Some (files s !! p))), s).

(** [Path.touch()]: creates an empty file, or refreshes the time. *)
Definition touch (p : string) : M fs unit :=
  io_point "touch";;
  modify (λ s, set_files (λ m, <[p := File (now s) (from_option data "" (m !! p))]> m) s).

(** [open(p, "w")]: creates or truncates. *)
Definition open_w (p : string) : M fs unit :=
  io_point "open";;
  modify (λ s, set_files (<[p := File (now s) ""]>) s).

(** [f.write(content)] and the close of the [with] block. *)
Definition write_all (p content : string) : M fs unit :=
  io_point "write";;
  modify (λ s, set_files (<[p := File (now s) content]>) s).

Definition unlink (p : string) : M fs unit :=
  io_point "unlink";;
  s ← get;
  match files s !! p with
  | Some _ => modify (set_files (delete p))
  | None => raise (FileNotFoundError p)
  end.

Definition carriage_return : ascii := ascii_of_nat 13.
Definition line_feed : ascii := ascii_of_nat 10.

(** What a file opened in text mode gives when it is read: a carriage
    return, alone or followed by a line feed, is read as a line feed.
    (Writing in text mode translates nothing where the line separator
    of the system is the line feed.) *)
Fixpoint universal_newlines (s : string) : string :=
  match s with
  | EmptyString => EmptyString
  | String c s' =>
      if decide (c = carriage_return) then
        match s' with
        | String c' s'' =>
            if decide (c' = line_feed) then String line_feed (universal_newlines s'')
            else String line_feed (universal_newlines s')
        | EmptyString => String line_feed EmptyString
        end
      else String c (universal_newlines s')
  end.

(** [open(p, "r")] and [f.read()] *)
Definition read_text (p : string) : M fs string :=
  io_point "read";;
  s ← get;
  match files s !! p with
  | Some f => mret (universal_newlines (data f))
  | None => raise (FileNotFoundError p)
  end.

(** The file operations of a transition, one at a time. *)
Inductive instr :=
| ITouch (p : string)
| IOpen (p : string)
| IWrite (p content : string)
| IUnlinkIfExists (p : string).

Definition exec_instr (i : instr) : M fs unit :=
  match i with
  | ITouch p => touch p
  | IOpen p => open_w p
  | IWrite p c => write_all p c
  | IUnlinkIfExists p =>
      b ← path_exists p;
      if b : bool then unlink p else mret tt
  end.

Fixpoint run_instrs (prog : list instr) : M fs unit :=
  match prog with
  | [] => mret tt
  | i :: prog' => exec_instr i;; run_instrs prog'
  end.

(** *** Transitions *)

Definition create_pending_report_steps (task_id : string) : list instr :=
  [ITouch (get_report_path task_id PENDING)].

Definition create_pending_report (task_id : string) : M fs bool :=
  try_except
    (run_instrs (create_pending_report_steps task_id);; mret true)
    (λ _, mret false).

Definition mark_report_completed_steps (task_id file_content : string) : list instr :=
  let pending_path := get_report_path task_id PENDING in
  let completed_path := get_report_path task_id COMPLETED in
  [IOpen completed_path; IWrite completed_path file_content;
   IUnlinkIfExists pending_path].

Definition mark_report_completed (task_id file_content : string) : M fs bool :=
  try_except
    (run_instrs (mark_report_completed_steps task_id file_content);; mret true)
    (λ _, mret false).

(** [error_message or "Report generation failed"] *)
Definition or_default (s default : string) : string :=
  match s with
  | EmptyString => default
  | _ => s
  end.

Definition mark_report_failed_steps (task_id error_message : string) : list instr :=
  let pending_path := get_report_path task_id PENDING in
  let failed_path := get_report_path task_id FAILED in
  [IOpen failed_path;
   IWrite failed_path (or_default error_message "Report generation failed");
   IUnlinkIfExists pending_path].

Definition mark_report_failed (task_id error_message : string) : M fs bool :=
  try_except
    (run_instrs (mark_report_failed_steps task_id error_message);; mret true)
    (λ _, mret false).

(** *** Queries *)

Definition get_report_status (task_id : string) : M fs (option ReportStatus * string) :=
  let pending_path := get_report_path task_id PENDING in
  let completed_path := get_report_path task_id COMPLETED in
  let failed_path := get_report_path task_id FAILED in
  c ← path_exists completed_path;
  if c : bool then mret (Some COMPLETED, "Reporte listo para descargar")
  else
    p ← path_exists pending_path;
    if p : bool then mret (Some PENDING, "Generando reporte, por favor espere...")
    else
      f ← path_exists failed_path;
      if f : bool then
        try_except
          (error_msg ← read_text failed_path;
           mret (Some FAILED, or_default error_msg "Error al generar el reporte"))
          (λ _, mret (Some FAILED, "Error al generar el reporte"))
      else mret (None, "Reporte no encontrado o expirado").

(** The status alone, as a reader of the directory sees it. *)
Definition status_of (task_id : string) (s : fs) : option ReportStatus :=
  match get_report_status task_id s with
  | (Ok (st, _), _) => st
  | (Raise _, _) => None
  end.

(** [name] matches the glob [*suffix]. *)
Definition ends_with (suffix name : string) : bool :=
  bool_decide (list_ascii_of_string suffix `suffix_of` list_ascii_of_string name).

Definition count_pending_reports : M fs nat :=
  s ← get;
  mret (length (filter (λ e, ends_with ".pending" e.1 = true) (map_to_list (files s)))).

Definition admission_reason (current_pending : nat) : string :=
  "Ya hay " +:+ pretty current_pending +:+
  " reporte(s) generÃ¡ndose. Por favor intente en unos minutos.".

Definition can_start_new_report : M fs (bool * option string) :=
  current_pending ← count_pending_reports;
  if bool_decide (MAX_CONCURRENT_REPORTS ≤ current_pending)%nat
  then mret (false, Some (admission_reason current_pending))
  else mret (true, None).

(** *** The expiration sweep *)

Definition cleanup_file (expiration_time : Z) (deleted_count : nat)
    (entry : string * file) : M fs nat :=
  if bool_decide (st_mtime entry.2 < expiration_time)%Z then
    try_except (unlink entry.1;; mret (S deleted_count)) (λ _, mret deleted_count)
  else mret deleted_count.

(** [TEMP_REPORTS_DIR.mkdir(parents=True, exist_ok=True)] *)
Definition ensure_temp_reports_dir : M fs unit := io_point "mkdir".

(** The directory is made sure of before the [try] of the sweep. *)
Definition cleanup_old_reports : M fs nat :=
  ensure_temp_reports_dir;;
  s ← get;
  let expiration_time := (now s - REPORT_EXPIRATION_HOURS * 3600)%Z in
  foldM (cleanup_file expiration_time) 0%nat (map_to_list (files s)).

Definition get_report_file_path (task_id : string) : M fs (option string) :=
  let completed_path := get_report_path task_id COMPLETED in
  c ← path_exists completed_path;
  if c : bool then mret (Some completed_path) else mret None.

(** *** Histories *)

(** The calls made on the store, one after the other; [Wait] lets time
    pass between two of them. *)
Inductive call :=
| Submit (task_id : string)
| Complete (task_id file_content : string)
| Fail (task_id error_message : string)
| Status (task_id : string)
| CanStart
| FilePath (task_id : string)
| Sweep
| Wait (seconds : Z).

Definition run_call (c : call) (s : fs) : fs :=
  match c with
  | Submit t => (create_pending_report t s).2
  | Complete t content => (mark_report_completed t content s).2
  | Fail t msg => (mark_report_failed t msg s).2
  | Status t => (get_report_status t s).2
  | CanStart => (can_start_new_report s).2
  | FilePath t => (get_report_file_path t s).2
  | Sweep => (cleanup_old_reports s).2
  | Wait seconds => Fs (files s) (now s + seconds)%Z (faults s)
  end.

Definition run_calls (cs : list call) (s : fs) : fs :=
  foldl (λ s c, run_call c s) s cs.

(** The task a call writes files of, if any. *)
Definition writes_task (c : call) : option string :=
  match c with
  | Submit t | Complete t _ | Fail t _ => Some t
  | _ => None
  end.

Definition is_sweep (c : call) : bool :=
  match c with
  | Sweep => true
  | _ => false
  end.

(** The directory as a reader may find it while [prog] runs: before
    its first file operation, between two of them, and after the last. *)
Definition states_during (prog : list instr) (s : fs) : list fs :=
  (λ k, (run_instrs (take k prog) s).2) <$> seq 0 (S (length prog)).

(** The files of a task that exist. *)
Definition existing_files (task_id : string) (s : fs) : list ReportStatus :=
  List.filter (λ st, bool_decide (is_Some (files s !! get_report_path task_id st)))
    [PENDING; COMPLETED; FAILED].

End TaskStore.


(** ** Rows of the asset table (the fields the modelled code reads) *)

Module Models.

Inductive AssetStatus := nuevo | existente | retirado.

Global Instance AssetStatus_eq_dec : EqDecision AssetStatus.
Proof. solve_decision. Defined.

Record date := Date { year : Z; month : Z; day : Z }.

(** [georeferenciacion] is a str that a pattern reads: it is kept as
    its code points. *)
Record Asset := {
  asset_id : Z;
  id_interno : Z;
  contract_project_id : Z;
  element_type_id : Z;
  element_type_nombre : string;
  estado : AssetStatus;
  created_at : Z;
  fecha_instalacion : date;
  georeferenciacion : option (list N);
  nombre_foto_codigo_barra : option string
}.

End Models.

(** ** The background report orchestrator (app/services/background_reports.py) *)

Module BackgroundReports.
Import TaskStore Models.

(** What the orchestrator consults: the two lookups by name (the id of
    the row found, [None], or an exception), the asset table with the
    failure of its query if any, and the two workbook writers. *)
Record collaborators := {
  get_contract_project_by_id_or_nombre : string → res (option Z);
  get_element_type_by_id_or_nombre : string → res (option Z);
  asset_rows : list Asset;
  query_failure : option exn;
  generate_excel_report : list Asset → bool → res string;
  write_installers_workbook : list Asset → res string
}.

(** [order_by(desc(Asset.created_at))] *)
Definition newer_first (a b : Asset) : Prop := (created_at b ≤ created_at a)%Z.

Global Instance newer_first_dec : RelDecision newer_first.
Proof. intros a b. unfold newer_first. apply _. Defined.

Definition in_report_window (contract_project_id fecha_desde fecha_hasta : Z)
    (element_type_id : option Z) (asset_status : option AssetStatus) (a : Asset) : bool :=
  bool_decide (Models.contract_project_id a = contract_project_id)
  && bool_decide (fecha_desde ≤ created_at a)%Z
  && bool_decide (created_at a ≤ fecha_hasta)%Z
  && match element_type_id with
     | Some i => bool_decide (Models.element_type_id a = i)
     | None => true
     end
  && match asset_status with
     | Some st => bool_decide (estado a = st)
     | None => true
     end.

(** app/crud/asset.py, [get_assets_by_datetime_range] *)
Definition get_assets_by_datetime_range (c : collaborators)
    (contract_project_id fecha_desde fecha_hasta : Z)
    (element_type_id : option Z) (asset_status : option AssetStatus) : res (list Asset) :=
  match query_failure c with
  | Some e => Raise e
  | None =>
      Ok (merge_sort newer_first
            (List.filter
               (in_report_window contract_project_id fecha_desde fecha_hasta
                  element_type_id asset_status)
               (asset_rows c)))
  end.

(** app/services/asset_report.py, [generate_installers_excel_report]:
    [None] when there is no asset. *)
Definition generate_installers_excel_report (c : collaborators)
    (assets : list Asset) : res (option string) :=
  match assets with
  | [] => Ok None
  | _ => match write_installers_workbook c assets with
         | Ok b => Ok (Some b)
         | Raise e => Raise e
         end
  end.

(** [excel_buffer.getvalue()] *)
Definition getvalue (excel_buffer : option string) : res string :=
  match excel_buffer with
  | Some b => Ok b
  | None => Raise (Exception "AttributeError" "'NoneType' object has no attribute 'getvalue'")
  end.

Definition contract_not_found (contract_name : string) : string :=
  "Proyecto de contrato '" +:+ contract_name +:+ "' no encontrado".

Definition element_type_not_found (element_type : string) : string :=
  "Tipo de elemento '" +:+ element_type +:+ "' no encontrado".

Definition internal_error (e : exn) : string :=
  "Error interno al generar el reporte: " +:+ str e.

Definition save_error : string := "Error al guardar el archivo del reporte".

(** The lookups of both orchestrators; [k] is the rest of the [try] body. *)
Definition with_lookups (c : collaborators) (task_id contract_name : string)
    (element_type : option string) (k : Z → option Z → M fs unit) : M fs unit :=
  contract_project ← lift (get_contract_project_by_id_or_nombre c contract_name);
  match contract_project with
  | None => mark_report_failed task_id (contract_not_found contract_name);; mret tt
  | Some contract_project_id =>
      match element_type with
      | None => k contract_project_id None
      | Some et =>
          element_type_obj ← lift (get_element_type_by_id_or_nombre c et);
          match element_type_obj with
          | None => mark_report_failed task_id (element_type_not_found et);; mret tt
          | Some i => k contract_project_id (Some i)
          end
      end
  end.

(** The end of both [try] bodies. *)
Definition store_report (task_id file_content : string) : M fs unit :=
  success ← mark_report_completed task_id file_content;
  if success : bool then mret tt
  else mark_report_failed task_id save_error;; mret tt.

Definition excel_report_body (c : collaborators) (task_id contract_name : string)
    (fecha_desde fecha_hasta : Z) (include_photos : bool)
    (element_type : option string) (asset_status : option AssetStatus) : M fs unit :=
  with_lookups c task_id contract_name element_type (λ contract_project_id element_type_id,
    assets ← lift (get_assets_by_datetime_range c contract_project_id
                     fecha_desde fecha_hasta element_type_id asset_status);
    excel_buffer ← lift (generate_excel_report c assets include_photos);
    store_report task_id excel_buffer).

Definition generate_excel_report_background (c : collaborators)
    (task_id contract_name : string) (fecha_desde fecha_hasta : Z)
    (include_photos : bool) (element_type : option string)
    (asset_status : option AssetStatus) : M fs unit :=
  cleanup_old_reports;;
  try_except
    (excel_report_body c task_id contract_name fecha_desde fecha_hasta
       include_photos element_type asset_status)
    (λ e, mark_report_failed task_id (internal_error e);; mret tt).

Definition installers_report_body (c : collaborators) (task_id contract_name : string)
    (fecha_desde fecha_hasta : Z)
    (element_type : option string) (asset_status : option AssetStatus) : M fs unit :=
  with_lookups c task_id contract_name element_type (λ contract_project_id element_type_id,
    assets ← lift (get_assets_by_datetime_range c contract_project_id
                     fecha_desde fecha_hasta element_type_id asset_status);
    excel_buffer ← lift (generate_installers_excel_report c assets);
    file_content ← lift (getvalue excel_buffer);
    store_report task_id file_content).

Definition generate_installers_excel_report_background (c : collaborators)
    (task_id contract_name : string) (fecha_desde fecha_hasta : Z)
    (element_type : option string) (asset_status : option AssetStatus) : M fs unit :=
  cleanup_old_reports;;
  try_except
    (installers_report_body c task_id contract_name fecha_desde fecha_hasta
       element_type asset_status)
    (λ e, mark_report_failed task_id (internal_error e);; mret tt).

End BackgroundReports.


(** ** The report endpoint (app/api/v1/endpoints/asset.py) *)

Module ReportApi.
Import TaskStore Models BackgroundReports.

(** A datetime of the request: aware or naive, and its instant in
    seconds on the UTC time line. *)
Record datetime := { tzinfo : bool; timestamp : Z }.

Record AssetsReportRequest := {
  contract_name : string;
  fecha_desde : datetime;
  fecha_hasta : datetime;
  include_photos : option bool;
  element_type : option string;
  asset_status : option AssetStatus
}.

Record ReportTaskResponse := {
  task_id : string;
  status : ReportStatus;
  message : string
}.

(** The arguments handed to [background_tasks.add_task]. *)
Record background_task := {
  bg_task_id : string;
  bg_contract_name : string;
  bg_fecha_desde : Z;
  bg_fecha_hasta : Z;
  bg_include_photos : bool;
  bg_element_type : option string;
  bg_asset_status : option AssetStatus
}.

(** [timedelta.days] of a difference given in seconds *)
Definition timedelta_days (seconds : Z) : Z := (seconds `div` 86400)%Z.

Definition max_days : Z := 90.

Definition initiate_error : string := "Error al iniciar la generación del reporte".

(** Lines 762-767: the admission gate. *)
Definition admission_gate : M fs unit :=
  r ← can_start_new_report;
  if negb r.1 then raise (HTTPException 429 (default "" r.2)) else mret tt.

(** [new_task_id] is the UUID that [generate_task_id] draws. *)
Definition initiate_assets_excel_report (c : collaborators) (new_task_id : string)
    (report_request : AssetsReportRequest) : M fs (ReportTaskResponse * background_task) :=
  try_except
    (if negb (tzinfo (fecha_desde report_request)) || negb (tzinfo (fecha_hasta report_request))
     then raise (HTTPException 422 "Las fechas deben incluir información de timezone")
     else
       let fecha_desde_utc := timestamp (fecha_desde report_request) in
       let fecha_hasta_utc := timestamp (fecha_hasta report_request) in
       let time_difference := (fecha_hasta_utc - fecha_desde_utc)%Z in
       if bool_decide (timedelta_days time_difference > max_days)%Z
       then raise (HTTPException 422
                     ("El rango de fechas no puede exceder " +:+ pretty max_days +:+ " días"))
       else if bool_decide (time_difference < 0)%Z
       then raise (HTTPException 422 "La fecha de inicio debe ser anterior a la fecha de fin")
       else
         admission_gate;;
         contract_project ←
           lift (get_contract_project_by_id_or_nombre c (contract_name report_request));
         match contract_project with
         | None => raise (HTTPException 404 (contract_not_found (contract_name report_request)))
         | Some _ =>
             match element_type report_request with
             | None => mret tt
             | Some et =>
                 element_type ← lift (get_element_type_by_id_or_nombre c et);
                 match element_type with
                 | None => raise (HTTPException 404 (element_type_not_found et))
                 | Some _ => mret tt
                 end
             end;;
             created ← create_pending_report new_task_id;
             if negb created then raise (HTTPException 500 initiate_error)
             else
               mret ({| task_id := new_task_id;
                        status := PENDING;
                        message := "Generando reporte, por favor espere. Use el task_id para verificar el estado." |},
                     {| bg_task_id := new_task_id;
                        bg_contract_name := contract_name report_request;
                        bg_fecha_desde := fecha_desde_utc;
                        bg_fecha_hasta := fecha_hasta_utc;
                        bg_include_photos := default false (include_photos report_request);
                        bg_element_type := element_type report_request;
                        bg_asset_status := asset_status report_request |})
         end)
    (λ e, match e with
          | HTTPException _ _ => raise e
          | Exception _ _ => raise (HTTPException 500 initiate_error)
          end).

End ReportApi.


(** ** Bulk asset creation (app/crud/asset.py, [create_assets_bulk]) *)

Module BulkIngest.

(** A candidate row: the natural key, the foreign keys that are logged,
    and the remaining columns. *)
Record AssetCreate := {
  id_interno : Z;
  contract_project_id : Z;
  element_type_id : Z;
  installer_id : Z;
  columns : string
}.

(** [asset.model_dump()] extended with version and timestamps *)
Record asset_row := {
  row_asset : AssetCreate;
  version : Z;
  created_at : Z;
  updated_at : Z
}.

Definition row_id (r : asset_row) : Z := id_interno (row_asset r).

Inductive statement :=
| InsertAssets (batch : list asset_row)
| UpsertConflictive (rows : list asset_row).

(** A failure injected into a statement: the SQLAlchemy class and the
    SQLSTATE. *)
Inductive db_error_class := IntegrityError | DataError | DBAPIError.

Global Instance db_error_class_eq_dec : EqDecision db_error_class.
Proof. solve_decision. Defined.

Definition class_name (c : db_error_class) : string :=
  match c with
  | IntegrityError => "IntegrityError"
  | DataError => "DataError"
  | DBAPIError => "DBAPIError"
  end.

(** The session: both tables keyed by [id_interno] (the unique index
    the statements name), the statements executed so far, and the
    failures to come, one entry per statement ([None]: the statement
    runs). The message of a database exception is its SQLSTATE. *)
Record db := Db {
  asset_table : gmap Z asset_row;
  conflictive_asset_table : gmap Z asset_row;
  executed : list statement;
  failures : list (option (db_error_class * string))
}.

Definition db_exception (f : db_error_class * string) : exn :=
  Exception (class_name f.1) f.2.

(** [isinstance(e, IntegrityError)], and so on; IntegrityError and
    DataError are DBAPIErrors. *)
Definition is_IntegrityError (e : exn) : bool :=
  match e with
  | Exception c _ => bool_decide (c = "IntegrityError")
  | _ => false
  end.

Definition is_DataError (e : exn) : bool :=
  match e with
  | Exception c _ => bool_decide (c = "DataError")
  | _ => false
  end.

Definition is_DBAPIError (e : exn) : bool :=
  match e with
  | Exception c _ =>
      bool_decide (c = "IntegrityError") || bool_decide (c = "DataError")
      || bool_decide (c = "DBAPIError")
  | _ => false
  end.

(** [getattr(orig_error, "sqlstate", "unknown")] *)
Definition sqlstate (e : exn) : string :=
  if is_DBAPIError e then str e else "unknown".

(** [db.execute] records the statement and takes the next failure. *)
Definition begin_statement (st : statement) : M db unit :=
  λ d, match failures d with
       | Some f :: fl =>
           (Raise (db_exception f),
            Db (asset_table d) (conflictive_asset_table d) (executed d ++ [st])%list fl)
       | None :: fl =>
           (Ok tt, Db (asset_table d) (conflictive_asset_table d) (executed d ++ [st])%list fl)
       | [] =>
           (Ok tt, Db (asset_table d) (conflictive_asset_table d) (executed d ++ [st])%list [])
       end.

(** INSERT ... ON CONFLICT (id_interno) DO NOTHING RETURNING id_interno:
    a row whose key is in the table, or was inserted by an earlier row
    of the statement, is skipped. *)
Fixpoint insert_do_nothing (batch : list asset_row) (tbl : gmap Z asset_row)
    : gmap Z asset_row * list Z :=
  match batch with
  | [] => (tbl, [])
  | r :: batch' =>
      match tbl !! row_id r with
      | Some _ => insert_do_nothing batch' tbl
      | None =>
          let res := insert_do_nothing batch' (<[row_id r := r]> tbl) in
          (res.1, row_id r :: res.2)
      end
  end.

Definition execute_insert (batch : list asset_row) : M db (list Z) :=
  begin_statement (InsertAssets batch);;
  d ← get;
  let res := insert_do_nothing batch (asset_table d) in
  modify (λ d, Db res.1 (conflictive_asset_table d) (executed d) (failures d));;
  mret res.2.

(** INSERT ... ON CONFLICT (id_interno) DO UPDATE: PostgreSQL refuses a
    statement that proposes one key twice (SQLSTATE 21000), which
    SQLAlchemy raises as a DBAPIError that is neither an IntegrityError
    nor a DataError. *)
Definition execute_upsert (rows : list asset_row) : M db unit :=
  begin_statement (UpsertConflictive rows);;
  if bool_decide (NoDup (row_id <$> rows)) then
    modify (λ d, Db (asset_table d)
                    (foldl (λ t r, <[row_id r := r]> t) (conflictive_asset_table d) rows)
                    (executed d) (failures d))
  else raise (db_exception (DBAPIError, "21000")).

(** A value of the returned dict, and the dict: its items in the order
    of the literal. *)
Inductive value :=
| VInt (n : Z)
| VList (l : list Z).

Definition dict : Type := list (string * value).

(** [d.get(key)] *)
Fixpoint dict_get (d : dict) (key : string) : option value :=
  match d with
  | [] => None
  | (k, v) :: d' => if decide (k = key) then Some v else dict_get d' key
  end.

(** [range(0, stop, step)] for a non-zero [step] *)
Definition range_from_zero (stop : nat) (step : Z) : list nat :=
  if bool_decide (0 < step)%Z
  then (λ k, k * Z.to_nat step)%nat <$> seq 0 (Z.to_nat ((Z.of_nat stop + step - 1) `div` step))
  else [].

(** [l[i : i + n]] *)
Definition slice {A} (l : list A) (i n : nat) : list A := take n (drop i l).

Record trackers := {
  all_conflictive_id_internos : list Z;
  all_inserted_id_internos : gset Z;
  all_failed_id_internos : list Z
}.

Definition batch_id_internos (batch : list asset_row) : gset Z :=
  list_to_set (row_id <$> batch).

(** One turn of the batch loop. *)
Definition process_batch (t : trackers) (batch : list asset_row) : M db trackers :=
  try_except_on (λ e, is_IntegrityError e || is_DataError e)
    (returned ← execute_insert batch;
     let inserted_id_internos : gset Z := list_to_set returned in
     let conflictive_in_batch := batch_id_internos batch ∖ inserted_id_internos in
     mret {| all_conflictive_id_internos :=
               (all_conflictive_id_internos t ++ elements conflictive_in_batch)%list;
             all_inserted_id_internos :=
               all_inserted_id_internos t ∪ inserted_id_internos;
             all_failed_id_internos := all_failed_id_internos t |})
    (λ _,
     mret {| all_conflictive_id_internos := all_conflictive_id_internos t;
             all_inserted_id_internos := all_inserted_id_internos t;
             all_failed_id_internos :=
               (all_failed_id_internos t ++ elements (batch_id_internos batch))%list |}).

Definition insert_batches (insert_data : list asset_row) (batch_size : Z) : list (list asset_row) :=
  (λ i, slice insert_data i (Z.to_nat batch_size))
    <$> range_from_zero (length insert_data) batch_size.

(** The upsert of the conflictive rows: the count of rows written and
    the failed ids afterwards. *)
Definition upsert_conflictive (now : Z) (assets : list AssetCreate) (t : trackers)
    : M db (nat * list Z) :=
  match all_conflictive_id_internos t with
  | [] => mret (0%nat, all_failed_id_internos t)
  | _ =>
      let conflictive_assets :=
        List.filter (λ a, bool_decide (id_interno a ∈ all_conflictive_id_internos t)) assets in
      let cleaned_conflictive_data :=
        (λ a, {| row_asset := a; version := 1; created_at := now; updated_at := now |})
          <$> conflictive_assets in
      try_except_on (λ e, is_IntegrityError e || is_DataError e)
        (execute_upsert cleaned_conflictive_data;;
         mret (length cleaned_conflictive_data, all_failed_id_internos t))
        (λ _, mret (0%nat, (all_failed_id_internos t ++ all_conflictive_id_internos t)%list))
  end.

Definition create_assets_bulk (now : Z) (assets : list AssetCreate) (batch_size : Z)
    : M db dict :=
  let total_assets := length assets in
  if bool_decide (total_assets = 0%nat) then
    mret [("created", VInt 0); ("conflictive", VInt 0); ("total", VInt 0)]
  else if bool_decide (batch_size = 0)%Z then
    (* the logged number of batches divides by [batch_size] *)
    raise (Exception "ZeroDivisionError" "integer division or modulo by zero")
  else
    try_except
      (try_except_on is_DBAPIError
         (let insert_data :=
            (λ a, {| row_asset := a; version := 1; created_at := now; updated_at := now |})
              <$> assets in
          t ← foldM process_batch
                {| all_conflictive_id_internos := [];
                   all_inserted_id_internos := ∅;
                   all_failed_id_internos := [] |}
                (insert_batches insert_data batch_size);
          r ← upsert_conflictive now assets t;
          mret [("created", VInt (Z.of_nat (size (all_inserted_id_internos t))));
                ("conflictive", VInt (Z.of_nat r.1));
                ("total", VInt (Z.of_nat total_assets));
                ("failed", VInt (Z.of_nat (length r.2)));
                ("failed_id_internos", VList (merge_sort Z.le r.2))])
         (λ db_error,
          raise (HTTPException 500
                   ("Database integrity error during asset creation (code: "
                    +:+ sqlstate db_error +:+ ")"))))
      (λ e,
       match e with
       | HTTPException _ _ => raise e
       | _ => raise (HTTPException 500
                       ("Unexpected error during asset creation: " +:+ str e))
       end).

(** [result[key]] *)
Definition getitem (result : dict) (key : string) : res value :=
  match dict_get result key with
  | Some v => Ok v
  | None => Raise (Exception "KeyError" ("'" +:+ key +:+ "'"))
  end.

(** app/api/v1/endpoints/asset.py, [create_assets_bulk_route]: the
    route reads the four counts of the result for its log (the commit
    and the rollbacks of the session are left out). *)
Definition create_assets_bulk_route (now : Z) (assets : list AssetCreate) (batch_size : Z)
    : M db dict :=
  try_except
    (result ← create_assets_bulk now assets batch_size;
     lift (getitem result "created");;
     lift (getitem result "conflictive");;
     lift (getitem result "failed");;
     lift (getitem result "total");;
     mret result)
    (λ e,
     match e with
     | HTTPException _ _ => raise e
     | _ => raise (HTTPException 500 "Error creating assets in bulk")
     end).

End BulkIngest.

(** ** Bulk photo upload (app/services/photo_upload.py,
       app/utils/photo_validation.py) *)

Module PhotoUpload.
Import Models.

(** An upload: its name, its bytes, and the exception that reading it
    raises, if any. *)
Record UploadFile := { filename : string; content : string; read_error : option exn }.

(** [await photo.read()] *)
Definition read (photo : UploadFile) : res string :=
  match read_error photo with
  | Some e => Raise e
  | None => Ok (content photo)
  end.

(** The settings read from the environment by app/core/config.py;
    [max_size_mb] is the text of [MAX_PHOTO_FILE_SIZE / (1024 * 1024)]. *)
Record config := {
  MAX_PHOTOS_PER_REQUEST : nat;
  ALLOWED_EXTENSIONS_LIST : list string;
  MAX_PHOTO_FILE_SIZE : nat;
  max_size_mb : string
}.

(** *** Photo names *)

(** [s.split(sep)[-1]]: what follows the last [sep], [acc] being the
    segment read so far. *)
Fixpoint last_segment (sep : ascii) (s acc : string) : string :=
  match s with
  | EmptyString => acc
  | String c s' =>
      if decide (c = sep) then last_segment sep s' ""
      else last_segment sep s' (acc +:+ String c "")
  end.

(** [str.lower] on the ASCII letters *)
Definition lower_ascii (c : ascii) : ascii :=
  let n := nat_of_ascii c in
  if bool_decide (65 ≤ n ≤ 90)%nat then ascii_of_nat (n + 32) else c.

Fixpoint lower (s : string) : string :=
  match s with
  | EmptyString => EmptyString
  | String c s' => String (lower_ascii c) (lower s')
  end.

Definition extension_of (photo : UploadFile) : string :=
  lower (last_segment "."%char (filename photo) "").

Definition two_digits (n : Z) : string :=
  if bool_decide (n < 10)%Z then "0" +:+ pretty n else pretty n.

(** [fecha_instalacion.strftime("%Y%m%d")] *)
Definition strftime_Ymd (d : date) : string :=
  pretty (year d) +:+ two_digits (month d) +:+ two_digits (day d).

Definition generate_photo_name (fecha_instalacion : date) (id_interno : Z)
    (extension : string) : string :=
  strftime_Ymd fecha_instalacion +:+ "_" +:+ pretty id_interno +:+ "_codigo_barra."
  +:+ extension.

(** *** Validation of the request *)

Definition validate_request_limits (cfg : config) (photos : list UploadFile) : res unit :=
  if bool_decide (MAX_PHOTOS_PER_REQUEST cfg < length photos)%nat
  then Raise (HTTPException 400
                ("Maximum " +:+ pretty (MAX_PHOTOS_PER_REQUEST cfg)
                 +:+ " photos allowed per request"))
  else Ok tt.

Definition validate_photo_and_asset_length (ids_internos : list Z)
    (photos : list UploadFile) : res unit :=
  if bool_decide (length ids_internos ≠ length photos)
  then Raise (HTTPException 400
                "The number of ids_internos must match the number of photos")
  else Ok tt.

(** [", ".join(l)] *)
Fixpoint join_comma (l : list string) : string :=
  match l with
  | [] => ""
  | [x] => x
  | x :: l' => x +:+ ", " +:+ join_comma l'
  end.

Definition validate_photo_extension (cfg : config) (photo : UploadFile) : res unit :=
  match filename photo with
  | EmptyString => Raise (HTTPException 400 "Photo filename is required")
  | _ =>
      if bool_decide (extension_of photo ∈ ALLOWED_EXTENSIONS_LIST cfg) then Ok tt
      else Raise (HTTPException 400
                    ("Invalid file extension. Allowed: "
                     +:+ join_comma (ALLOWED_EXTENSIONS_LIST cfg)))
  end.

Definition validate_photo_size (cfg : config) (photo : UploadFile) : res unit :=
  match read photo with
  | Raise e => Raise e
  | Ok content =>
      if bool_decide (MAX_PHOTO_FILE_SIZE cfg < String.length content)%nat
      then Raise (HTTPException 400 ("Photo size exceeds " +:+ max_size_mb cfg +:+ "MB limit"))
      else Ok tt
  end.

(** [for photo in photos: validate(photo)] *)
Fixpoint validate_each (validate : UploadFile → res unit) (photos : list UploadFile)
    : res unit :=
  match photos with
  | [] => Ok tt
  | photo :: photos' =>
      match validate photo with
      | Ok _ => validate_each validate photos'
      | Raise e => Raise e
      end
  end.

Definition validate_photo_extensions (cfg : config) := validate_each (validate_photo_extension cfg).
Definition validate_photo_sizes (cfg : config) := validate_each (validate_photo_size cfg).

(** *** The session, the photo directories and the calls made *)

Inductive update_outcome :=
| Runs
| NoRow
| Fails (e : exn).

Inductive event :=
| Save (id_interno : Z) (photo_name : string) (conflictive : bool)
| Update (conflictive : bool) (id_interno : Z) (photo_name : string)
| Commit
| Rollback.

(** How a save fails: before the file is opened, which leaves the
    directory as it is, or after [open(file_path, "wb")] has created or
    truncated the file and [written] characters of the content have
    reached it. *)
Inductive save_failure :=
| BeforeOpen (msg : string)
| AfterOpen (written : nat) (msg : string).

(** The rows of both tables, as the session sees them and as last
    committed; the two photo directories; the outcome of the saves to
    come ([Some f]: the save raises) and of the statements to come, the
    two SELECTs, the UPDATEs, the commit and the rollback ([Fails e]:
    the statement raises; [NoRow]: the row is gone when the UPDATE
    runs); the saves and the writing statements made so far. *)
Record world := World {
  asset_table : list Asset;
  conflictive_asset_table : list Asset;
  committed : list Asset * list Asset;
  asset_photos_dir : gmap string string;
  conflictive_asset_photos_dir : gmap string string;
  save_failures : list (option save_failure);
  statement_outcomes : list update_outcome;
  events : list event
}.

Definition set_tables (a c : list Asset) (w : world) : world :=
  World a c (committed w) (asset_photos_dir w) (conflictive_asset_photos_dir w)
        (save_failures w) (statement_outcomes w) (events w).

Definition record_event (ev : event) : M world unit :=
  modify (λ w, World (asset_table w) (conflictive_asset_table w) (committed w)
                     (asset_photos_dir w) (conflictive_asset_photos_dir w)
                     (save_failures w) (statement_outcomes w) (events w ++ [ev])%list).

Definition next_save_failure : M world (option save_failure) :=
  λ w, match save_failures w with
       | [] => (Ok None, w)
       | f :: fl =>
           (Ok f, World (asset_table w) (conflictive_asset_table w) (committed w)
                        (asset_photos_dir w) (conflictive_asset_photos_dir w)
                        fl (statement_outcomes w) (events w))
       end.

Definition next_outcome : M world update_outcome :=
  λ w, match statement_outcomes w with
       | [] => (Ok Runs, w)
       | o :: ol =>
           (Ok o, World (asset_table w) (conflictive_asset_table w) (committed w)
                        (asset_photos_dir w) (conflictive_asset_photos_dir w)
                        (save_failures w) ol (events w))
       end.

(** SELECT ... WHERE id_interno IN (...) *)
Definition select_by_ids_internos (tbl : list Asset) (ids_interno : list Z) : list Asset :=
  List.filter (λ a, bool_decide (id_interno a ∈ ids_interno)) tbl.

(** [result = await db.execute(query)] and
    [list(result.scalars().all())] *)
Definition _get_assets_by_ids_internos (ids_interno : list Z) : M world (list Asset) :=
  o ← next_outcome;
  match o with
  | Fails e => raise e
  | _ => w ← get; mret (select_by_ids_internos (asset_table w) ids_interno)
  end.

Definition _get_conflictive_assets_by_ids_internos (ids_interno : list Z)
    : M world (list Asset) :=
  o ← next_outcome;
  match o with
  | Fails e => raise e
  | _ => w ← get; mret (select_by_ids_internos (conflictive_asset_table w) ids_interno)
  end.

(** The file [photo_name] of the directory of the owning table holds
    [bytes]. *)
Definition store_photo (photo_name : string) (conflictive_asset : bool) (bytes : string)
    : M world unit :=
  modify (λ w,
    if conflictive_asset then
      World (asset_table w) (conflictive_asset_table w) (committed w)
            (asset_photos_dir w)
            (<[photo_name := bytes]> (conflictive_asset_photos_dir w))
            (save_failures w) (statement_outcomes w) (events w)
    else
      World (asset_table w) (conflictive_asset_table w) (committed w)
            (<[photo_name := bytes]> (asset_photos_dir w))
            (conflictive_asset_photos_dir w)
            (save_failures w) (statement_outcomes w) (events w)).

(** [content = await photo.read()], [open(file_path, "wb")],
    [f.write(content)] and [await photo.seek(0)], in the directory of
    the owning table *)
Definition write_photo (photo : UploadFile) (photo_name : string)
    (conflictive_asset : bool) : M world unit :=
  content ← lift (read photo);
  f ← next_save_failure;
  match f with
  | Some (BeforeOpen msg) => raise (Exception "OSError" msg)
  | Some (AfterOpen written msg) =>
      store_photo photo_name conflictive_asset (substring 0 written content);;
      raise (Exception "OSError" msg)
  | None => store_photo photo_name conflictive_asset content
  end.

Definition _save_photo_to_filesystem_safe (photo : UploadFile) (photo_name : string)
    (conflictive_asset : bool) : M world (bool * option string) :=
  try_except
    (write_photo photo photo_name conflictive_asset;; mret (true, None))
    (λ e, mret (false, Some ("Error saving photo: " +:+ str e))).

Definition set_photo (photo_name : string) (a : Asset) : Asset :=
  {| asset_id := asset_id a; id_interno := id_interno a;
     contract_project_id := contract_project_id a;
     element_type_id := element_type_id a;
     element_type_nombre := element_type_nombre a;
     estado := estado a; created_at := created_at a;
     fecha_instalacion := fecha_instalacion a;
     georeferenciacion := georeferenciacion a;
     nombre_foto_codigo_barra := Some photo_name |}.

(** UPDATE ... SET nombre_foto_codigo_barra = ... WHERE id_interno = ... *)
Definition update_rows (id_interno : Z) (photo_name : string) (tbl : list Asset)
    : list Asset :=
  (λ a, if bool_decide (Models.id_interno a = id_interno) then set_photo photo_name a else a)
    <$> tbl.

(** ... RETURNING id_interno, read with [scalar_one_or_none()] *)
Definition scalar_one_or_none (returned : list Z) : res (option Z) :=
  match returned with
  | [] => Ok None
  | [i] => Ok (Some i)
  | _ => Raise (Exception "MultipleResultsFound"
                  "Multiple rows were found when one or none was required")
  end.

Definition execute_update (is_conflictive : bool) (id_interno : Z)
    (photo_name : string) : M world (option Z) :=
  record_event (Update is_conflictive id_interno photo_name);;
  o ← next_outcome;
  match o with
  | Fails e => raise e
  | NoRow => mret None
  | Runs =>
      w ← get;
      let tbl := if is_conflictive then conflictive_asset_table w else asset_table w in
      let returned :=
        Models.id_interno
          <$> List.filter (λ a, bool_decide (Models.id_interno a = id_interno)) tbl in
      modify (λ w,
        if is_conflictive
        then set_tables (asset_table w)
               (update_rows id_interno photo_name (conflictive_asset_table w)) w
        else set_tables (update_rows id_interno photo_name (asset_table w))
               (conflictive_asset_table w) w);;
      lift (scalar_one_or_none returned)
  end.

Definition commit : M world unit :=
  record_event Commit;;
  o ← next_outcome;
  match o with
  | Fails e => raise e
  | _ =>
      modify (λ w, World (asset_table w) (conflictive_asset_table w)
                         (asset_table w, conflictive_asset_table w)
                         (asset_photos_dir w) (conflictive_asset_photos_dir w)
                         (save_failures w) (statement_outcomes w) (events w))
  end.

Definition rollback : M world unit :=
  record_event Rollback;;
  o ← next_outcome;
  match o with
  | Fails e => raise e
  | _ => modify (λ w, set_tables (committed w).1 (committed w).2 w)
  end.

(** The [update_data] dicts of phase 3 *)
Record update_data := {
  u_id_interno : Z;
  u_photo_name : string
}.

Definition _bulk_update_asset_photos (updates : list update_data) (is_conflictive : bool)
    : M world (list Z) :=
  match updates with
  | [] => mret []
  | _ =>
      try_except
        (foldM (λ updated_ids update_item,
                  updated_id ← execute_update is_conflictive (u_id_interno update_item)
                                 (u_photo_name update_item);
                  match updated_id with
                  | Some i => if bool_decide (i ≠ 0%Z) then mret (updated_ids ++ [i])%list
                              else mret updated_ids
                  | None => mret updated_ids
                  end)
           [] updates)
        (λ e, raise e)
  end.

(** *** The four phases *)

Record PhotoUploadResponse := {
  success : bool;
  response_id_interno : Z;
  photo_name : option string;
  error_message : option string
}.

Record BulkPhotoUploadResponse := {
  total_processed : nat;
  total_successful : nat;
  total_failed : Z;
  results : list PhotoUploadResponse
}.

(** An entry of [upload_plan] *)
Record plan_item := {
  asset : Asset;
  photo : UploadFile;
  plan_photo_name : string;
  is_conflictive : bool;
  plan_id_interno : Z
}.

(** [{asset.id_interno: asset for asset in assets}] *)
Definition by_id_interno (assets : list Asset) : gmap Z Asset :=
  foldl (λ d a, <[Models.id_interno a := a]> d) ∅ assets.

Definition not_found_response (id_interno : Z) : PhotoUploadResponse :=
  {| success := false;
     response_id_interno := id_interno;
     photo_name := None;
     error_message := Some "Asset not found in regular or conflictive tables" |}.

Definition plan_for (a : Asset) (conflictive : bool) (id_interno : Z)
    (ph : UploadFile) : plan_item :=
  {| asset := a;
     photo := ph;
     plan_photo_name :=
       generate_photo_name (fecha_instalacion a) (Models.id_interno a) (extension_of ph);
     is_conflictive := conflictive;
     plan_id_interno := id_interno |}.

(** One turn of the loop of phase 1 over [zip(ids_internos, photos)];
    the accumulator is [upload_plan], [asset_not_found_ids], [results]. *)
Definition resolve (assets_dict conflictive_assets_dict : gmap Z Asset)
    (acc : list plan_item * list Z * list PhotoUploadResponse) (pair : Z * UploadFile)
    : list plan_item * list Z * list PhotoUploadResponse :=
  let id_interno := pair.1 in
  match assets_dict !! id_interno with
  | Some a => (acc.1.1 ++ [plan_for a false id_interno pair.2], acc.1.2, acc.2)%list
  | None =>
      match conflictive_assets_dict !! id_interno with
      | Some a => (acc.1.1 ++ [plan_for a true id_interno pair.2], acc.1.2, acc.2)%list
      | None =>
          (acc.1.1, acc.1.2 ++ [id_interno], acc.2 ++ [not_found_response id_interno])%list
      end
  end.

Definition filesystem_failure (item : plan_item) (error_msg : option string)
    : PhotoUploadResponse :=
  {| success := false;
     response_id_interno := plan_id_interno item;
     photo_name := None;
     error_message := error_msg |}.

(** One turn of the loop of phase 2; the accumulator is
    [successful_uploads], [failed_filesystem_ids], [results]. *)
Definition save_item (acc : list plan_item * list Z * list PhotoUploadResponse)
    (item : plan_item) : M world (list plan_item * list Z * list PhotoUploadResponse) :=
  record_event (Save (plan_id_interno item) (plan_photo_name item) (is_conflictive item));;
  r ← _save_photo_to_filesystem_safe (photo item) (plan_photo_name item) (is_conflictive item);
  if r.1 : bool then mret (acc.1.1 ++ [item], acc.1.2, acc.2)%list
  else mret (acc.1.1, acc.1.2 ++ [plan_id_interno item],
             acc.2 ++ [filesystem_failure item r.2])%list.

Definition to_update_data (item : plan_item) : update_data :=
  {| u_id_interno := plan_id_interno item; u_photo_name := plan_photo_name item |}.

(** [if data: updated_ids = await _bulk_update_asset_photos(...)], and
    the ids it adds to [successful_db_updates] *)
Definition update_table (data : list update_data) (is_conflictive : bool)
    : M world (gset Z) :=
  match data with
  | [] => mret ∅
  | _ => updated_ids ← _bulk_update_asset_photos data is_conflictive;
         mret (list_to_set updated_ids)
  end.

(** The [try] block of phase 3; it yields [successful_db_updates]
    ([failed_db_updates] only feeds the log). *)
Definition database_updates (successful_uploads : list plan_item) : M world (gset Z) :=
  let regular_assets_data :=
    to_update_data <$> List.filter (λ item, negb (is_conflictive item)) successful_uploads in
  let conflictive_assets_data :=
    to_update_data <$> List.filter is_conflictive successful_uploads in
  updated_regular ← update_table regular_assets_data false;
  updated_conflictive ← update_table conflictive_assets_data true;
  commit;;
  mret (updated_regular ∪ updated_conflictive).

Definition database_phase (successful_uploads : list plan_item) : M world (gset Z) :=
  match successful_uploads with
  | [] => mret ∅
  | _ => try_except (database_updates successful_uploads) (λ _, rollback;; mret ∅)
  end.

Definition inconsistent_message : string :=
  "Photo saved to filesystem but database update failed".

(** Phase 4, for one item of [successful_uploads] *)
Definition reconcile (successful_db_updates : gset Z) (item : plan_item)
    : PhotoUploadResponse :=
  if bool_decide (plan_id_interno item ∈ successful_db_updates) then
    {| success := true;
       response_id_interno := plan_id_interno item;
       photo_name := Some (plan_photo_name item);
       error_message := None |}
  else
    {| success := false;
       response_id_interno := plan_id_interno item;
       photo_name := None;
       error_message := Some inconsistent_message |}.

(** [zip(ids_internos, photos)] *)
Definition zip_pairs (ids_internos : list Z) (photos : list UploadFile)
    : list (Z * UploadFile) :=
  zip ids_internos photos.

Definition resolution_phase (ids_internos : list Z) (photos : list UploadFile)
    : M world (list plan_item * list Z * list PhotoUploadResponse) :=
  assets ← _get_assets_by_ids_internos ids_internos;
  conflictive_assets ← _get_conflictive_assets_by_ids_internos ids_internos;
  let assets_dict := by_id_interno assets in
  let conflictive_assets_dict := by_id_interno conflictive_assets in
  mret (foldl (resolve assets_dict conflictive_assets_dict) ([], [], [])
          (zip_pairs ids_internos photos)).

Definition bulk_photo_upload (cfg : config) (ids_internos : list Z)
    (photos : list UploadFile) : M world BulkPhotoUploadResponse :=
  lift (validate_request_limits cfg photos);;
  lift (validate_photo_and_asset_length ids_internos photos);;
  lift (validate_photo_extensions cfg photos);;
  lift (validate_photo_sizes cfg photos);;
  let total_processed := length ids_internos in
  planned ← resolution_phase ids_internos photos;
  let upload_plan := planned.1.1 in
  saved ← foldM save_item ([], [], planned.2) upload_plan;
  let successful_uploads := saved.1.1 in
  successful_db_updates ← database_phase successful_uploads;
  let results :=
    (saved.2 ++ (reconcile successful_db_updates <$> successful_uploads))%list in
  let total_successful := length (List.filter success results) in
  mret {| total_processed := total_processed;
          total_successful := total_successful;
          total_failed := (Z.of_nat total_processed - Z.of_nat total_successful)%Z;
          results := results |}.

End PhotoUpload.

(** ** The KMZ report (app/services/asset_report.py) *)

Module AssetReport.
Import Models.

(** *** [re.findall(r"-?\d+\.\d+", georef)] *)

(** The str of an ASCII literal. *)
Definition code_points (s : string) : list N := N_of_ascii <$> list_ascii_of_string s.

Definition hyphen_minus : N := 45.
Definition full_stop : N := 46.

Section pattern.

(** The class [\d] of a str pattern: Unicode's decimal digits (general
    category Nd), the ten ASCII digits and those of the other scripts. *)
Variable Nd : N → bool.

(** The longest run of digits that starts [s], and what follows it. *)
Fixpoint span_digits (s : list N) : list N * list N :=
  match s with
  | [] => ([], [])
  | c :: s' =>
      if Nd c then (c :: (span_digits s').1, (span_digits s').2)
      else ([], s)
  end.

(** [\d+\.\d+] at the start of [s]: the text matched and the rest. Both
    runs of digits are greedy; a shorter first run is followed by a
    digit, never by the full stop, so no other split matches. *)
Definition match_decimal (s : list N) : option (list N * list N) :=
  match span_digits s with
  | ([], _) => None
  | (int_part, c :: rest) =>
      if decide (c = full_stop) then
        match span_digits rest with
        | ([], _) => None
        | (frac_part, rest') => Some ((int_part ++ full_stop :: frac_part)%list, rest')
        end
      else None
  | _ => None
  end.

(** [-?\d+\.\d+] at the start of [s]: with the sign first, without it
    otherwise. *)
Definition match_here (s : list N) : option (list N * list N) :=
  match s with
  | c :: s' =>
      if decide (c = hyphen_minus) then
        match match_decimal s' with
        | Some (m, rest) => Some (hyphen_minus :: m, rest)
        | None => match_decimal s
        end
      else match_decimal s
  | [] => match_decimal s
  end.

(** The matches from left to right, without overlap; [fuel] bounds the
    positions tried. *)
Fixpoint findall_from (fuel : nat) (s : list N) : list (list N) :=
  match fuel with
  | O => []
  | S fuel' =>
      match match_here s with
      | Some (m, rest) => m :: findall_from fuel' rest
      | None =>
          match s with
          | [] => []
          | _ :: s' => findall_from fuel' s'
          end
      end
  end.

Definition findall (s : list N) : list (list N) :=
  findall_from (S (length s)) s.

End pattern.

(** *** [_escape_xml] *)

(** [text.replace(c, by)] for a one-character [c] *)
Fixpoint replace_char (c : ascii) (by_ : string) (text : string) : string :=
  match text with
  | EmptyString => EmptyString
  | String d text' =>
      if decide (d = c) then by_ +:+ replace_char c by_ text'
      else String d (replace_char c by_ text')
  end.

Definition double_quote : ascii := ascii_of_nat 34.

Definition _escape_xml (text : string) : string :=
  replace_char "'" "&apos;"
    (replace_char double_quote "&quot;"
       (replace_char ">" "&gt;"
          (replace_char "<" "&lt;"
             (replace_char "&" "&amp;" text)))).

Section report.

(** Python's floats: [float(s)] on a decimal literal and the text an
    f-string gives a float; the digits of [\d]. *)
Context {float : Type}.
Variable Nd : N → bool.
Variable float_of_string : list N → float.
Variable float_text : float → string.

Definition _parse_georef (georef : option (list N)) : option float * option float :=
  match georef with
  | None => (None, None)
  | Some [] => (None, None)
  | Some g =>
      match findall Nd g with
      | m0 :: m1 :: _ => (Some (float_of_string m0), Some (float_of_string m1))
      | _ => (None, None)
      end
  end.

(** A row given as a dict: [None] for an absent key. *)
Record asset_dict := {
  d_georeferenciacion : option (list N);
  d_id_interno : option Z;
  d_elemento : option string
}.

(** An entry of [valid_assets], with [str] applied to the id and the
    element name. *)
Record valid_asset := {
  v_id_interno : string;
  v_elemento : string;
  lat : float;
  lon : float
}.

(** [str(x)] of an optional integer *)
Definition str_of_id (i : option Z) : string :=
  match i with
  | Some n => pretty n
  | None => "None"
  end.

(** One turn of the loop over [assets]; the accumulator is
    [valid_assets] and [skipped_count]. *)
Definition collect_asset (acc : list valid_asset * nat) (a : Asset)
    : list valid_asset * nat :=
  match _parse_georef (georeferenciacion a) with
  | (Some la, Some lo) =>
      (acc.1 ++ [{| v_id_interno := pretty (id_interno a);
                    v_elemento := element_type_nombre a;
                    lat := la; lon := lo |}], acc.2)%list
  | _ => (acc.1, S acc.2)
  end.

(** One turn of the loop over [assets_data] *)
Definition collect_dict (acc : list valid_asset * nat) (d : asset_dict)
    : list valid_asset * nat :=
  match _parse_georef (Some (default [] (d_georeferenciacion d))) with
  | (Some la, Some lo) =>
      (acc.1 ++ [{| v_id_interno := str_of_id (d_id_interno d);
                    v_elemento := default "" (d_elemento d);
                    lat := la; lon := lo |}], acc.2)%list
  | _ => (acc.1, S acc.2)
  end.

Definition placemark_of (asset_data : valid_asset) : string :=
  let id_interno := _escape_xml (v_id_interno asset_data) in
  let elemento := _escape_xml (v_elemento asset_data) in
  let name :=
    match elemento with
    | EmptyString => id_interno
    | _ => id_interno +:+ " - " +:+ elemento
    end in
  "
        <Placemark>
            <name>" +:+ name +:+ "</name>
            <Point>
                <coordinates>" +:+ float_text (lon asset_data) +:+ ","
  +:+ float_text (lat asset_data) +:+ ",0</coordinates>
            </Point>
        </Placemark>".

(** [''.join(l)] *)
Definition join (l : list string) : string := foldr String.append "" l.

Definition kml_header : string :=
  "<?xml version=" +:+ String double_quote "1.0" +:+ String double_quote " encoding="
  +:+ String double_quote "UTF-8" +:+ String double_quote "?>
<kml xmlns=" +:+ String double_quote "http://www.opengis.net/kml/2.2"
  +:+ String double_quote ">
  <Document>
    <name>Activos Viales</name>
    <description>Activos extraídos desde base de datos</description>
    ".

Definition kml_footer : string :=
  "
  </Document>
</kml>
".

(** What [generate_kmz_report] gives: the [doc.kml] member of the
    archive (the compression is left out) and the counts it logs. *)
Record kmz_report := {
  doc_kml : string;
  logged_total_assets : nat;
  logged_valid_assets : nat;
  logged_skipped_assets : nat
}.

Definition generate_kmz_report (assets : option (list Asset))
    (assets_data : option (list asset_dict)) : res kmz_report :=
  match assets, assets_data with
  | None, None =>
      Raise (Exception "ValueError" "Either assets or assets_data must be provided")
  | _, _ =>
      let acc1 := foldl collect_asset ([], 0%nat) (default [] assets) in
      let acc2 := foldl collect_dict acc1 (default [] assets_data) in
      let valid_assets := acc2.1 in
      let skipped_count := acc2.2 in
      let placemarks := placemark_of <$> valid_assets in
      let kml_content := kml_header +:+ join placemarks +:+ kml_footer in
      Ok {| doc_kml := kml_content;
            logged_total_assets :=
              (length (default [] assets) + length (default [] assets_data))%nat;
            logged_valid_assets := length valid_assets;
            logged_skipped_assets := skipped_count |}
  end.

End report.

(** The number of places where [needle] occurs in [text] *)
Fixpoint starts_with (needle text : string) : bool :=
  match needle, text with
  | EmptyString, _ => true
  | String a needle', String b text' =>
      if decide (a = b) then starts_with needle' text' else false
  | String _ _, EmptyString => false
  end.

Fixpoint count_occurrences (needle text : string) : nat :=
  match text with
  | EmptyString => O
  | String _ text' =>
      ((if starts_with needle text then 1 else 0) + count_occurrences needle text')%nat
  end.

End AssetReport.

(** ** The other report routes (app/api/v1/endpoints/asset.py) *)

Module ReportRoutes.
Import TaskStore Models BackgroundReports ReportApi.

(** The arguments [initiate_installers_excel_report] hands to
    [background_tasks.add_task]. *)
Record installers_background_task := {
  ibg_task_id : string;
  ibg_contract_name : string;
  ibg_fecha_desde : Z;
  ibg_fecha_hasta : Z;
  ibg_element_type : option string
}.

(** [initiate_installers_excel_report]; [new_task_id] is the UUID that
    [generate_task_id] draws. *)
Definition initiate_installers_excel_report (c : collaborators) (new_task_id : string)
    (report_request : AssetsReportRequest)
    : M fs (ReportTaskResponse * installers_background_task) :=
  try_except
    (if negb (tzinfo (fecha_desde report_request)) || negb (tzinfo (fecha_hasta report_request))
     then raise (HTTPException 422 "Las fechas deben incluir información de timezone")
     else
       let fecha_desde_utc := timestamp (fecha_desde report_request) in
       let fecha_hasta_utc := timestamp (fecha_hasta report_request) in
       let time_difference := (fecha_hasta_utc - fecha_desde_utc)%Z in
       if bool_decide (timedelta_days time_difference > max_days)%Z
       then raise (HTTPException 422
                     ("El rango de fechas no puede exceder " +:+ pretty max_days +:+ " días"))
       else if bool_decide (time_difference < 0)%Z
       then raise (HTTPException 422 "La fecha de inicio debe ser anterior a la fecha de fin")
       else
         admission_gate;;
         contract_project ←
           lift (get_contract_project_by_id_or_nombre c (contract_name report_request));
         match contract_project with
         | None => raise (HTTPException 404 (contract_not_found (contract_name report_request)))
         | Some _ =>
             created ← create_pending_report new_task_id;
             if negb created then raise (HTTPException 500 initiate_error)
             else
               mret ({| task_id := new_task_id;
                        status := PENDING;
                        message := "Generando reporte de instaladores, por favor espere. Use el task_id para verificar el estado." |},
                     {| ibg_task_id := new_task_id;
                        ibg_contract_name := contract_name report_request;
                        ibg_fecha_desde := fecha_desde_utc;
                        ibg_fecha_hasta := fecha_hasta_utc;
                        ibg_element_type := element_type report_request |})
         end)
    (λ e, match e with
          | HTTPException _ _ => raise e
          | Exception _ _ => raise (HTTPException 500 initiate_error)
          end).

Record ReportStatusResponse := {
  rs_task_id : string;
  rs_status : ReportStatus;
  rs_message : string
}.

Definition get_excel_report_status (task_id : string) : M fs ReportStatusResponse :=
  try_except
    (r ← get_report_status task_id;
     match r.1 with
     | None => raise (HTTPException 404 "Reporte no encontrado o expirado")
     | Some report_status =>
         mret {| rs_task_id := task_id; rs_status := report_status; rs_message := r.2 |}
     end)
    (λ e, match e with
          | HTTPException _ _ => raise e
          | Exception _ _ =>
              raise (HTTPException 500 "Error al verificar el estado del reporte")
          end).

(** [file_path.stat().st_size] *)
Definition stat_size (p : string) : M fs nat :=
  io_point "stat";;
  s ← get;
  match files s !! p with
  | Some f => mret (String.length (data f))
  | None => raise (FileNotFoundError p)
  end.

(** What the download route hands to [FileResponse]. *)
Record FileResponse := {
  path : string;
  media_type : string;
  download_filename : string
}.

Section download.

(** [datetime.now().strftime("%Y%m%d_%H%M")] at an instant of the clock *)
Variable strftime_now : Z → string.

Definition download_excel_report (task_id : string) : M fs FileResponse :=
  try_except
    (r ← get_report_status task_id;
     match r.1 with
     | None => raise (HTTPException 404 "Reporte no encontrado o expirado")
     | Some PENDING =>
         raise (HTTPException 425
                  "El reporte aún se está generando. Por favor intente más tarde.")
     | Some FAILED =>
         raise (HTTPException 500 (or_default r.2 "Error al generar el reporte"))
     | Some COMPLETED =>
         file_path ← get_report_file_path task_id;
         match file_path with
         | None => raise (HTTPException 404 "Archivo del reporte no encontrado")
         | Some p =>
             there ← path_exists p;
             if negb there then raise (HTTPException 404 "Archivo del reporte no encontrado")
             else
               s ← get;
               let timestamp := strftime_now (now s) in
               let filename := "reporte_activos_" +:+ timestamp +:+ ".xlsx" in
               stat_size p;;
               mret {| path := p;
                       media_type :=
                         "application/vnd.openxmlformats-officedocument.spreadsheetml.sheet";
                       download_filename := filename |}
         end
     end)
    (λ e, match e with
          | HTTPException _ _ => raise e
          | Exception _ _ => raise (HTTPException 500 "Error al descargar el reporte")
          end).

End download.

End ReportRoutes.

(** ** Listing and synchronising assets (app/crud/asset.py,
       app/decorators/sqlalchemy_error_handler.py,
       app/schemas/shared_pagination_response.py,
       app/api/v1/endpoints/asset.py) *)

Module AssetQueries.
Local Open Scope list_scope.
Import Models.

(** A row of the asset table: the columns of [Asset] and the other
    columns the filters compare ([None]: NULL). *)
Record asset_row := {
  row : Asset;
  tag_bim : option string;
  installer_id : option Z;
  macro_location_id : option Z
}.

(** The session: the asset table, the outcome of the statements to come
    ([Some e]: the statement raises [e]) and the number of rollbacks. *)
Record session := Session {
  table : list asset_row;
  statement_failures : list (option exn);
  rollbacks : nat
}.

(** [await db.execute(...)], as far as it can fail *)
Definition execute : M session unit :=
  λ s, match statement_failures s with
       | Some e :: fl => (Raise e, Session (table s) fl (rollbacks s))
       | None :: fl => (Ok tt, Session (table s) fl (rollbacks s))
       | [] => (Ok tt, s)
       end.

Definition session_rollback : M session unit :=
  modify (λ s, Session (table s) (statement_failures s) (S (rollbacks s))).

(** *** app/decorators/sqlalchemy_error_handler.py *)

Definition class_of (e : exn) : string :=
  match e with
  | Exception c _ => c
  | HTTPException _ _ => "HTTPException"
  end.

(** The classes of sqlalchemy.exc a statement raises; all of them are
    SQLAlchemyErrors. *)
Definition SQLAlchemyError_classes : list string :=
  ["SQLAlchemyError"; "StatementError"; "DBAPIError"; "InterfaceError"; "DatabaseError";
   "InternalError"; "NotSupportedError"; "IntegrityError"; "DataError";
   "OperationalError"; "ProgrammingError"; "PendingRollbackError"; "InvalidRequestError";
   "ResourceClosedError"; "TimeoutError"; "NoResultFound"; "MultipleResultsFound"].

Definition isinstance (e : exn) (class : string) : bool :=
  bool_decide (class_of e = class).

Definition is_SQLAlchemyError (e : exn) : bool :=
  bool_decide (class_of e ∈ SQLAlchemyError_classes).

Definition sqlalchemy_error_handler {A} (func : M session A) : M session A :=
  try_except func (λ e,
    if isinstance e "IntegrityError" then
      session_rollback;;
      raise (HTTPException 409
               "A database constraint was violated. The operation cannot be completed.")
    else if isinstance e "DataError" then
      session_rollback;;
      raise (HTTPException 400
               "The data provided has an invalid format or is out of acceptable range.")
    else if isinstance e "OperationalError" then
      session_rollback;;
      raise (HTTPException 503 "The database is currently unavailable.")
    else if isinstance e "ProgrammingError" then
      session_rollback;;
      raise (HTTPException 500 "An error occurred in the database query.")
    else if is_SQLAlchemyError e then
      session_rollback;;
      raise (HTTPException 500 "An unexpected database error occurred.")
    else raise e).

(** *** app/crud/asset.py *)

(** [a <= b] on dates *)
Definition date_le (a b : date) : bool :=
  bool_decide (year a < year b)%Z
  || (bool_decide (year a = year b)
      && (bool_decide (month a < month b)%Z
          || (bool_decide (month a = month b) && bool_decide (day a ≤ day b)%Z))).

(** The keyword arguments of [_build_asset_filters] *)
Record asset_filters := {
  f_id_interno : option Z;
  f_tag_bim : option string;
  f_fecha_instalacion_desde : option date;
  f_fecha_instalacion_hasta : option date;
  f_installer_id : option Z;
  f_contract_project_id : option Z;
  f_element_type_id : option Z;
  f_macro_location_id : option Z
}.

(** [filters.append(condition)] when the argument is not [None] *)
Definition append_if {A} (arg : option A) (condition : A → asset_row → bool)
    (filters : list (asset_row → bool)) : list (asset_row → bool) :=
  match arg with
  | Some v => filters ++ [condition v]
  | None => filters
  end.

Definition _build_asset_filters (f : asset_filters) : list (asset_row → bool) :=
  let filters := [] in
  let filters :=
    append_if (f_id_interno f) (λ v r, bool_decide (id_interno (row r) = v)) filters in
  let filters :=
    append_if (f_tag_bim f) (λ v r, bool_decide (tag_bim r = Some v)) filters in
  let filters :=
    append_if (f_fecha_instalacion_desde f)
      (λ v r, date_le v (fecha_instalacion (row r))) filters in
  let filters :=
    append_if (f_fecha_instalacion_hasta f)
      (λ v r, date_le (fecha_instalacion (row r)) v) filters in
  let filters :=
    append_if (f_installer_id f) (λ v r, bool_decide (installer_id r = Some v)) filters in
  let filters :=
    append_if (f_contract_project_id f)
      (λ v r, bool_decide (contract_project_id (row r) = v)) filters in
  let filters :=
    append_if (f_element_type_id f)
      (λ v r, bool_decide (element_type_id (row r) = v)) filters in
  let filters :=
    append_if (f_macro_location_id f)
      (λ v r, bool_decide (macro_location_id r = Some v)) filters in
  filters ++ [λ r, bool_decide (estado (row r) ≠ retirado)].

(** [and_] applied to all the filters *)
Definition and_ (filters : list (asset_row → bool)) (r : asset_row) : bool :=
  forallb (λ condition, condition r) filters.

(** The [where] clause, added when there are filters *)
Definition where_ (filters : list (asset_row → bool)) (rows : list asset_row)
    : list asset_row :=
  match filters with
  | [] => rows
  | _ => List.filter (and_ filters) rows
  end.

(** [order_by(desc(Asset.created_at))] *)
Definition newest_first (a b : asset_row) : Prop :=
  (created_at (row b) ≤ created_at (row a))%Z.

Global Instance newest_first_dec : RelDecision newest_first.
Proof. intros a b. unfold newest_first. apply _. Defined.

Global Instance date_eq_dec : EqDecision date.
Proof. solve_decision. Defined.

(** [order_by(Asset.fecha_instalacion.asc(), Asset.id.asc())] *)
Definition by_date_then_id (a b : asset_row) : Prop :=
  Is_true (if bool_decide (fecha_instalacion (row a) = fecha_instalacion (row b))
           then bool_decide (asset_id (row a) ≤ asset_id (row b))%Z
           else date_le (fecha_instalacion (row a)) (fecha_instalacion (row b))).

Global Instance by_date_then_id_dec : RelDecision by_date_then_id.
Proof. intros a b. unfold by_date_then_id. apply _. Defined.

Section queries.

(** The exception with which the driver reports that PostgreSQL refuses
    a negative OFFSET or LIMIT. *)
Variable negative_row_count : exn.

(** [query.offset(offset).limit(limit)], executed *)
Definition offset_limit (offset limit : Z) (rows : list asset_row)
    : M session (list asset_row) :=
  execute;;
  if bool_decide (offset < 0 ∨ limit < 0)%Z then raise negative_row_count
  else mret (take (Z.to_nat limit) (drop (Z.to_nat offset) rows)).

(** [include_relationships] only adds loader options to the query. *)
Definition get_assets (f : asset_filters) (skip limit : Z)
    : M session (Z * list asset_row) :=
  sqlalchemy_error_handler
    (let filters := _build_asset_filters f in
     s ← get;
     execute;;
     let total := Z.of_nat (length (where_ filters (table s))) in
     if bool_decide (total = 0)%Z then mret (0%Z, [])
     else
       assets ← offset_limit skip limit
                  (merge_sort newest_first (where_ filters (table s)));
       mret (total, assets)).

(** A local variable of a function body: unbound until it is assigned. *)
Definition load_fast {A} (name : string) (slot : option A) : res A :=
  match slot with
  | Some v => Ok v
  | None =>
      Raise (Exception "UnboundLocalError"
               ("cannot access local variable '" +:+ name
                +:+ "' where it is not associated with a value"))
  end.

(** [fecha_instalacion_hasta] is no parameter of the function; the
    assignment in its body makes it a local, which the test before the
    assignment reads. *)
Definition get_assets_for_mobile_sync (fecha_instalacion_desde : date)
    (exclude_ids_internos : option (list Z)) (limit offset : Z)
    : M session (list asset_row * Z) :=
  sqlalchemy_error_handler
    (let fecha_instalacion_hasta : option (option date) := None in
     hasta ← lift (load_fast "fecha_instalacion_hasta" fecha_instalacion_hasta);
     let fecha_instalacion_hasta := default fecha_instalacion_desde hasta in
     let date_conditions :=
       [ (λ r, date_le fecha_instalacion_desde (fecha_instalacion (row r)));
         (λ r, date_le (fecha_instalacion (row r)) fecha_instalacion_hasta) ] in
     let date_conditions :=
       match exclude_ids_internos with
       | Some (_ :: _ as ids) =>
           date_conditions ++ [λ r, negb (bool_decide (id_interno (row r) ∈ ids))]
       | _ => date_conditions
       end in
     s ← get;
     assets ← offset_limit offset limit
                (merge_sort by_date_then_id
                   (List.filter (and_ date_conditions) (table s)));
     execute;;
     mret (assets, Z.of_nat (length (List.filter (and_ date_conditions) (table s))))).

(** *** app/schemas/shared_pagination_response.py *)

Record PaginatedResponse := {
  total : Z;
  items : list asset_row;
  page : Z;
  per_page : Z;
  has_more : bool
}.

Definition create_paginated (items : list asset_row) (total page per_page : Z)
    : PaginatedResponse :=
  {| total := total; items := items; page := page; per_page := per_page;
     has_more := bool_decide (page * per_page < total)%Z |}.

(** *** app/api/v1/endpoints/asset.py *)

(** [a // b] *)
Definition floordiv (a b : Z) : res Z :=
  if bool_decide (b = 0)%Z
  then Raise (Exception "ZeroDivisionError" "integer division or modulo by zero")
  else Ok (a `div` b)%Z.

(** [model_validate] copies the columns of each row into the response
    schema. *)
Definition get_assets_route (f : asset_filters) (skip limit : Z)
    : M session PaginatedResponse :=
  try_except
    (r ← get_assets f skip limit;
     q ← lift (floordiv skip limit);
     mret (create_paginated r.2 r.1 (q + 1)%Z limit))
    (λ _, raise (HTTPException 500 "Error retrieving assets")).

Record AssetSyncRequest := {
  sync_fecha_instalacion_desde : date;
  sync_exclude_ids_internos : option (list Z);
  sync_limit : Z;
  sync_offset : Z
}.

Record AssetSyncDataResponse := {
  sync_assets : list asset_row;
  total_available : Z;
  returned_count : nat;
  sync_has_more : bool;
  next_offset : option Z
}.

Definition sync_assets_route (sync_request : AssetSyncRequest)
    : M session AssetSyncDataResponse :=
  try_except
    (r ← get_assets_for_mobile_sync (sync_fecha_instalacion_desde sync_request)
           (sync_exclude_ids_internos sync_request)
           (sync_limit sync_request) (sync_offset sync_request);
     let sync_assets := r.1 in
     let total_count := r.2 in
     let returned_count := length sync_assets in
     let has_more :=
       bool_decide (sync_offset sync_request + Z.of_nat returned_count < total_count)%Z in
     let next_offset :=
       if has_more then Some (sync_offset sync_request + Z.of_nat returned_count)%Z
       else None in
     mret {| sync_assets := sync_assets;
             total_available := total_count;
             returned_count := returned_count;
             sync_has_more := has_more;
             next_offset := next_offset |})
    (λ e,
     match e with
     | HTTPException _ _ => raise e
     | _ => raise (HTTPException 500 "Error synchronizing assets")
     end).

End queries.

End AssetQueries.

(** * The vocabulary of the statements

    What the theorems below are stated with: measures of the inputs,
    readings of the states, and the inputs at which the theorems are
    run. *)

(** Unfolds the monad of the embedding. *)
Ltac unfold_m :=
  unfold mbind, M_bind, bind, mret, M_ret, ret, try_except, try_except_on,
         raise, get, modify, lift in *.

Module TaskStoreSpec.
Import TaskStore.

Definition suffix_chars (st : ReportStatus) : list ascii :=
  list_ascii_of_string (get_report_path "" st).

(** What a file operation does to the directory when it does not raise. *)
Definition instr_effect (i : instr) (t : Z) (m : gmap string file) : gmap string file :=
  match i with
  | ITouch p => <[p := File t (from_option data "" (m !! p))]> m
  | IOpen p => <[p := File t ""]> m
  | IWrite p c => <[p := File t c]> m
  | IUnlinkIfExists p => delete p m
  end.

(** The path a call may create, and the one it may delete. *)
Definition creates (c : call) : option string :=
  match c with
  | Submit t => Some (get_report_path t PENDING)
  | Complete t _ => Some (get_report_path t COMPLETED)
  | Fail t _ => Some (get_report_path t FAILED)
  | _ => None
  end.

Definition unlinks (c : call) : option string :=
  match c with
  | Complete t _ | Fail t _ => Some (get_report_path t PENDING)
  | _ => None
  end.

Definition submits (t : string) (c : call) : bool :=
  match c with
  | Submit t' => bool_decide (t' = t)
  | _ => false
  end.

Definition completes (t : string) (c : call) : bool :=
  match c with
  | Complete t' _ => bool_decide (t' = t)
  | _ => false
  end.

Definition fails (t : string) (c : call) : bool :=
  match c with
  | Fail t' _ => bool_decide (t' = t)
  | _ => false
  end.

Definition demo_store : fs := Fs {[ "t1.pending" := File 0 "" ]} 100 [].

End TaskStoreSpec.

Module ReportSpec.
Import TaskStore TaskStoreSpec Models BackgroundReports ReportApi.



(** An asset of contract 2, and collaborators whose lookups answer
    contract 1: no asset is in any window of that contract. *)
Definition other_contract_asset : Asset :=
  {| asset_id := 1; id_interno := 7; contract_project_id := 2; element_type_id := 1;
     element_type_nombre := "Luminaria"; estado := nuevo; created_at := 5;
     fecha_instalacion := Date 2024 1 1; georeferenciacion := None;
     nombre_foto_codigo_barra := None |}.

Definition demo_collaborators : collaborators :=
  {| get_contract_project_by_id_or_nombre := λ _, Ok (Some 1%Z);
     get_element_type_by_id_or_nombre := λ _, Ok (Some 1%Z);
     asset_rows := [other_contract_asset];
     query_failure := None;
     generate_excel_report := λ _ _, Ok "xlsx";
     write_installers_workbook := λ _, Ok "xlsx" |}.

Definition no_getvalue : exn :=
  Exception "AttributeError" "'NoneType' object has no attribute 'getvalue'".




(** [tasks] are the pending tasks of the directory: the task ids whose
    pending marker exists, each listed once. *)
Definition pending_tasks (s : fs) (tasks : list string) : Prop :=
  NoDup tasks ∧ ∀ t, t ∈ tasks ↔ is_Some (files s !! get_report_path t PENDING).



End ReportSpec.

Module BulkIngestSpec.
Local Open Scope list_scope.
Local Open Scope nat_scope.
Import BulkIngest.

(** The rows of a batch that repeat a key of the batch. *)
Definition repeated_in_batch (batch : list asset_row) : nat :=
  (length batch - size (batch_id_internos batch))%nat.

Definition repeated_keys (now : Z) (assets : list AssetCreate) (batch_size : Z) : nat :=
  sum_list_with repeated_in_batch
    (insert_batches
       ((λ a, {| row_asset := a; version := 1; created_at := now; updated_at := now |})
          <$> assets) batch_size).

(** What the batch loop maintains, [done_] being the batches processed:
    the inserted keys are in the table, every key of every batch is
    counted once, and the conflictive ids are ids of processed rows. *)
Definition ingest_inv (done_ : list (list asset_row)) (t : trackers) (d : db) : Prop :=
  all_inserted_id_internos t ⊆ dom (asset_table d)
  ∧ (size (all_inserted_id_internos t) + length (all_conflictive_id_internos t)
     + length (all_failed_id_internos t)
     = sum_list_with (λ b, size (batch_id_internos b)) done_)%nat
  ∧ all_conflictive_id_internos t ⊆+ row_id <$> concat done_.

Definition candidate (key : Z) (cols : string) : AssetCreate :=
  {| id_interno := key; contract_project_id := 1; element_type_id := 1;
     installer_id := 1; columns := cols |}.

Definition empty_db : db := Db ∅ ∅ [] [].

Definition stored (now : Z) (a : AssetCreate) : asset_row :=
  {| row_asset := a; version := 1; created_at := now; updated_at := now |}.

End BulkIngestSpec.

Module PhotoUploadSpec.
Local Open Scope list_scope.
Local Open Scope nat_scope.
Import Models PhotoUpload.

(** The id an event names. *)
Definition event_id (ev : event) : option Z :=
  match ev with
  | Save i _ _ | Update _ i _ => Some i
  | Commit | Rollback => None
  end.

(** The calls made from [w] to [w'] all satisfy [P]. *)
Definition calls_between (P : event → Prop) (w w' : world) : Prop :=
  ∃ evs, events w' = events w ++ evs ∧ Forall P evs.

(** The plan of phase 1, computed from the tables of [w]. *)
Definition planned (ids_internos : list Z) (photos : list UploadFile) (w : world)
    : list plan_item * list Z * list PhotoUploadResponse :=
  foldl (resolve (by_id_interno (select_by_ids_internos (asset_table w) ids_internos))
           (by_id_interno (select_by_ids_internos (conflictive_asset_table w) ids_internos)))
    ([], [], []) (zip_pairs ids_internos photos).

(** [w'] is [w] but for the statement outcomes, some of which are used up. *)
Definition outcomes_consumed (w w' : world) : Prop :=
  asset_table w' = asset_table w
  ∧ conflictive_asset_table w' = conflictive_asset_table w
  ∧ committed w' = committed w
  ∧ asset_photos_dir w' = asset_photos_dir w
  ∧ conflictive_asset_photos_dir w' = conflictive_asset_photos_dir w
  ∧ save_failures w' = save_failures w
  ∧ events w' = events w.

Definition validated (cfg : config) (ids_internos : list Z) (photos : list UploadFile) : Prop :=
  validate_request_limits cfg photos = Ok tt
  ∧ validate_photo_and_asset_length ids_internos photos = Ok tt
  ∧ validate_photo_extensions cfg photos = Ok tt
  ∧ validate_photo_sizes cfg photos = Ok tt.

(** An event names no id, or the id of a plan item that satisfies [Q]. *)
Definition names_only (Q : plan_item → Prop) (ev : event) : Prop :=
  ∀ i, event_id ev = Some i → ∃ it, Q it ∧ plan_id_interno it = i.

(** The responses for the id [x] *)
Definition responses_for (x : Z) (rs : list PhotoUploadResponse) : list PhotoUploadResponse :=
  filter (λ r, response_id_interno r = x) rs.

(** The number of pairs of the request whose id is [x] *)
Definition occurrences (x : Z) (ids : list Z) : nat := length (filter (λ i, i = x) ids).

Definition response_of (ids_internos : list Z) (results : list PhotoUploadResponse)
    : BulkPhotoUploadResponse :=
  {| total_processed := length ids_internos;
     total_successful := length (List.filter success results);
     total_failed :=
       (Z.of_nat (length ids_internos) - Z.of_nat (length (List.filter success results)))%Z;
     results := results |}.

(** The result of phase 4 for an item whose update is not confirmed *)
Definition inconsistent_response (item : plan_item) : PhotoUploadResponse :=
  {| success := false;
     response_id_interno := plan_id_interno item;
     photo_name := None;
     error_message := Some "Photo saved to filesystem but database update failed" |}.

Definition demo_config : config :=
  {| MAX_PHOTOS_PER_REQUEST := 100;
     ALLOWED_EXTENSIONS_LIST := ["jpg"; "png"];
     MAX_PHOTO_FILE_SIZE := 1048576;
     max_size_mb := "1.0" |}.

Definition demo_asset (i : Z) : Asset :=
  {| asset_id := i; id_interno := i; contract_project_id := 1; element_type_id := 1;
     element_type_nombre := "Barrera"; estado := nuevo; created_at := 0;
     fecha_instalacion := Date 2024 3 7; georeferenciacion := None;
     nombre_foto_codigo_barra := None |}.

(** Asset 1 in the asset table, asset 2 in the conflictive table. *)
Definition demo_world (outcomes : list update_outcome) : world :=
  World [demo_asset 1] [demo_asset 2] ([demo_asset 1], [demo_asset 2]) ∅ ∅ [] outcomes [].

Definition demo_photos : list UploadFile :=
  [Build_UploadFile "a.jpg" "x" None; Build_UploadFile "b.JPG" "y" None].

Definition connection_lost : exn := Exception "OperationalError" "connection lost".

Definition demo_item (i : Z) (conflictive : bool) (ph : UploadFile) : plan_item :=
  plan_for (demo_asset i) conflictive i ph.

End PhotoUploadSpec.

Module AssetReportSpec.
Local Open Scope list_scope.
Local Open Scope nat_scope.
Import Models AssetReport.

Section pattern_spec.

Variable Nd : N → bool.

(** A decimal number: an optional hyphen, one digit or more, a full
    stop, one digit or more. *)
Definition decimal_number (m : list N) : Prop :=
  ∃ sign int_part frac_part,
    m = sign ++ int_part ++ full_stop :: frac_part
    ∧ (sign = [] ∨ sign = [hyphen_minus])
    ∧ int_part ≠ [] ∧ Forall (λ c, Nd c = true) int_part
    ∧ frac_part ≠ [] ∧ Forall (λ c, Nd c = true) frac_part.

(** What the pattern matches at the start of [s], and what follows it:
    the quantifiers being greedy, the longest decimal number that
    starts [s]. *)
Definition matches_at_start (s m rest : list N) : Prop :=
  s = m ++ rest
  ∧ decimal_number m
  ∧ ∀ m' rest', s = m' ++ rest' → decimal_number m' → length m' ≤ length m.

(** What [re.findall] returns on [s]: the matches met scanning [s]
    from left to right, a search starting where the last match ended,
    or one character further where no match starts. *)
Inductive found : list N → list (list N) → Prop :=
| found_end : found [] []
| found_match s m rest ms :
    matches_at_start s m rest → found rest ms → found s (m :: ms)
| found_skip c s ms :
    (∀ m rest, ¬ matches_at_start (c :: s) m rest) → found s ms → found (c :: s) ms.

(** The text holds at least two decimal numbers. *)
Definition parses (georef : option (list N)) : Prop :=
  ∃ g ms, georef = Some g ∧ found g ms ∧ 2 ≤ length ms.

(** [n] of the texts parse. *)
Inductive parse_count : list (option (list N)) → nat → Prop :=
| parse_count_nil : parse_count [] 0
| parse_count_yes g gs n : parses g → parse_count gs n → parse_count (g :: gs) (S n)
| parse_count_no g gs n : ¬ parses g → parse_count gs n → parse_count (g :: gs) n.

End pattern_spec.

(** The georeference texts of the rows of a request, in the order read. *)
Definition georefs (assets : option (list Asset)) (assets_data : option (list asset_dict))
    : list (option (list N)) :=
  (georeferenciacion <$> default [] assets)
  ++ ((λ d, Some (default [] (d_georeferenciacion d))) <$> default [] assets_data).

Fixpoint contains (c : ascii) (s : string) : bool :=
  match s with
  | EmptyString => false
  | String d s' => if decide (d = c) then true else contains c s'
  end.

(** Decimal digits of five scripts: ASCII, Arabic-Indic, Extended
    Arabic-Indic, Devanagari and Fullwidth. *)
Definition five_scripts (c : N) : bool :=
  bool_decide (48 ≤ c ≤ 57)%N || bool_decide (1632 ≤ c ≤ 1641)%N
  || bool_decide (1776 ≤ c ≤ 1785)%N || bool_decide (2406 ≤ c ≤ 2415)%N
  || bool_decide (65296 ≤ c ≤ 65305)%N.

(** The text of 12.5, 3.25 in Arabic-Indic digits. *)
Definition arabic_indic_georef : list N :=
  [1633; 1634; 46; 1637; 44; 32; 1635; 46; 1634; 1637]%N.

(** Four rows: one with coordinates, one with whole numbers only, one
    without a georeference, one with coordinates in Arabic-Indic
    digits. *)
Definition demo_rows : list asset_dict :=
  [ {| d_georeferenciacion := Some (code_points "-30.002523, -71.329657, 159.60m");
       d_id_interno := Some 7%Z; d_elemento := Some "Luminaria" |};
    {| d_georeferenciacion := Some (code_points "-30, -71");
       d_id_interno := Some 8%Z; d_elemento := Some "Poste" |};
    {| d_georeferenciacion := None;
       d_id_interno := Some 9%Z; d_elemento := None |};
    {| d_georeferenciacion := Some arabic_indic_georef;
       d_id_interno := Some 10%Z; d_elemento := Some "Poste" |} ].

(** A float type of two values, for running the report: the sign of the
    number read, written back as a unit. *)
Definition sign_of_string (t : list N) : bool :=
  match t with
  | c :: _ => bool_decide (c = hyphen_minus)
  | [] => false
  end.

Definition sign_text (negative : bool) : string :=
  if negative then "-1.0" else "1.0".

End AssetReportSpec.

Module TaskStoreMoreSpec.
Import TaskStore.

(** A file is expired when the sweep runs at [now]. *)
Definition expired (now : Z) (f : file) : Prop :=
  (st_mtime f < now - REPORT_EXPIRATION_HOURS * 3600)%Z.

Global Instance expired_dec now f : Decision (expired now f).
Proof. unfold expired. apply _. Defined.

(** The pending markers of a directory *)
Definition pending_markers (m : gmap string file) : gmap string file :=
  filter (λ e, ends_with ".pending" e.1 = true) m.

(** A directory with an old pending marker, a fresh completed report
    and an old failed marker, read one hour and forty minutes after the
    old files were written. *)
Definition aged_store : fs :=
  Fs {[ "a.pending" := File 0 ""; "b.xlsx" := File 5000 "xlsx"; "c.failed" := File 10 "boom" ]}
     6000 [].

End TaskStoreMoreSpec.

Module ReportRoutesSpec.
Import TaskStore Models BackgroundReports ReportApi ReportRoutes.

(** The background task of an accepted request, run. *)
Definition run_background_task (c : collaborators) (t : background_task) : M fs unit :=
  generate_excel_report_background c (bg_task_id t) (bg_contract_name t)
    (bg_fecha_desde t) (bg_fecha_hasta t) (bg_include_photos t)
    (bg_element_type t) (bg_asset_status t).

Definition run_installers_background_task (c : collaborators)
    (t : installers_background_task) : M fs unit :=
  generate_installers_excel_report_background c (ibg_task_id t) (ibg_contract_name t)
    (ibg_fecha_desde t) (ibg_fecha_hasta t) (ibg_element_type t) None.

(** The task has left the pending state: its marker is gone and its
    completed file or its failed marker is there. *)
Definition finished (task_id : string) (s : fs) : Prop :=
  files s !! get_report_path task_id PENDING = None
  ∧ (is_Some (files s !! get_report_path task_id COMPLETED)
     ∨ is_Some (files s !! get_report_path task_id FAILED)).

Definition is_HTTPException (e : exn) : Prop :=
  match e with
  | HTTPException _ _ => True
  | Exception _ _ => False
  end.

(** A request for the ninety days from the instant 0, both ends aware. *)
Definition ninety_days_request (seconds_more : Z) : AssetsReportRequest :=
  {| contract_name := "Ruta 5";
     fecha_desde := {| tzinfo := true; timestamp := 0 |};
     fecha_hasta := {| tzinfo := true; timestamp := 90 * 86400 + seconds_more |};
     include_photos := None;
     element_type := None;
     asset_status := None |}.

Definition hhmm (t : Z) : string := pretty t.

(** Without faults a [try] body either ends with the task finished, or
    raises in the state it started in. *)
Definition ends_or_raises (t : string) (body : M fs unit) : Prop :=
  ∀ s0, faults s0 = [] →
    (∃ s1, body s0 = (Ok tt, s1) ∧ finished t s1 ∧ faults s1 = [])
    ∨ (∃ e, body s0 = (Raise e, s0)).

End ReportRoutesSpec.

Module BulkIngestMoreSpec.
Local Open Scope list_scope.
Local Open Scope nat_scope.
Import BulkIngest BulkIngestSpec.

(** Every row of the asset table of [d0] is in that of [d], unchanged. *)
Definition rows_kept (d0 : db) (d : db) : Prop :=
  ∀ k row, asset_table d0 !! k = Some row → asset_table d !! k = Some row.

(** Every row of the asset table of [d] is a row of [d0], or a
    submitted row stored under its [id_interno]. *)
Definition rows_from (now : Z) (assets : list AssetCreate) (d0 d : db) : Prop :=
  ∀ k row, asset_table d !! k = Some row →
    asset_table d0 !! k = Some row
    ∨ ∃ a, a ∈ assets ∧ row = stored now a ∧ k = id_interno a.

(** The summary of a run in which nothing was written. *)
Definition nothing_done (total : nat) : dict :=
  [("created", VInt 0); ("conflictive", VInt 0); ("total", VInt (Z.of_nat total));
   ("failed", VInt 0); ("failed_id_internos", VList [])].

(** The summary of two rows whose only batch fails. *)
Definition create_assets_bulk_summary_example : dict :=
  [("created", VInt 0); ("conflictive", VInt 0); ("total", VInt 2);
   ("failed", VInt 2); ("failed_id_internos", VList [1; 2]%Z)].

End BulkIngestMoreSpec.

Module PhotoUploadMoreSpec.
Local Open Scope list_scope.
Local Open Scope nat_scope.
Import Models PhotoUpload PhotoUploadSpec.

(** The directory the photo of an item is written to. *)
Definition photos_dir_of (conflictive : bool) (w : world) : gmap string string :=
  if conflictive then conflictive_asset_photos_dir w else asset_photos_dir w.

(** Both photo directories are [d1] and [d2]. *)
Definition dirs_are (d1 d2 : gmap string string) (w : world) : Prop :=
  asset_photos_dir w = d1 ∧ conflictive_asset_photos_dir w = d2.

(** [x] is the start of [s]: all of it, or what had been written of it
    when a write was cut short. *)
Definition leading_part (x s : string) : Prop := ∃ n, x = substring 0 n s.

(** What phase 2 may add to the directory of the table [c]: under the
    name planned for an item of the plan, the content of its photo or
    the start of it. *)
Definition added_from (plan : list plan_item) (c : bool) (d d' : gmap string string) : Prop :=
  (∀ name, is_Some (d !! name) → is_Some (d' !! name))
  ∧ ∀ name x, d' !! name = Some x →
      d !! name = Some x
      ∨ ∃ it, it ∈ plan ∧ is_conflictive it = c ∧ plan_photo_name it = name
              ∧ leading_part x (content (photo it)).

(** The directories of [w1] are those of [w] with [x] written under
    the name planned for [item]. *)
Definition wrote (item : plan_item) (x : string) (w w1 : world) : Prop :=
  asset_photos_dir w1
  = (if is_conflictive item then asset_photos_dir w
     else <[plan_photo_name item := x]> (asset_photos_dir w))
  ∧ conflictive_asset_photos_dir w1
    = (if is_conflictive item
       then <[plan_photo_name item := x]> (conflictive_asset_photos_dir w)
       else conflictive_asset_photos_dir w).

Definition session_closed : exn := Exception "InvalidRequestError" "session is closed".

(** A disk that is full when the first photo is saved: its file is
    opened and nothing of the photo reaches it. *)
Definition full_disk_world : world :=
  World [demo_asset 1] [demo_asset 2] ([demo_asset 1], [demo_asset 2]) ∅ ∅
        [Some (AfterOpen 0 "No space left on device")] [] [].

(** A name made of a date, an id and an extension of the allowed list. *)
Definition allowed_name (cfg : config) (name : string) : Prop :=
  ∃ d i ext, name = generate_photo_name d i ext ∧ ext ∈ ALLOWED_EXTENSIONS_LIST cfg.

(** A plan item made for a photo of [photos]. *)
Definition planned_for (photos : list UploadFile) (it : plan_item) : Prop :=
  photo it ∈ photos
  ∧ plan_photo_name it
    = generate_photo_name (fecha_instalacion (asset it)) (id_interno (asset it))
        (extension_of (photo it)).

(** Asset 0 alone in the asset table. *)
Definition zero_world : world :=
  World [demo_asset 0] [] ([demo_asset 0], []) ∅ ∅ [] [] [].

End PhotoUploadMoreSpec.

Module PhotoNameSpec.
Local Open Scope list_scope.
Local Open Scope nat_scope.
Import Models PhotoUpload PhotoUploadSpec.

(** The item is filed under the id of the asset found for it, and its
    photo under the name made from that asset. *)
Definition names_its_asset (it : plan_item) : Prop :=
  plan_id_interno it = id_interno (asset it)
  ∧ plan_photo_name it
    = generate_photo_name (fecha_instalacion (asset it)) (id_interno (asset it))
        (extension_of (photo it)).

(** The ten ASCII digits, of which [pretty] makes its texts. *)
Definition ascii_digit (c : ascii) : bool :=
  bool_decide (48 ≤ nat_of_ascii c ≤ 57).

(** The characters [_escape_xml] replaces. *)
Definition xml_special : list ascii :=
  ["&"; "<"; ">"; AssetReport.double_quote; "'"]%char.

End PhotoNameSpec.

Module AssetQueriesSpec.
Local Open Scope list_scope.
Import Models AssetQueries.

(** The rows [get_assets] counts: those every filter accepts. *)
Definition listed (f : asset_filters) (s : session) : list asset_row :=
  List.filter (and_ (_build_asset_filters f)) (table s).

(** No statement is going to fail. *)
Definition healthy (s : session) : Prop :=
  Forall (λ o, o = None) (statement_failures s).

Definition no_filters : asset_filters :=
  {| f_id_interno := None; f_tag_bim := None;
     f_fecha_instalacion_desde := None; f_fecha_instalacion_hasta := None;
     f_installer_id := None; f_contract_project_id := None;
     f_element_type_id := None; f_macro_location_id := None |}.

Definition demo_row (i : Z) (st : AssetStatus) : asset_row :=
  {| row := {| asset_id := i; id_interno := i; contract_project_id := 1;
               element_type_id := 1; element_type_nombre := "Barrera"; estado := st;
               created_at := i; fecha_instalacion := Date 2024 3 7;
               georeferenciacion := None; nombre_foto_codigo_barra := None |};
     tag_bim := None; installer_id := Some 1%Z; macro_location_id := None |}.

(** Twelve listed assets and a retired one. *)
Definition demo_session (failures : list (option exn)) : session :=
  Session (demo_row 13 retirado :: ((λ i, demo_row (Z.of_nat i) nuevo) <$> seq 1 12))
    failures 0.

Definition demo_refusal : exn := Exception "DBAPIError" "2201X".

End AssetQueriesSpec.

(** * The properties *)

Module TaskStoreFacts.
Import TaskStore TaskStoreSpec.
Arguments get_report_path : simpl never.

Lemma list_ascii_of_string_app (a b : string) :
  list_ascii_of_string (a +:+ b) = (list_ascii_of_string a ++ list_ascii_of_string b)%list.
Proof. induction a as [|c a IH]; simpl; [done|]. by rewrite IH. Qed.

Lemma list_ascii_of_string_inj (a b : string) :
  list_ascii_of_string a = list_ascii_of_string b → a = b.
Proof.
  intros H. rewrite <- (string_of_list_ascii_of_string a), H.
  apply string_of_list_ascii_of_string.
Qed.

Lemma get_report_path_chars (t : string) (st : ReportStatus) :
  list_ascii_of_string (get_report_path t st)
  = (list_ascii_of_string t ++ suffix_chars st)%list.
Proof. destruct st; unfold get_report_path; by rewrite list_ascii_of_string_app. Qed.

Lemma get_report_path_inj (t t' : string) (st st' : ReportStatus) :
  get_report_path t st = get_report_path t' st' → t = t' ∧ st = st'.
Proof.
  intros H. apply (f_equal list_ascii_of_string) in H.
  rewrite !get_report_path_chars in H.
  assert (st = st') as ->.
  { apply (f_equal last) in H.
    destruct st, st'; try done; exfalso; revert H;
      unfold suffix_chars; simpl;
      repeat match goal with
      | |- context [(?l ++ ?a :: ?b :: ?r)%list] =>
          change (l ++ a :: b :: r)%list with (l ++ [a] ++ (b :: r))%list;
          rewrite (app_assoc l [a] (b :: r))
      end;
      rewrite !last_snoc; discriminate. }
  split; [|done].
  apply app_inv_tail in H. by apply list_ascii_of_string_inj.
Qed.

Lemma io_point_cases what s :
  (io_point what s = (Ok tt, Fs (files s) (now s) (tail (faults s))))
  ∨ (io_point what s = (Raise (OSError what), Fs (files s) (now s) (tail (faults s)))
     ∧ faults s ≠ []).
Proof.
  unfold io_point. destruct s as [m t fl]; simpl.
  destruct fl as [|[] fl]; simpl; auto.
Qed.

(** An operation either takes effect, or raises and leaves the files. *)
Lemma exec_instr_cases i s :
  ∃ fl, (faults s = [] → fl = []) ∧
    (exec_instr i s = (Ok tt, Fs (instr_effect i (now s) (files s)) (now s) fl)
     ∨ (∃ e, exec_instr i s = (Raise e, Fs (files s) (now s) fl)) ∧ faults s ≠ []).
Proof.
  destruct i as [p|p|p c|p]; simpl.
  - exists (tail (faults s)). split; [by intros ->|].
    unfold touch. unfold_m.
    destruct (io_point_cases "touch" s) as [-> | [-> ?]]; [left|right; eauto]; done.
  - exists (tail (faults s)). split; [by intros ->|].
    unfold open_w. unfold_m.
    destruct (io_point_cases "open" s) as [-> | [-> ?]]; [left|right; eauto]; done.
  - exists (tail (faults s)). split; [by intros ->|].
    unfold write_all. unfold_m.
    destruct (io_point_cases "write" s) as [-> | [-> ?]]; [left|right; eauto]; done.
  - unfold path_exists, unlink. unfold_m.
    case_bool_decide as Hex.
    + exists (tail (faults s)). split; [by intros ->|].
      destruct (io_point_cases "unlink" s) as [-> | [-> ?]]; [left|right; eauto].
      simpl. destruct Hex as [f ->]. done.
    + exists (faults s). split; [done|]. left.
      rewrite delete_id; [|by apply eq_None_not_Some].
      by destruct s.
Qed.

(** A property of the directory that every operation of [prog] keeps
    holds after [prog], however far it ran. *)
Lemma run_instrs_preserves (P : gmap string file → Prop) prog s :
  Forall (λ i, ∀ t m, P m → P (instr_effect i t m)) prog →
  P (files s) → P (files (run_instrs prog s).2).
Proof.
  revert s. induction prog as [|i prog IH]; intros s Hall HP; [done|].
  inversion Hall as [|? ? Hi Hprog]; subst.
  simpl. unfold_m.
  destruct (exec_instr_cases i s) as (fl & _ & [-> | [[e ->] _]]); simpl; [|done].
  apply IH; [done|]. simpl. by apply Hi.
Qed.

Lemma run_instrs_now prog s : now (run_instrs prog s).2 = now s.
Proof.
  revert s. induction prog as [|i prog IH]; intros s; [done|].
  simpl. unfold_m.
  destruct (exec_instr_cases i s) as (fl & _ & [-> | [[e ->] _]]); simpl; [|done].
  by rewrite IH.
Qed.

(** Without faults every operation takes effect. *)
Lemma run_instrs_no_fault prog s :
  faults s = [] →
  run_instrs prog s
  = (Ok tt, Fs (foldl (λ m i, instr_effect i (now s) m) (files s) prog) (now s) []).
Proof.
  revert s. induction prog as [|i prog IH]; intros s Hf.
  - destruct s; simpl in *; by subst.
  - simpl. unfold_m.
    destruct (exec_instr_cases i s) as (fl & Hfl & [-> | [_ ?]]); [|done].
    rewrite (Hfl Hf). by rewrite IH.
Qed.

(** When [prog] ends without raising, all its operations took effect. *)
Lemma run_instrs_ok prog s s' :
  run_instrs prog s = (Ok tt, s') →
  files s' = foldl (λ m i, instr_effect i (now s) m) (files s) prog.
Proof.
  revert s. induction prog as [|i prog IH]; intros s.
  - simpl. unfold_m. by intros [= <-].
  - simpl. unfold_m.
    destruct (exec_instr_cases i s) as (fl & _ & [-> | [[e ->] _]]); [|done].
    intros H. by apply IH in H.
Qed.

(** The three transitions end in the state their operations leave, and
    answer [true] exactly when none raised. *)
Lemma transition_cases prog s :
  try_except (run_instrs prog;; mret true) (λ _, mret false) s
  = (Ok (match (run_instrs prog s).1 with Ok _ => true | Raise _ => false end),
     (run_instrs prog s).2).
Proof. unfold_m. by destruct (run_instrs prog s) as [[[]|e] s']. Qed.

(** The status depends on which of the three files exist, the
    completed file first, then the pending marker, then the failed one. *)
Lemma status_of_files t s :
  status_of t s =
    if bool_decide (is_Some (files s !! get_report_path t COMPLETED)) then Some COMPLETED
    else if bool_decide (is_Some (files s !! get_report_path t PENDING)) then Some PENDING
    else if bool_decide (is_Some (files s !! get_report_path t FAILED)) then Some FAILED
    else None.
Proof.
  unfold status_of, get_report_status, path_exists. unfold_m.
  repeat (case_bool_decide; [done|]).
  destruct (bool_decide (is_Some (files s !! get_report_path t FAILED))); [|done].
  unfold read_text. unfold_m.
  destruct (io_point_cases "read" s) as [-> | [-> ?]]; [|done].
  simpl. by destruct (files s !! get_report_path t FAILED).
Qed.

Lemma get_report_status_state t s :
  files (get_report_status t s).2 = files s ∧ now (get_report_status t s).2 = now s.
Proof.
  unfold get_report_status, path_exists. unfold_m.
  repeat (case_bool_decide; [done|]).
  destruct (bool_decide (is_Some (files s !! get_report_path t FAILED))); [|done].
  unfold read_text. unfold_m.
  destruct (io_point_cases "read" s) as [-> | [-> ?]]; [|done].
  simpl. by destruct (files s !! get_report_path t FAILED).
Qed.

(** The sweep only deletes. *)
Lemma cleanup_file_subseteq exp n e s :
  files (cleanup_file exp n e s).2 ⊆ files s.
Proof.
  unfold cleanup_file. case_bool_decide; [|done].
  unfold unlink. unfold_m.
  destruct (io_point_cases "unlink" s) as [-> | [-> ?]]; [|done].
  simpl. destruct (files s !! e.1) eqn:E; simpl; [|done].
  apply delete_subseteq.
Qed.

Lemma cleanup_file_ok exp n e s : ∃ n', (cleanup_file exp n e s).1 = Ok n'.
Proof.
  unfold cleanup_file. case_bool_decide; [|by eexists].
  unfold unlink. unfold_m.
  destruct (io_point_cases "unlink" s) as [-> | [-> ?]]; [|by eexists].
  simpl. destruct (files s !! e.1) eqn:E; simpl; by eexists.
Qed.

Lemma cleanup_fold_subseteq exp l n s :
  files (foldM (cleanup_file exp) n l s).2 ⊆ files s
  ∧ ∃ n', (foldM (cleanup_file exp) n l s).1 = Ok n'.
Proof.
  revert n s. induction l as [|e l IH]; intros n s; simpl; [by eauto|].
  unfold_m.
  pose proof (cleanup_file_subseteq exp n e s) as Hsub.
  destruct (cleanup_file_ok exp n e s) as [n' Hn'].
  destruct (cleanup_file exp n e s) as [[n''|?] s1]; simpl in *; [|done].
  destruct (IH n'' s1) as [H1 H2]. split; [|done].
  by etrans.
Qed.

(** The sweep raises when its directory cannot be made, and only then. *)
Lemma cleanup_old_reports_cases s :
  (cleanup_old_reports s
   = (Raise (OSError "mkdir"), Fs (files s) (now s) (tail (faults s)))
   ∧ head (faults s) = Some true)
  ∨ (cleanup_old_reports s
     = foldM (cleanup_file (now s - REPORT_EXPIRATION_HOURS * 3600)) 0%nat
         (map_to_list (files s)) (Fs (files s) (now s) (tail (faults s)))
     ∧ head (faults s) ≠ Some true).
Proof.
  unfold cleanup_old_reports, ensure_temp_reports_dir, io_point. unfold_m.
  destruct s as [m t [|[] fl]]; simpl; auto.
Qed.

Lemma cleanup_old_reports_subseteq s : files (cleanup_old_reports s).2 ⊆ files s.
Proof.
  destruct (cleanup_old_reports_cases s) as [[-> _]|[-> _]]; [done|].
  apply (cleanup_fold_subseteq _ _ _ (Fs (files s) (now s) (tail (faults s)))).
Qed.

Lemma cleanup_old_reports_ok s :
  head (faults s) ≠ Some true → ∃ n, (cleanup_old_reports s).1 = Ok n.
Proof.
  intros Hh. destruct (cleanup_old_reports_cases s) as [[_ ?]|[-> _]]; [done|].
  apply cleanup_fold_subseteq.
Qed.

Lemma can_start_state s : (can_start_new_report s).2 = s.
Proof.
  unfold can_start_new_report, count_pending_reports. unfold_m.
  by case_bool_decide.
Qed.

Lemma get_report_file_path_state t s : (get_report_file_path t s).2 = s.
Proof.
  unfold get_report_file_path, path_exists. unfold_m. by case_bool_decide.
Qed.

Lemma run_call_absent p c s :
  creates c ≠ Some p → files s !! p = None → files (run_call c s) !! p = None.
Proof.
  intros Hc Hp. destruct c as [t|t x|t x|t| |t| |dt]; cbn [run_call creates] in *.
  - unfold create_pending_report. rewrite transition_cases. cbn [snd].
    apply (run_instrs_preserves (λ m, m !! p = None)); [|done].
    repeat constructor. intros ? m Hm. simpl. rewrite lookup_insert_ne; [done|congruence].
  - unfold mark_report_completed. rewrite transition_cases. cbn [snd].
    apply (run_instrs_preserves (λ m, m !! p = None)); [|done].
    repeat constructor; intros ? m Hm; simpl;
      try (rewrite lookup_insert_ne; [done|congruence]).
    by apply lookup_delete_None; right.
  - unfold mark_report_failed. rewrite transition_cases. cbn [snd].
    apply (run_instrs_preserves (λ m, m !! p = None)); [|done].
    repeat constructor; intros ? m Hm; simpl;
      try (rewrite lookup_insert_ne; [done|congruence]).
    by apply lookup_delete_None; right.
  - by rewrite (proj1 (get_report_status_state t s)).
  - by rewrite can_start_state.
  - by rewrite get_report_file_path_state.
  - eapply lookup_weaken_None; [done|]. apply cleanup_old_reports_subseteq.
  - done.
Qed.

Lemma run_call_present p c s :
  is_sweep c = false → unlinks c ≠ Some p →
  is_Some (files s !! p) → is_Some (files (run_call c s) !! p).
Proof.
  intros Hs Hc Hp.
  destruct c as [t|t x|t x|t| |t| |dt]; cbn [run_call unlinks is_sweep] in *; try done.
  - unfold create_pending_report. rewrite transition_cases. cbn [snd].
    apply (run_instrs_preserves (λ m, is_Some (m !! p))); [|done].
    repeat constructor. intros ? m Hm. simpl.
    rewrite lookup_insert_is_Some. destruct (decide (get_report_path t PENDING = p)); auto.
  - unfold mark_report_completed. rewrite transition_cases. cbn [snd].
    apply (run_instrs_preserves (λ m, is_Some (m !! p))); [|done].
    repeat constructor; intros ? m Hm; simpl;
      try (rewrite lookup_insert_is_Some;
           destruct (decide (get_report_path t COMPLETED = p)); by auto).
    rewrite lookup_delete_is_Some. split; [congruence|done].
  - unfold mark_report_failed. rewrite transition_cases. cbn [snd].
    apply (run_instrs_preserves (λ m, is_Some (m !! p))); [|done].
    repeat constructor; intros ? m Hm; simpl;
      try (rewrite lookup_insert_is_Some;
           destruct (decide (get_report_path t FAILED = p)); by auto).
    rewrite lookup_delete_is_Some. split; [congruence|done].
  - by rewrite (proj1 (get_report_status_state t s)).
  - by rewrite can_start_state.
  - by rewrite get_report_file_path_state.
Qed.

Lemma run_calls_absent p cs s :
  Forall (λ c, creates c ≠ Some p) cs →
  files s !! p = None → files (run_calls cs s) !! p = None.
Proof.
  revert s. induction cs as [|c cs IH]; intros s Hall Hp; [done|].
  inversion Hall; subst. simpl. apply IH; [done|]. by apply run_call_absent.
Qed.

Lemma run_calls_present p cs s :
  Forall (λ c, is_sweep c = false ∧ unlinks c ≠ Some p) cs →
  is_Some (files s !! p) → is_Some (files (run_calls cs s) !! p).
Proof.
  revert s. induction cs as [|c cs IH]; intros s Hall Hp; [done|].
  inversion Hall as [|? ? [? ?] ?]; subst. simpl. apply IH; [done|].
  by apply run_call_present.
Qed.

Lemma creates_path t st c :
  creates c = Some (get_report_path t st) →
  match st with
  | PENDING => submits t c = true
  | COMPLETED => completes t c = true
  | FAILED => fails t c = true
  end.
Proof.
  destruct c; simpl; try done; intros [= H]; apply get_report_path_inj in H as [-> <-];
    by apply bool_decide_eq_true.
Qed.

Lemma unlinks_path t st c :
  unlinks c = Some (get_report_path t st) →
  st = PENDING ∧ (completes t c = true ∨ fails t c = true).
Proof.
  destruct c; simpl; try done; intros [= H]; apply get_report_path_inj in H as [-> <-];
    (split; [done|]); [left|right]; by apply bool_decide_eq_true.
Qed.

Lemma writes_task_creates t c :
  writes_task c ≠ Some t → ∀ st, creates c ≠ Some (get_report_path t st).
Proof.
  intros H st Hc. apply H. destruct c; simpl in *; try done;
    injection Hc as Hc; apply get_report_path_inj in Hc as [-> _]; done.
Qed.

(** A transition that answers [true] has run all its file operations. *)
Lemma transition_true prog s s' :
  try_except (run_instrs prog;; mret true) (λ _, mret false) s = (Ok true, s') →
  files s' = foldl (λ m i, instr_effect i (now s) m) (files s) prog.
Proof.
  rewrite transition_cases. destruct (run_instrs prog s) as [[[]|e] s1] eqn:E; simpl.
  - intros [= <-]. by apply run_instrs_ok.
  - discriminate.
Qed.

(** C4 (as amended): the life of a task's status. A task none of whose
    files exist has status [None], and keeps it under calls for other
    tasks; after a successful submit of a task without completed file
    the status is pending, and stays so under calls other than the
    sweep and a complete or fail of the task; once a complete has
    succeeded the status is completed under every call but the sweep;
    once a fail has succeeded (no completed file being there) the status
    is failed under every call other than the sweep, a complete of the
    task and a new submit of the task. *)
Theorem task_status_lifecycle (t : string) :
  (∀ s cs,
     (∀ st, files s !! get_report_path t st = None) →
     Forall (λ c, writes_task c ≠ Some t) cs →
     status_of t (run_calls cs s) = None)
  ∧ (∀ s s' cs,
     files s !! get_report_path t COMPLETED = None →
     create_pending_report t s = (Ok true, s') →
     Forall (λ c, is_sweep c = false ∧ completes t c = false ∧ fails t c = false) cs →
     status_of t (run_calls cs s') = Some PENDING)
  ∧ (∀ content s s' cs,
     mark_report_completed t content s = (Ok true, s') →
     Forall (λ c, is_sweep c = false) cs →
     status_of t (run_calls cs s') = Some COMPLETED)
  ∧ (∀ msg s s' cs,
     files s !! get_report_path t COMPLETED = None →
     mark_report_failed t msg s = (Ok true, s') →
     Forall (λ c, is_sweep c = false ∧ completes t c = false ∧ submits t c = false) cs →
     status_of t (run_calls cs s') = Some FAILED).
Proof.
  repeat split.
  - intros s cs Hnone Hcs. rewrite status_of_files.
    rewrite !bool_decide_eq_false_2; [done|..].
    all: rewrite (run_calls_absent _ cs s); [by intros [? ?]| |done].
    all: eapply Forall_impl; [exact Hcs|]; intros c Hc; by apply writes_task_creates.
  - intros s s' cs Hc Hsub Hcs. apply transition_true in Hsub. simpl in Hsub.
    rewrite status_of_files.
    rewrite bool_decide_eq_false_2, bool_decide_eq_true_2; [done|..].
    + apply run_calls_present.
      * eapply Forall_impl; [exact Hcs|]. intros c (? & Hco & Hfa). split; [done|].
        intros Hu. apply unlinks_path in Hu as [_ [?|?]]; congruence.
      * rewrite Hsub. rewrite lookup_insert_eq. by eexists.
    + rewrite (run_calls_absent _ cs s'); [by intros [? ?]| |].
      * eapply Forall_impl; [exact Hcs|]. intros c (? & Hco & Hfa) Hcr.
        apply (creates_path t COMPLETED) in Hcr. congruence.
      * rewrite Hsub. rewrite lookup_insert_ne; [done|].
        intros H. by apply get_report_path_inj in H as [_ ?].
  - intros content s s' cs Hcom Hcs. apply transition_true in Hcom. simpl in Hcom.
    rewrite status_of_files. rewrite bool_decide_eq_true_2; [done|].
    apply run_calls_present.
    + eapply Forall_impl; [exact Hcs|]. intros c ?. split; [done|].
      intros Hu. by apply unlinks_path in Hu as [? _].
    + rewrite Hcom. rewrite lookup_delete_ne, lookup_insert_eq; [by eexists|].
      intros H. by apply get_report_path_inj in H as [_ ?].
  - intros msg s s' cs Hc Hfail Hcs. apply transition_true in Hfail. simpl in Hfail.
    rewrite status_of_files.
    rewrite bool_decide_eq_false_2, bool_decide_eq_false_2, bool_decide_eq_true_2; [done|..].
    + apply run_calls_present.
      * eapply Forall_impl; [exact Hcs|]. intros c (? & ? & ?). split; [done|].
        intros Hu. by apply unlinks_path in Hu as [? _].
      * rewrite Hfail. rewrite lookup_delete_ne, lookup_insert_eq; [by eexists|].
        intros H. by apply get_report_path_inj in H as [_ ?].
    + rewrite (run_calls_absent _ cs s'); [by intros [? ?]| |].
      * eapply Forall_impl; [exact Hcs|]. intros c (? & ? & ?) Hcr.
        apply (creates_path t PENDING) in Hcr. congruence.
      * rewrite Hfail. apply lookup_delete_eq.
    + rewrite (run_calls_absent _ cs s'); [by intros [? ?]| |].
      * eapply Forall_impl; [exact Hcs|]. intros c (? & ? & ?) Hcr.
        apply (creates_path t COMPLETED) in Hcr. congruence.
      * rewrite Hfail. rewrite lookup_delete_ne, !lookup_insert_ne; [done|..].
        all: intros H; by apply get_report_path_inj in H as [_ ?].
Qed.

(** However [prog] ends, the directory is the one left by the
    operations that took effect, a prefix of [prog]. *)
Lemma run_instrs_prefix prog s :
  ∃ k, (k ≤ length prog)%nat
       ∧ files (run_instrs prog s).2
         = foldl (λ m i, instr_effect i (now s) m) (files s) (take k prog).
Proof.
  revert s. induction prog as [|i prog IH]; intros s.
  - exists 0. by split.
  - simpl. unfold_m.
    destruct (exec_instr_cases i s) as (fl & _ & [-> | [[e ->] _]]).
    + destruct (IH (Fs (instr_effect i (now s) (files s)) (now s) fl)) as (k & Hk & ->).
      exists (S k). split; [simpl; lia|done].
    + exists 0. split; [lia|done].
Qed.

Lemma states_during_prefix prog s s' :
  s' ∈ states_during prog s →
  ∃ k, (k ≤ length prog)%nat
       ∧ files s' = foldl (λ m i, instr_effect i (now s) m) (files s) (take k prog).
Proof.
  unfold states_during. intros (j & -> & Hj)%list_elem_of_fmap.
  apply elem_of_seq in Hj.
  destruct (run_instrs_prefix (take j prog) s) as (k & Hk & ->).
  rewrite length_take in Hk.
  exists k. split; [lia|]. rewrite take_take. do 2 f_equal. lia.
Qed.

(** What a reader finds of a task: its files, and the status they give. *)
Lemma task_view t s (p c f : bool) :
  bool_decide (is_Some (files s !! get_report_path t PENDING)) = p →
  bool_decide (is_Some (files s !! get_report_path t COMPLETED)) = c →
  bool_decide (is_Some (files s !! get_report_path t FAILED)) = f →
  existing_files t s
  = List.filter (λ st, match st with PENDING => p | COMPLETED => c | FAILED => f end)
      [PENDING; COMPLETED; FAILED]
  ∧ status_of t s
    = (if c then Some COMPLETED else if p then Some PENDING
       else if f then Some FAILED else None).
Proof. intros <- <- <-. split; [done|apply status_of_files]. Qed.

(** The files of a task after the first [k] operations of a complete
    and of a fail, for a task that has its pending marker only. *)
Lemma complete_view t content m now k :
  is_Some (m !! get_report_path t PENDING) →
  m !! get_report_path t COMPLETED = None →
  m !! get_report_path t FAILED = None →
  let m' := foldl (λ m i, instr_effect i now m) m
              (take k (mark_report_completed_steps t content)) in
  bool_decide (is_Some (m' !! get_report_path t PENDING)) = bool_decide (k < 3)%nat
  ∧ bool_decide (is_Some (m' !! get_report_path t COMPLETED)) = bool_decide (0 < k)%nat
  ∧ bool_decide (is_Some (m' !! get_report_path t FAILED)) = false.
Proof.
  intros Hp Hc Hf.
  assert (Hne : ∀ st st', st ≠ st' → get_report_path t st ≠ get_report_path t st').
  { intros st st' Hst H. by apply get_report_path_inj in H as [_ ?]. }
  destruct k as [|[|[|k]]].
  - simpl. rewrite Hc, Hf. by rewrite bool_decide_eq_true_2.
  - simpl. rewrite lookup_insert_eq, !lookup_insert_ne, Hf by (by apply Hne).
    by rewrite bool_decide_eq_true_2.
  - simpl. rewrite lookup_insert_eq, !lookup_insert_ne, Hf by (by apply Hne).
    by rewrite bool_decide_eq_true_2.
  - rewrite take_ge by (simpl; lia). simpl. rewrite lookup_delete_eq.
    rewrite !lookup_delete_ne, lookup_insert_eq, !lookup_insert_ne, Hf by (by apply Hne).
    done.
Qed.

Lemma fail_view t msg m now k :
  is_Some (m !! get_report_path t PENDING) →
  m !! get_report_path t COMPLETED = None →
  m !! get_report_path t FAILED = None →
  let m' := foldl (λ m i, instr_effect i now m) m
              (take k (mark_report_failed_steps t msg)) in
  bool_decide (is_Some (m' !! get_report_path t PENDING)) = bool_decide (k < 3)%nat
  ∧ bool_decide (is_Some (m' !! get_report_path t COMPLETED)) = false
  ∧ bool_decide (is_Some (m' !! get_report_path t FAILED)) = bool_decide (0 < k)%nat.
Proof.
  intros Hp Hc Hf.
  assert (Hne : ∀ st st', st ≠ st' → get_report_path t st ≠ get_report_path t st').
  { intros st st' Hst H. by apply get_report_path_inj in H as [_ ?]. }
  destruct k as [|[|[|k]]].
  - simpl. rewrite Hc, Hf. by rewrite bool_decide_eq_true_2.
  - simpl. rewrite lookup_insert_eq, !lookup_insert_ne, Hc by (by apply Hne).
    by rewrite bool_decide_eq_true_2.
  - simpl. rewrite lookup_insert_eq, !lookup_insert_ne, Hc by (by apply Hne).
    by rewrite bool_decide_eq_true_2.
  - rewrite take_ge by (simpl; lia). simpl. rewrite lookup_delete_eq.
    rewrite !lookup_delete_ne, lookup_insert_eq, !lookup_insert_ne, Hc by (by apply Hne).
    done.
Qed.

(** Without faults the states of a run are those after each prefix. *)
Lemma states_during_no_fault prog s :
  faults s = [] →
  states_during prog s
  = (λ k, Fs (foldl (λ m i, instr_effect i (now s) m) (files s) (take k prog)) (now s) [])
      <$> seq 0 (S (length prog)).
Proof.
  intros Hf. unfold states_during. apply list_fmap_ext. intros _ k _.
  by rewrite run_instrs_no_fault.
Qed.

(** C2 (as amended): a transition writes the new record first and
    deletes the pending marker last. For a task that has its pending
    marker only, a reader finds at any point of a complete the marker
    alone (status pending), the marker and the completed file (status
    completed), or the completed file alone; at any point of a fail the
    marker alone, the marker and the failed file (status still pending,
    the marker being looked up before the failed file), or the failed
    file alone (status failed); this whatever file operation raises.
    Without faults the transition goes through these views in this
    order, both files existing after the open and after the write, and
    ends with the new record as the only file of the task. *)
Theorem transition_intermediate_states (t : string) (s : fs) :
  is_Some (files s !! get_report_path t PENDING) →
  files s !! get_report_path t COMPLETED = None →
  files s !! get_report_path t FAILED = None →
  (∀ content,
     Forall (λ s', (existing_files t s' = [PENDING] ∧ status_of t s' = Some PENDING)
                   ∨ (existing_files t s' = [PENDING; COMPLETED]
                      ∧ status_of t s' = Some COMPLETED)
                   ∨ (existing_files t s' = [COMPLETED] ∧ status_of t s' = Some COMPLETED))
       (states_during (mark_report_completed_steps t content) s)
     ∧ (faults s = [] →
        existing_files t <$> states_during (mark_report_completed_steps t content) s
        = [[PENDING]; [PENDING; COMPLETED]; [PENDING; COMPLETED]; [COMPLETED]]
        ∧ status_of t <$> states_during (mark_report_completed_steps t content) s
          = [Some PENDING; Some COMPLETED; Some COMPLETED; Some COMPLETED]
        ∧ existing_files t (mark_report_completed t content s).2 = [COMPLETED]))
  ∧ (∀ msg,
     Forall (λ s', (existing_files t s' = [PENDING] ∧ status_of t s' = Some PENDING)
                   ∨ (existing_files t s' = [PENDING; FAILED]
                      ∧ status_of t s' = Some PENDING)
                   ∨ (existing_files t s' = [FAILED] ∧ status_of t s' = Some FAILED))
       (states_during (mark_report_failed_steps t msg) s)
     ∧ (faults s = [] →
        existing_files t <$> states_during (mark_report_failed_steps t msg) s
        = [[PENDING]; [PENDING; FAILED]; [PENDING; FAILED]; [FAILED]]
        ∧ status_of t <$> states_during (mark_report_failed_steps t msg) s
          = [Some PENDING; Some PENDING; Some PENDING; Some FAILED]
        ∧ existing_files t (mark_report_failed t msg s).2 = [FAILED])).
Proof.
  intros Hp Hc Hf.
  assert (Hcv : ∀ content k s',
            files s' = foldl (λ m i, instr_effect i (now s) m) (files s)
                         (take k (mark_report_completed_steps t content)) →
            existing_files t s'
            = List.filter (λ st, match st with
                                 | PENDING => bool_decide (k < 3)%nat
                                 | COMPLETED => bool_decide (0 < k)%nat
                                 | FAILED => false
                                 end) [PENDING; COMPLETED; FAILED]
            ∧ status_of t s'
              = (if bool_decide (0 < k)%nat then Some COMPLETED
                 else if bool_decide (k < 3)%nat then Some PENDING else None)).
  { intros content k s' Hs'.
    destruct (complete_view t content (files s) (now s) k Hp Hc Hf) as (H1 & H2 & H3).
    rewrite <- Hs' in H1, H2, H3.
    destruct (task_view t s' _ _ _ H1 H2 H3) as [-> ->]. split; [done|].
    by repeat case_bool_decide. }
  assert (Hfv : ∀ msg k s',
            files s' = foldl (λ m i, instr_effect i (now s) m) (files s)
                         (take k (mark_report_failed_steps t msg)) →
            existing_files t s'
            = List.filter (λ st, match st with
                                 | PENDING => bool_decide (k < 3)%nat
                                 | COMPLETED => false
                                 | FAILED => bool_decide (0 < k)%nat
                                 end) [PENDING; COMPLETED; FAILED]
            ∧ status_of t s'
              = (if bool_decide (k < 3)%nat then Some PENDING
                 else if bool_decide (0 < k)%nat then Some FAILED else None)).
  { intros msg k s' Hs'.
    destruct (fail_view t msg (files s) (now s) k Hp Hc Hf) as (H1 & H2 & H3).
    rewrite <- Hs' in H1, H2, H3.
    by destruct (task_view t s' _ _ _ H1 H2 H3) as [-> ->]. }
  split.
  - intros content. split.
    + apply Forall_forall. intros s' (k & Hk & Hs')%states_during_prefix.
      destruct (Hcv content k s' Hs') as [-> ->]. simpl in Hk.
      destruct k as [|[|[|[|k]]]]; [| | | |lia]; simpl; auto.
    + intros Hfl. rewrite states_during_no_fault by done. split; [|split].
      * rewrite <- list_fmap_compose.
        etransitivity;
          [apply list_fmap_ext; intros _ k _;
           exact (proj1 (Hcv content k (Fs _ (now s) []) eq_refl))|done].
      * rewrite <- list_fmap_compose.
        etransitivity;
          [apply list_fmap_ext; intros _ k _;
           exact (proj2 (Hcv content k (Fs _ (now s) []) eq_refl))|done].
      * unfold mark_report_completed. rewrite transition_cases, run_instrs_no_fault by done.
        cbn [snd].
        by destruct (Hcv content 3 (Fs (foldl (λ m i, instr_effect i (now s) m) (files s)
                                          (mark_report_completed_steps t content))
                                      (now s) []) eq_refl) as [-> _].
  - intros msg. split.
    + apply Forall_forall. intros s' (k & Hk & Hs')%states_during_prefix.
      destruct (Hfv msg k s' Hs') as [-> ->]. simpl in Hk.
      destruct k as [|[|[|[|k]]]]; [| | | |lia]; simpl; auto.
    + intros Hfl. rewrite states_during_no_fault by done. split; [|split].
      * rewrite <- list_fmap_compose.
        etransitivity;
          [apply list_fmap_ext; intros _ k _;
           exact (proj1 (Hfv msg k (Fs _ (now s) []) eq_refl))|done].
      * rewrite <- list_fmap_compose.
        etransitivity;
          [apply list_fmap_ext; intros _ k _;
           exact (proj2 (Hfv msg k (Fs _ (now s) []) eq_refl))|done].
      * unfold mark_report_failed. rewrite transition_cases, run_instrs_no_fault by done.
        cbn [snd].
        by destruct (Hfv msg 3 (Fs (foldl (λ m i, instr_effect i (now s) m) (files s)
                                      (mark_report_failed_steps t msg))
                                  (now s) []) eq_refl) as [-> _].
Qed.

(** C2, counterexample: midway through a complete, the pending marker
    and the completed file of the task both exist. *)
Lemma complete_has_both_files_midway :
  existing_files "t1" demo_store = [PENDING]
  ∧ ∃ s', s' ∈ states_during (mark_report_completed_steps "t1" "xlsx") demo_store
          ∧ existing_files "t1" s' = [PENDING; COMPLETED].
Proof.
  split; [by vm_compute|].
  exists (run_instrs (take 1 (mark_report_completed_steps "t1" "xlsx")) demo_store).2.
  split; [|by vm_compute].
  unfold states_during. apply list_elem_of_fmap. exists 1. split; [done|].
  apply elem_of_seq. simpl. lia.
Qed.

(** C2, for the task of [demo_store]: the views and the statuses read
    during a complete and during a fail. *)
Lemma transition_intermediate_states_witness :
  existing_files "t1" <$> states_during (mark_report_completed_steps "t1" "xlsx") demo_store
  = [[PENDING]; [PENDING; COMPLETED]; [PENDING; COMPLETED]; [COMPLETED]]
  ∧ status_of "t1" <$> states_during (mark_report_completed_steps "t1" "xlsx") demo_store
    = [Some PENDING; Some COMPLETED; Some COMPLETED; Some COMPLETED]
  ∧ existing_files "t1" <$> states_during (mark_report_failed_steps "t1" "boom") demo_store
    = [[PENDING]; [PENDING; FAILED]; [PENDING; FAILED]; [FAILED]]
  ∧ status_of "t1" <$> states_during (mark_report_failed_steps "t1" "boom") demo_store
    = [Some PENDING; Some PENDING; Some PENDING; Some FAILED].
Proof.
  destruct (transition_intermediate_states "t1" demo_store) as [Hc Hf].
  - vm_compute. by eexists.
  - by vm_compute.
  - by vm_compute.
  - destruct (Hc "xlsx") as [_ Hc']. destruct (Hf "boom") as [_ Hf'].
    destruct (Hc' eq_refl) as (H1 & H2 & _). destruct (Hf' eq_refl) as (H3 & H4 & _).
    exact (conj H1 (conj H2 (conj H3 H4))).
Defined.

(** C4, counterexample: after a fail that succeeded, a complete of the
    same task, which is not the sweep, changes the status from failed
    to completed. *)
Lemma failed_status_is_not_permanent :
  ∃ s', files demo_store !! get_report_path "t1" COMPLETED = None
        ∧ mark_report_failed "t1" "boom" demo_store = (Ok true, s')
        ∧ status_of "t1" s' = Some FAILED
        ∧ is_sweep (Complete "t1" "xlsx") = false
        ∧ status_of "t1" (run_calls [Complete "t1" "xlsx"] s') = Some COMPLETED.
Proof.
  eexists. split; [by vm_compute|]. split; [by vm_compute|]. by vm_compute.
Qed.

Lemma task_status_lifecycle_witness :
  status_of "t1" (run_calls [Submit "t2"; Sweep; Fail "t2" "boom"] (Fs ∅ 0 [])) = None
  ∧ status_of "t1" (run_calls [Status "t1"; Submit "t2"; Wait 5]
                      (create_pending_report "t1" (Fs ∅ 0 [])).2) = Some PENDING
  ∧ status_of "t1" (run_calls [Fail "t1" "late"; Submit "t1"]
                      (mark_report_completed "t1" "xlsx" demo_store).2) = Some COMPLETED
  ∧ status_of "t1" (run_calls [Fail "t1" "again"; Complete "t2" "xlsx"]
                      (mark_report_failed "t1" "boom" demo_store).2) = Some FAILED.
Proof.
  destruct (task_status_lifecycle "t1") as (H1 & H2 & H3 & H4).
  split; [|split; [|split]].
  - apply H1; [intros []; by vm_compute|]. repeat constructor; by vm_compute.
  - apply (H2 (Fs ∅ 0 [])); [by vm_compute|by vm_compute|].
    repeat constructor; by vm_compute.
  - apply (H3 "xlsx" demo_store); [by vm_compute|]. repeat constructor.
  - apply (H4 "boom" demo_store); [by vm_compute|by vm_compute|].
    repeat constructor; by vm_compute.
Defined.

End TaskStoreFacts.

Module ReportFacts.
Import TaskStore TaskStoreSpec TaskStoreFacts.
Import Models BackgroundReports ReportApi ReportSpec.


Lemma count_pending_reports_total s :
  ∃ n, count_pending_reports s = (Ok n, s).
Proof. unfold count_pending_reports. unfold_m. by eexists. Qed.

(** The glob [*.pending] matches exactly the pending markers. *)
Lemma ends_with_pending_marker (name : string) :
  ends_with ".pending" name = true ↔ ∃ t, name = get_report_path t PENDING.
Proof.
  unfold ends_with. rewrite bool_decide_eq_true. split.
  - intros [k Hk]. exists (string_of_list_ascii k).
    apply list_ascii_of_string_inj.
    by rewrite get_report_path_chars, list_ascii_of_string_of_list_ascii.
  - intros [t ->]. rewrite get_report_path_chars. by apply suffix_app_r.
Qed.

Local Instance pending_path_inj : Inj (=) (=) (λ t, get_report_path t PENDING).
Proof. intros t1 t2 H. by apply get_report_path_inj in H as [? _]. Qed.

(** The names that [glob("*.pending")] lists. *)
Lemma pending_names s :
  let names := (filter (λ e, ends_with ".pending" e.1 = true) (map_to_list (files s))).*1 in
  NoDup names
  ∧ ∀ p, p ∈ names ↔ is_Some (files s !! p) ∧ ends_with ".pending" p = true.
Proof.
  intros names. split.
  - eapply sublist_NoDup; [apply (NoDup_fst_map_to_list (files s))|].
    apply fmap_sublist, sublist_filter.
  - intros p. unfold names. rewrite list_elem_of_fmap. split.
    + intros ([p' f] & -> & [Hp Hf%elem_of_map_to_list]%list_elem_of_filter).
      simpl in *. split; [by exists f|done].
    + intros [[f Hf] Hp]. exists (p, f). split; [done|].
      apply list_elem_of_filter. split; [done|]. by apply elem_of_map_to_list.
Qed.

Lemma pending_names_of_tasks (names : list string) :
  Forall (λ p, ∃ t, p = get_report_path t PENDING) names →
  ∃ tasks, names = (λ t, get_report_path t PENDING) <$> tasks.
Proof.
  induction 1 as [|p names [t ->] _ [tasks ->]]; [by exists []|by exists (t :: tasks)].
Qed.

(** Every directory has its list of pending tasks. *)
Lemma pending_tasks_exist s : ∃ tasks, pending_tasks s tasks.
Proof.
  destruct (pending_names s) as [Hnd Hin].
  destruct (pending_names_of_tasks
              (filter (λ e, ends_with ".pending" e.1 = true) (map_to_list (files s))).*1)
    as [tasks Htasks].
  { apply Forall_forall. intros p [_ Hp]%Hin. by apply ends_with_pending_marker. }
  rewrite Htasks in Hnd, Hin. exists tasks. split.
  - by apply NoDup_fmap_1 in Hnd.
  - intros t. rewrite <- (list_elem_of_fmap_inj (λ t, get_report_path t PENDING)).
    rewrite Hin. split; [by intros [? _]|]. intros Hs. split; [done|].
    apply ends_with_pending_marker. by exists t.
Qed.






(** The transitions never raise: they answer [true] or [false]. *)
Lemma mark_report_failed_total t msg s :
  ∃ b, mark_report_failed t msg s = (Ok b, (mark_report_failed t msg s).2).
Proof. unfold mark_report_failed. rewrite transition_cases. by eexists. Qed.

Lemma mark_report_completed_total t content s :
  ∃ b, mark_report_completed t content s = (Ok b, (mark_report_completed t content s).2).
Proof. unfold mark_report_completed. rewrite transition_cases. by eexists. Qed.


(** What follows the [try] of both orchestrators, once the sweep has
    returned: the handler turns an exception of the body into a call
    of [mark_report_failed]. *)
Lemma guarded_body_cases (body : M fs unit) task_id s :
  head (faults s) ≠ Some true →
  (∃ s0 n,
     cleanup_old_reports s = (Ok n, s0) ∧
     ((∃ s1, body s0 = (Ok tt, s1)
             ∧ (cleanup_old_reports;;
                try_except body
                  (λ e, mark_report_failed task_id (internal_error e);; mret tt)) s
               = (Ok tt, s1))
      ∨ (∃ e s1, body s0 = (Raise e, s1)
                 ∧ (cleanup_old_reports;;
                    try_except body
                      (λ e, mark_report_failed task_id (internal_error e);; mret tt)) s
                   = (Ok tt, (mark_report_failed task_id (internal_error e) s1).2)))).
Proof.
  intros Hs. destruct (cleanup_old_reports_ok s Hs) as [n Hn].
  destruct (cleanup_old_reports s) as [r s0] eqn:Hc. simpl in Hn. subst r.
  exists s0, n. split; [done|].
  unfold_m. rewrite Hc.
  destruct (body s0) as [[[]|e] s1] eqn:Hb.
  - left. by exists s1.
  - right. exists e, s1. split; [done|].
    by destruct (mark_report_failed_total task_id (internal_error e) s1) as [b ->].
Qed.


Lemma guarded_body_raise (body : M fs unit) task_id s e s1 :
  head (faults s) ≠ Some true →
  body (cleanup_old_reports s).2 = (Raise e, s1) →
  (cleanup_old_reports;;
   try_except body (λ e, mark_report_failed task_id (internal_error e);; mret tt)) s
  = (Ok tt, (mark_report_failed task_id (internal_error e) s1).2).
Proof.
  intros Hs Hb.
  destruct (guarded_body_cases body task_id s Hs)
    as (s0 & n & Hc & [(s2 & Hb' & _) | (e' & s2 & Hb' & ->)]);
    rewrite Hc in Hb; simpl in Hb; rewrite Hb in Hb'; by simplify_eq.
Qed.

Lemma io_point_no_fault what s : faults s = [] → io_point what s = (Ok tt, s).
Proof. unfold io_point. by intros ->. Qed.

Lemma cleanup_fold_no_fault exp l n s :
  faults s = [] → faults (foldM (cleanup_file exp) n l s).2 = [].
Proof.
  revert n s. induction l as [|e l IH]; intros n s Hf; [done|].
  simpl. unfold_m. unfold cleanup_file at 1.
  case_bool_decide; [|by apply IH].
  unfold unlink. unfold_m. rewrite io_point_no_fault by done.
  destruct (files s !! e.1); simpl; by apply IH.
Qed.

Lemma cleanup_old_reports_no_fault s :
  faults s = [] → faults (cleanup_old_reports s).2 = [].
Proof.
  intros Hf. unfold cleanup_old_reports, ensure_temp_reports_dir. unfold_m.
  rewrite io_point_no_fault by done. by apply cleanup_fold_no_fault.
Qed.

(** Reading a text that is not empty gives a text that is not empty. *)
Lemma or_default_universal_newlines (msg default : string) :
  msg ≠ "" → or_default (universal_newlines msg) default = universal_newlines msg.
Proof.
  destruct msg as [|c msg]; [done|]. intros _. simpl.
  destruct (decide (c = carriage_return)); [|done].
  destruct msg as [|c' msg]; [done|]. by destruct (decide (c' = line_feed)).
Qed.

(** After a fail without faults on a task that has no completed file,
    the status read is failed, with the message written. *)
Lemma mark_report_failed_status t msg s :
  faults s = [] → files s !! get_report_path t COMPLETED = None →
  (get_report_status t (mark_report_failed t msg s).2).1
  = Ok (Some FAILED,
        or_default (universal_newlines (or_default msg "Report generation failed"))
          "Error al generar el reporte").
Proof.
  intros Hf Hc. unfold mark_report_failed.
  rewrite transition_cases, run_instrs_no_fault by done. cbn [snd].
  unfold get_report_status, path_exists. unfold_m. simpl.
  assert (Hne : ∀ st st', st ≠ st' → get_report_path t st ≠ get_report_path t st').
  { intros st st' Hst H. by apply get_report_path_inj in H as [_ ?]. }
  rewrite lookup_delete_ne, !lookup_insert_ne, Hc by (by apply Hne). simpl.
  rewrite lookup_delete_eq. simpl.
  rewrite lookup_delete_ne, lookup_insert_eq by (by apply Hne).
  simpl. unfold read_text. unfold_m. simpl.
  by rewrite lookup_delete_ne, lookup_insert_eq by (by apply Hne).
Qed.

(** A transition changes no file but those of its task. *)
Lemma mark_report_failed_other t msg s p :
  p ≠ get_report_path t FAILED → p ≠ get_report_path t PENDING →
  files (mark_report_failed t msg s).2 !! p = files s !! p.
Proof.
  intros H1 H2. unfold mark_report_failed. rewrite transition_cases. cbn [snd].
  apply (run_instrs_preserves (λ m, m !! p = files s !! p)); [|done].
  repeat constructor; intros ? m Hm; simpl.
  - by rewrite lookup_insert_ne.
  - by rewrite lookup_insert_ne.
  - by rewrite lookup_delete_ne.
Qed.

(** The status read after the handler of an orchestrator has run
    without a failing file operation. *)
Lemma handler_leaves_failed t e s1 :
  faults s1 = [] → files s1 !! get_report_path t COMPLETED = None →
  let final := (mark_report_failed t (internal_error e) s1).2 in
  (get_report_status t final).1 = Ok (Some FAILED, universal_newlines (internal_error e))
  ∧ status_of t final = Some FAILED.
Proof.
  intros Hf Hc final.
  pose proof (mark_report_failed_status t (internal_error e) s1 Hf Hc) as Hst.
  fold final in Hst.
  assert (Hmsg : ∃ ch m, internal_error e = String ch m) by (by eexists _, _).
  destruct Hmsg as (ch & m & Hmsg).
  assert (Hd : or_default (internal_error e) "Report generation failed" = internal_error e)
    by (by rewrite Hmsg).
  rewrite Hd, or_default_universal_newlines in Hst by (by rewrite Hmsg).
  split; [done|].
  unfold status_of. destruct (get_report_status t final) as [r s2]. simpl in Hst. by subst r.
Qed.



(** C10: the installers generator returns [None] for an empty asset
    list. A background installers report whose lookups succeed and
    whose window holds no asset therefore raises on [getvalue], and,
    the sweep having returned, ends in the call of
    [mark_report_failed] with the internal-error message; no completed
    file is written, and, when no file operation fails and the task had
    no completed file, the status read afterwards is failed with that
    message. *)
Theorem installers_report_without_assets (c : collaborators)
    (task_id contract_name : string) (fecha_desde fecha_hasta : Z)
    (element_type : option string) (asset_status : option AssetStatus)
    (contract_project_id : Z) (element_type_id : option Z) (s : fs) :
  get_contract_project_by_id_or_nombre c contract_name = Ok (Some contract_project_id) →
  match element_type with
  | Some et => ∃ i, get_element_type_by_id_or_nombre c et = Ok (Some i)
                    ∧ element_type_id = Some i
  | None => element_type_id = None
  end →
  query_failure c = None →
  List.filter (in_report_window contract_project_id fecha_desde fecha_hasta
                 element_type_id asset_status) (asset_rows c) = [] →
  let s0 := (cleanup_old_reports s).2 in
  let final := (mark_report_failed task_id (internal_error no_getvalue) s0).2 in
  generate_installers_excel_report c [] = Ok None
  ∧ installers_report_body c task_id contract_name fecha_desde fecha_hasta
      element_type asset_status s0 = (Raise no_getvalue, s0)
  ∧ (head (faults s) ≠ Some true →
     generate_installers_excel_report_background c task_id contract_name
       fecha_desde fecha_hasta element_type asset_status s = (Ok tt, final))
  ∧ files final !! get_report_path task_id COMPLETED
    = files s0 !! get_report_path task_id COMPLETED
  ∧ (faults s = [] → files s !! get_report_path task_id COMPLETED = None →
     (get_report_status task_id final).1
     = Ok (Some FAILED,
           "Error interno al generar el reporte: 'NoneType' object has no attribute 'getvalue'")
     ∧ status_of task_id final = Some FAILED).
Proof.
  intros Hcp Het Hq Hwin s0 final. split; [done|].
  assert (Hbody : installers_report_body c task_id contract_name fecha_desde fecha_hasta
                    element_type asset_status s0 = (Raise no_getvalue, s0)).
  { unfold installers_report_body, with_lookups. unfold_m. rewrite Hcp.
    assert (Hassets : get_assets_by_datetime_range c contract_project_id fecha_desde
                        fecha_hasta element_type_id asset_status = Ok []).
    { unfold get_assets_by_datetime_range. by rewrite Hq, Hwin. }
    destruct element_type as [et|].
    - destruct Het as (i & -> & ->). by rewrite Hassets.
    - subst element_type_id. by rewrite Hassets. }
  split; [done|]. split; [|split].
  - intros Hs. by apply guarded_body_raise.
  - apply mark_report_failed_other; intros H; by apply get_report_path_inj in H as [_ ?].
  - intros Hf Hc.
    assert (Hf0 : faults s0 = []) by by apply cleanup_old_reports_no_fault.
    assert (Hc0 : files s0 !! get_report_path task_id COMPLETED = None).
    { eapply lookup_weaken_None; [exact Hc|]. apply cleanup_old_reports_subseteq. }
    exact (handler_leaves_failed task_id no_getvalue s0 Hf0 Hc0).
Qed.

(** C10, for a submitted task whose contract has no asset. *)
Lemma installers_report_without_assets_witness :
  let final :=
    (generate_installers_excel_report_background demo_collaborators "t1" "Ruta 5"
       0 10 None None demo_store).2 in
  (generate_installers_excel_report_background demo_collaborators "t1" "Ruta 5"
     0 10 None None demo_store).1 = Ok tt
  ∧ (get_report_status "t1" final).1
    = Ok (Some FAILED,
          "Error interno al generar el reporte: 'NoneType' object has no attribute 'getvalue'")
  ∧ files final !! get_report_path "t1" COMPLETED = None.
Proof.
  destruct (installers_report_without_assets demo_collaborators "t1" "Ruta 5" 0 10
              None None 1 None demo_store eq_refl eq_refl eq_refl eq_refl)
    as (_ & _ & Hrun & Hfile & Hstatus).
  assert (Hs : head (faults demo_store) ≠ Some true) by done.
  specialize (Hrun Hs).
  destruct (Hstatus eq_refl eq_refl) as [Hst _].
  intros final. subst final. rewrite Hrun. cbn [fst snd].
  split; [done|]. split; [exact Hst|]. rewrite Hfile. reflexivity.
Defined.

End ReportFacts.

Module BulkIngestFacts.
Local Open Scope list_scope.
Local Open Scope nat_scope.
Import BulkIngest BulkIngestSpec.

Lemma filter_bool_stdpp {A} (f : A → bool) (l : list A) :
  List.filter f l = filter (λ x, f x = true) l.
Proof.
  induction l as [|x l IH]; [done|]. simpl. rewrite filter_cons, IH.
  by destruct (f x).
Qed.

Lemma insert_do_nothing_spec batch tbl :
  dom (insert_do_nothing batch tbl).1
  = dom tbl ∪ list_to_set (insert_do_nothing batch tbl).2
  ∧ (list_to_set (insert_do_nothing batch tbl).2 : gset Z) ⊆ batch_id_internos batch
  ∧ (list_to_set (insert_do_nothing batch tbl).2 : gset Z) ## dom tbl.
Proof.
  revert tbl. induction batch as [|r batch IH]; intros tbl; simpl.
  - set_solver.
  - unfold batch_id_internos in *. simpl.
    destruct (tbl !! row_id r) eqn:E.
    + destruct (IH tbl) as (H1 & H2 & H3). set_solver.
    + destruct (IH (<[row_id r := r]> tbl)) as (H1 & H2 & H3). simpl.
      rewrite dom_insert_L in H1, H3.
      apply not_elem_of_dom in E. set_solver.
Qed.

Lemma size_list_to_set_le (l : list Z) : (size (list_to_set l : gset Z) ≤ length l)%nat.
Proof.
  unfold size, set_size. simpl. apply submseteq_length, NoDup_submseteq.
  - apply NoDup_elements.
  - intros x. rewrite elem_of_elements. by rewrite elem_of_list_to_set.
Qed.

Lemma process_batch_inv done_ t batch d t' d' :
  process_batch t batch d = (Ok t', d') →
  ingest_inv done_ t d → ingest_inv (done_ ++ [batch]) t' d'.
Proof.
  unfold process_batch, execute_insert, begin_statement. unfold_m.
  intros Hrun (Hdom & Hcount & Hsub).
  pose proof (insert_do_nothing_spec batch (asset_table d)) as (Hd & Hin & Hdisj).
  assert (Hnew : ingest_inv (done_ ++ [batch])
    {| all_conflictive_id_internos :=
         (all_conflictive_id_internos t
          ++ elements (batch_id_internos batch
                       ∖ list_to_set (insert_do_nothing batch (asset_table d)).2))%list;
       all_inserted_id_internos :=
         all_inserted_id_internos t ∪ list_to_set (insert_do_nothing batch (asset_table d)).2;
       all_failed_id_internos := all_failed_id_internos t |}
    (Db (insert_do_nothing batch (asset_table d)).1 (conflictive_asset_table d)
        (executed d ++ [InsertAssets batch]) (tail (failures d)))).
  { unfold ingest_inv. simpl. split; [|split].
    - rewrite Hd. set_solver.
    - rewrite sum_list_with_app. simpl. rewrite length_app.
      rewrite size_union by set_solver.
      change (length (elements ?X)) with (size X).
      rewrite size_difference by done.
      apply subseteq_size in Hin. lia.
    - rewrite concat_app, fmap_app. simpl. rewrite app_nil_r.
      apply submseteq_app; [done|]. apply NoDup_submseteq; [apply NoDup_elements|].
      intros x. rewrite elem_of_elements. intros Hx.
      apply elem_of_difference in Hx as [Hx _]. unfold batch_id_internos in Hx.
      by apply elem_of_list_to_set in Hx. }
  assert (Hfailed : ingest_inv (done_ ++ [batch])
    {| all_conflictive_id_internos := all_conflictive_id_internos t;
       all_inserted_id_internos := all_inserted_id_internos t;
       all_failed_id_internos :=
         (all_failed_id_internos t ++ elements (batch_id_internos batch))%list |}
    (Db (asset_table d) (conflictive_asset_table d)
        (executed d ++ [InsertAssets batch]) (tail (failures d)))).
  { unfold ingest_inv. simpl. split; [done|split].
    - rewrite sum_list_with_app. simpl. rewrite length_app.
      change (length (elements ?X)) with (size X). lia.
    - rewrite concat_app, fmap_app. by apply submseteq_inserts_r. }
  destruct (failures d) as [|[[[| |] code]|] fl] eqn:Ef; simpl in *;
    try (injection Hrun as <- <-; done).
  discriminate.
Qed.

(** An invariant of the turns of a loop holds after the loop, when the
    loop ends without raising. *)
Lemma foldM_inv {St A B} (I : list A → B → St → Prop) (f : B → A → M St B) l :
  (∀ done_ x b s b' s', f b x s = (Ok b', s') → I done_ b s → I (done_ ++ [x]) b' s') →
  ∀ done_ b s b' s',
    foldM f b l s = (Ok b', s') → I done_ b s → I (done_ ++ l) b' s'.
Proof.
  intros Hstep. induction l as [|x l IH]; intros done_ b s b' s'; simpl.
  - unfold_m. intros [= <- <-]. by rewrite app_nil_r.
  - unfold_m. destruct (f b x s) as [[b1|e] s1] eqn:E; [|done].
    intros Hrun Hinv. rewrite (cons_middle x), app_assoc.
    eapply IH; [exact Hrun|]. by eapply Hstep.
Qed.

(** The batches are consecutive slices of the rows. *)
Lemma concat_slices {A} (l : list A) (n m : nat) :
  concat ((λ k, slice l (k * n) n) <$> seq 0 m) = take (m * n) l.
Proof.
  induction m as [|m IH]; [done|].
  rewrite seq_S, fmap_app, concat_app, IH. simpl. rewrite app_nil_r.
  unfold slice. rewrite take_take_drop. f_equal. lia.
Qed.

Lemma concat_insert_batches_take (l : list asset_row) (batch_size : Z) :
  ∃ k, concat (insert_batches l batch_size) = take k l.
Proof.
  unfold insert_batches, range_from_zero. case_bool_decide.
  - rewrite <- list_fmap_compose. eexists. apply (concat_slices l).
  - exists 0%nat. by rewrite take_0.
Qed.

Lemma concat_insert_batches (l : list asset_row) (batch_size : Z) :
  (0 < batch_size)%Z → concat (insert_batches l batch_size) = l.
Proof.
  intros Hpos. unfold insert_batches, range_from_zero.
  rewrite bool_decide_eq_true_2 by done.
  rewrite <- list_fmap_compose.
  etrans; [apply (concat_slices l)|]. apply take_ge.
  pose proof (Z.div_mod (Z.of_nat (length l) + batch_size - 1) batch_size) as Hdm.
  pose proof (Z.mod_pos_bound (Z.of_nat (length l) + batch_size - 1) batch_size Hpos).
  assert (0 ≤ (Z.of_nat (length l) + batch_size - 1) `div` batch_size)%Z
    by (apply Z.div_pos; lia).
  nia.
Qed.

Lemma sum_sizes_repeated (batches : list (list asset_row)) :
  (sum_list_with (λ b, size (batch_id_internos b)) batches
   + sum_list_with repeated_in_batch batches
   = length (concat batches))%nat.
Proof.
  induction batches as [|b batches IH]; [done|].
  simpl. rewrite length_app. unfold repeated_in_batch at 1.
  pose proof (size_list_to_set_le (row_id <$> b)) as Hle.
  rewrite length_fmap in Hle. unfold batch_id_internos at 1 3. lia.
Qed.

Lemma filter_all {A} (P : A → Prop) `{∀ x, Decision (P x)} (l : list A) :
  Forall P l → filter P l = l.
Proof.
  induction 1 as [|x l Hx Hl IH]; [done|].
  by rewrite filter_cons, decide_True, IH.
Qed.

(** The rows written by the upsert are as many as the conflictive ids,
    when no key is proposed twice. *)
Lemma conflictive_rows_count (conflictive ids : list Z) :
  conflictive ⊆+ ids →
  NoDup (filter (λ x, x ∈ conflictive) ids) →
  length (filter (λ x, x ∈ conflictive) ids) = length conflictive.
Proof.
  intros Hsub Hnd. apply Nat.le_antisymm.
  - apply submseteq_length, NoDup_submseteq; [done|].
    intros x. rewrite list_elem_of_filter. tauto.
  - apply submseteq_Permutation in Hsub as [k Hk].
    rewrite Hk, filter_app, length_app.
    rewrite filter_all; [lia|]. by apply Forall_forall.
Qed.

Lemma fmap_filter_id_interno (conflictive : list Z) (assets : list AssetCreate) :
  id_interno <$> List.filter (λ a, bool_decide (id_interno a ∈ conflictive)) assets
  = filter (λ x, x ∈ conflictive) (id_interno <$> assets).
Proof.
  induction assets as [|a assets IH]; [done|].
  rewrite fmap_cons, filter_cons. cbn [List.filter]. case_bool_decide.
  - rewrite decide_True by done. by rewrite fmap_cons, IH.
  - by rewrite decide_False.
Qed.

(** Whether the upsert writes the conflictive rows or fails and hands
    their ids to the failed ones, the two counts add up the same. *)
Lemma upsert_conflictive_count now assets t d r d' :
  upsert_conflictive now assets t d = (Ok r, d') →
  all_conflictive_id_internos t ⊆+ id_interno <$> assets →
  r.1 + length r.2
  = length (all_conflictive_id_internos t) + length (all_failed_id_internos t).
Proof.
  unfold upsert_conflictive.
  destruct (all_conflictive_id_internos t) as [|c0 cs] eqn:Ec.
  { unfold_m. by intros [= <- <-]. }
  rewrite <- Ec. clear c0 cs Ec.
  unfold execute_upsert, begin_statement. unfold_m.
  intros Hrun Hsub.
  set (rows := List.filter (λ a, bool_decide (id_interno a ∈ all_conflictive_id_internos t))
                 assets) in *.
  set (mk := λ a, {| row_asset := a; version := 1; created_at := now; updated_at := now |})
    in *.
  assert (Hok : NoDup (row_id <$> (mk <$> rows)) →
                length (mk <$> rows) + length (all_failed_id_internos t)
                = length (all_conflictive_id_internos t) + length (all_failed_id_internos t)).
  { intros Hnd. rewrite <- list_fmap_compose in Hnd.
    change (row_id ∘ mk) with id_interno in Hnd.
    unfold rows in Hnd. rewrite fmap_filter_id_interno in Hnd.
    rewrite length_fmap.
    rewrite <- (conflictive_rows_count _ _ Hsub Hnd).
    unfold rows. by rewrite <- fmap_filter_id_interno, length_fmap. }
  destruct (failures d) as [|[[[| |] code]|] fl] eqn:Ef; simpl in *.
  - case_bool_decide as Hnd; simpl in *; [|done]. injection Hrun as <- <-. by apply Hok.
  - injection Hrun as <- <-. simpl. rewrite length_app. lia.
  - injection Hrun as <- <-. simpl. rewrite length_app. lia.
  - done.
  - case_bool_decide as Hnd; simpl in *; [|done]. injection Hrun as <- <-. by apply Hok.
Qed.

(** A summary is returned by the end of the body: the loop and the
    upsert ended without an exception that escapes them. *)
Lemma create_assets_bulk_ok now assets batch_size d summary d' :
  assets ≠ [] →
  create_assets_bulk now assets batch_size d = (Ok summary, d') →
  ∃ t d1 r,
    foldM process_batch
      {| all_conflictive_id_internos := [];
         all_inserted_id_internos := ∅;
         all_failed_id_internos := [] |}
      (insert_batches
         ((λ a, {| row_asset := a; version := 1; created_at := now; updated_at := now |})
            <$> assets) batch_size) d = (Ok t, d1)
    ∧ upsert_conflictive now assets t d1 = (Ok r, d')
    ∧ summary
      = [("created", VInt (Z.of_nat (size (all_inserted_id_internos t))));
         ("conflictive", VInt (Z.of_nat r.1));
         ("total", VInt (Z.of_nat (length assets)));
         ("failed", VInt (Z.of_nat (length r.2)));
         ("failed_id_internos", VList (merge_sort Z.le r.2))].
Proof.
  intros Hne. unfold create_assets_bulk.
  rewrite bool_decide_eq_false_2 by (by destruct assets).
  case_bool_decide; [done|]. unfold_m.
  destruct (foldM _ _ _ d) as [[t|e] d1] eqn:Eloop.
  - destruct (upsert_conflictive now assets t d1) as [[r|e] d2] eqn:Eup.
    + intros [= <- <-]. by exists t, d1, r.
    + destruct (is_DBAPIError e); [done|]. by destruct e.
  - destruct (is_DBAPIError e); [done|]. by destruct e.
Qed.

(** C5 (as amended): whenever bulk creation returns its summary,
    created + conflictive + failed is at most the number of rows
    submitted; for a positive batch size the difference is the number of
    rows that repeat a key of their own batch, whether or not the upsert
    of the conflictive rows failed. For the empty input the three
    counts present are zero. *)
Theorem bulk_summary_totals (now : Z) (assets : list AssetCreate) (batch_size : Z)
    (d d' : db) (summary : dict) :
  create_assets_bulk now assets batch_size d = (Ok summary, d') →
  ∃ created conflictive failed : nat,
    dict_get summary "created" = Some (VInt (Z.of_nat created))
    ∧ dict_get summary "conflictive" = Some (VInt (Z.of_nat conflictive))
    ∧ dict_get summary "total" = Some (VInt (Z.of_nat (length assets)))
    ∧ (assets ≠ [] → dict_get summary "failed" = Some (VInt (Z.of_nat failed)))
    ∧ (assets = [] → failed = 0)
    ∧ created + conflictive + failed ≤ length assets
    ∧ ((0 < batch_size)%Z →
       created + conflictive + failed + repeated_keys now assets batch_size
       = length assets).
Proof.
  intros Hrun. destruct assets as [|a0 assets'] eqn:Ea.
  { unfold create_assets_bulk in Hrun. simpl in Hrun. unfold_m.
    injection Hrun as <- <-. exists 0, 0, 0. repeat split; try done.
    intros Hpos. unfold repeated_keys, insert_batches, range_from_zero. simpl.
    rewrite bool_decide_eq_true_2 by done.
    replace ((Z.of_nat 0 + batch_size - 1) `div` batch_size)%Z with 0%Z; [done|].
    symmetry. apply Z.div_small. lia. }
  rewrite <- Ea in *. assert (Hne : assets ≠ []) by (by rewrite Ea). clear a0 assets' Ea.
  apply create_assets_bulk_ok in Hrun as (t & d1 & r & Hloop & Hup & ->); [|done].
  set (rows := (λ a, {| row_asset := a; version := 1; created_at := now;
                        updated_at := now |}) <$> assets) in *.
  apply (foldM_inv ingest_inv process_batch _
           (λ done_ x b s b' s', process_batch_inv done_ b x s b' s') []) in Hloop as
    (_ & Hcount & Hsub); [|by repeat split; simpl; try set_solver].
  simpl in Hcount, Hsub.
  assert (Hids : row_id <$> rows = id_interno <$> assets).
  { unfold rows. by rewrite <- list_fmap_compose. }
  destruct (concat_insert_batches_take rows batch_size) as [k Hk].
  assert (Hsub' : all_conflictive_id_internos t ⊆+ id_interno <$> assets).
  { etrans; [exact Hsub|]. rewrite Hk, <- Hids, fmap_take.
    apply sublist_submseteq, sublist_take. }
  pose proof (upsert_conflictive_count _ _ _ _ _ _ Hup Hsub') as Hsum.
  pose proof (sum_sizes_repeated (insert_batches rows batch_size)) as Hrep.
  assert (Hlen : length rows = length assets) by (unfold rows; apply length_fmap).
  exists (size (all_inserted_id_internos t)), r.1, (length r.2).
  split_and!.
  - done.
  - done.
  - done.
  - done.
  - done.
  - rewrite Hk, length_take in Hrep. lia.
  - intros Hpos. rewrite concat_insert_batches in Hrep by done.
    unfold repeated_keys. fold rows. lia.
Qed.

(** C5, counterexample: two rows with one key in one batch give
    created 1, conflictive 0, failed 0 for a total of 2. The gap of one
    is there although the only statement executed is the insert: no
    upsert ran, nothing was reclassified, and no id is in two
    categories. *)
Lemma gap_without_reclassification :
  ∃ d', create_assets_bulk 0 [candidate 1 "a"; candidate 1 "b"] 200 empty_db
        = (Ok [("created", VInt 1); ("conflictive", VInt 0); ("total", VInt 2);
               ("failed", VInt 0); ("failed_id_internos", VList [])], d')
        ∧ executed d' = [InsertAssets [stored 0 (candidate 1 "a"); stored 0 (candidate 1 "b")]].
Proof. eexists. split; by vm_compute. Qed.

Lemma bulk_summary_totals_witness :
  ∃ created conflictive failed : nat,
    dict_get [("created", VInt 1); ("conflictive", VInt 0); ("total", VInt 2);
              ("failed", VInt 0); ("failed_id_internos", VList [])] "created"
    = Some (VInt (Z.of_nat created))
    ∧ created + conflictive + failed ≤ 2
    ∧ created + conflictive + failed
      + repeated_keys 0 [candidate 1 "a"; candidate 1 "b"] 200 = 2.
Proof.
  destruct (bulk_summary_totals 0 [candidate 1 "a"; candidate 1 "b"] 200 empty_db
              (Db {[ 1%Z := stored 0 (candidate 1 "a") ]} ∅
                  [InsertAssets [stored 0 (candidate 1 "a"); stored 0 (candidate 1 "b")]] [])
              [("created", VInt 1); ("conflictive", VInt 0); ("total", VInt 2);
               ("failed", VInt 0); ("failed_id_internos", VList [])])
    as (c & k & f & H1 & _ & _ & _ & _ & H6 & H7); [by vm_compute|].
  exists c, k, f. split; [exact H1|]. split; [exact H6|]. apply H7. lia.
Defined.

(** Two rows with one key in two batches: the second is conflictive,
    the upsert proposes its key twice, and the call ends with a 500. *)
Example repeated_key_across_batches :
  (create_assets_bulk 0 [candidate 1 "a"; candidate 1 "b"] 1 empty_db).1
  = Raise (HTTPException 500 "Database integrity error during asset creation (code: 21000)").
Proof. by vm_compute. Qed.

(** Keys 1, 2, 3 with key 2 already in the asset table. *)
Example one_key_taken :
  ∃ d', create_assets_bulk 0 [candidate 1 "a"; candidate 2 "b"; candidate 3 "c"] 200
          (Db {[ 2%Z := stored (-5) (candidate 2 "old") ]} ∅ [] [])
        = (Ok [("created", VInt 2); ("conflictive", VInt 1); ("total", VInt 3);
               ("failed", VInt 0); ("failed_id_internos", VList [])], d')
        ∧ conflictive_asset_table d' = {[ 2%Z := stored 0 (candidate 2 "b") ]}.
Proof. eexists. split; by vm_compute. Qed.

(** A failed upsert hands the conflictive ids to the failed ones. *)
Example upsert_failure_reclassifies :
  (create_assets_bulk 0 [candidate 1 "a"; candidate 2 "b"; candidate 3 "c"] 200
     (Db {[ 2%Z := stored (-5) (candidate 2 "old") ]} ∅ []
         [None; Some (IntegrityError, "23503")])).1
  = Ok [("created", VInt 2); ("conflictive", VInt 0); ("total", VInt 3);
               ("failed", VInt 1); ("failed_id_internos", VList [2%Z])].
Proof. by vm_compute. Qed.

(** A key may be counted in two categories without any gap: with
    batches of one row, key 1 is created by the first batch and failed
    by the second, whose insert is rejected. *)
Example key_created_then_failed :
  (create_assets_bulk 0 [candidate 1 "a"; candidate 1 "b"] 1
     (Db ∅ ∅ [] [None; Some (IntegrityError, "23503")])).1
  = Ok [("created", VInt 1); ("conflictive", VInt 0); ("total", VInt 2);
        ("failed", VInt 1); ("failed_id_internos", VList [1%Z])]
  ∧ repeated_keys 0 [candidate 1 "a"; candidate 1 "b"] 1 = 0.
Proof. split; by vm_compute. Qed.

(** C8: on the empty sequence [create_assets_bulk] executes no
    statement and returns the counts created, conflictive and total,
    all zero, without the key failed; the route, which reads the key
    failed of the result, then answers 500. *)
Theorem create_assets_bulk_empty (now batch_size : Z) (d : db) :
  create_assets_bulk now [] batch_size d
  = (Ok [("created", VInt 0); ("conflictive", VInt 0); ("total", VInt 0)], d)
  ∧ dict_get [("created", VInt 0); ("conflictive", VInt 0); ("total", VInt 0)] "failed" = None
  ∧ create_assets_bulk_route now [] batch_size d
    = (Raise (HTTPException 500 "Error creating assets in bulk"), d).
Proof. split; [done|]. split; [done|]. done. Qed.

End BulkIngestFacts.

Module PhotoUploadFacts.
Local Open Scope list_scope.
Local Open Scope nat_scope.
Import Models PhotoUpload PhotoUploadSpec.

Lemma calls_between_refl P w : calls_between P w w.
Proof. exists []. by rewrite app_nil_r. Qed.

Lemma calls_between_trans P w1 w2 w3 :
  calls_between P w1 w2 → calls_between P w2 w3 → calls_between P w1 w3.
Proof.
  intros (e1 & H1 & F1) (e2 & H2 & F2). exists (e1 ++ e2).
  rewrite H2, H1, app_assoc. split; [done|]. by apply Forall_app.
Qed.

Lemma res_unit_cases (r : res unit) : r = Ok tt ∨ ∃ e, r = Raise e.
Proof. destruct r as [[]|e]; eauto. Qed.

(** *** Phase 2 *)

Lemma save_item_cases acc item w :
  ∃ w',
    (save_item acc item w = (Ok (acc.1.1 ++ [item], acc.1.2, acc.2), w')
     ∨ ∃ msg, save_item acc item w
              = (Ok (acc.1.1, acc.1.2 ++ [plan_id_interno item],
                     acc.2 ++ [filesystem_failure item msg]), w'))
    ∧ asset_table w' = asset_table w
    ∧ conflictive_asset_table w' = conflictive_asset_table w
    ∧ committed w' = committed w
    ∧ statement_outcomes w' = statement_outcomes w
    ∧ events w'
      = events w ++ [Save (plan_id_interno item) (plan_photo_name item) (is_conflictive item)].
Proof.
  unfold save_item, _save_photo_to_filesystem_safe, write_photo, store_photo, read,
    record_event, next_save_failure.
  unfold_m. destruct w as [a c cm d1 d2 sf so ev]; simpl.
  destruct (read_error (photo item)) as [e|]; simpl.
  { eexists; split; [right; eexists; reflexivity|done]. }
  destruct sf as [|[[msg|n msg]|] sf]; simpl.
  - destruct (is_conflictive item); (eexists; split; [left; reflexivity|done]).
  - eexists; split; [right; eexists; reflexivity|done].
  - destruct (is_conflictive item); (eexists; split; [right; eexists; reflexivity|done]).
  - destruct (is_conflictive item); (eexists; split; [left; reflexivity|done]).
Qed.

(** Phase 2 never raises; it touches neither the tables nor the
    statement outcomes, saves plan items only, and adds failures only. *)
Lemma save_items_spec (Q : plan_item → Prop) plan :
  Forall Q plan →
  ∀ acc w, ∃ saved w2 su fails,
    foldM save_item acc plan w = (Ok saved, w2)
    ∧ asset_table w2 = asset_table w
    ∧ conflictive_asset_table w2 = conflictive_asset_table w
    ∧ committed w2 = committed w
    ∧ statement_outcomes w2 = statement_outcomes w
    ∧ calls_between (λ ev, ∃ it, Q it ∧ event_id ev = Some (plan_id_interno it)) w w2
    ∧ saved.1.1 = acc.1.1 ++ su ∧ Forall Q su
    ∧ saved.2 = acc.2 ++ fails
    ∧ Forall (λ r, success r = false
                   ∧ ∃ it, Q it ∧ response_id_interno r = plan_id_interno it) fails.
Proof.
  induction 1 as [|item plan HQ Hplan IH]; intros acc w.
  - exists acc, w, [], []. simpl. rewrite !app_nil_r.
    repeat split; try done. apply calls_between_refl.
  - simpl. unfold_m.
    destruct (save_item_cases acc item w) as (w1 & Hcase & Ha & Hc & Hcm & Hso & Hev).
    assert (Hcalls : calls_between
              (λ ev, ∃ it, Q it ∧ event_id ev = Some (plan_id_interno it)) w w1).
    { eexists. split; [exact Hev|]. repeat constructor. by exists item. }
    destruct Hcase as [-> | [msg ->]].
    + destruct (IH (acc.1.1 ++ [item], acc.1.2, acc.2) w1)
        as (saved & w2 & su & fails & -> & Ha2 & Hc2 & Hcm2 & Hso2 & Hcalls2 & Hsu & HQsu
            & Hf & Hfails).
      exists saved, w2, (item :: su), fails. simpl in *.
      split_and!; [done|congruence..| |by rewrite Hsu, <- app_assoc|by constructor
                  |done|done].
      by eapply calls_between_trans.
    + destruct (IH (acc.1.1, acc.1.2 ++ [plan_id_interno item],
                    acc.2 ++ [filesystem_failure item msg]) w1)
        as (saved & w2 & su & fails & -> & Ha2 & Hc2 & Hcm2 & Hso2 & Hcalls2 & Hsu & HQsu
            & Hf & Hfails).
      exists saved, w2, su, (filesystem_failure item msg :: fails). simpl in *.
      split_and!; [done|congruence..| |done|done|by rewrite Hf, <- app_assoc|].
      * by eapply calls_between_trans.
      * constructor; [|done]. split; [done|]. by exists item.
Qed.

(** *** Phase 3 *)

Lemma calls_between_impl (P P' : event → Prop) w w' :
  (∀ ev, P ev → P' ev) → calls_between P w w' → calls_between P' w w'.
Proof. intros H (evs & He & Hf). exists evs. split; [done|]. by eapply Forall_impl. Qed.

Lemma execute_update_cases c i n w :
  ∃ r w', execute_update c i n w = (r, w')
          ∧ committed w' = committed w
          ∧ events w' = events w ++ [Update c i n].
Proof.
  unfold execute_update, record_event, next_outcome, scalar_one_or_none. unfold_m.
  destruct w as [a t cm d1 d2 sf so ev]; simpl.
  destruct so as [|[| |e] so]; simpl.
  - destruct c; simpl; destruct (_ <$> List.filter _ _) as [|? [|? ?]]; by eexists _, _.
  - destruct c; simpl; destruct (_ <$> List.filter _ _) as [|? [|? ?]]; by eexists _, _.
  - by eexists _, _.
  - by eexists _, _.
Qed.

Lemma update_loop_cases (Q : plan_item → Prop) c updates :
  Forall (λ u, ∃ it, Q it ∧ plan_id_interno it = u_id_interno u) updates →
  ∀ acc w, ∃ r w',
    foldM (λ updated_ids update_item,
             updated_id ← execute_update c (u_id_interno update_item)
                            (u_photo_name update_item);
             match updated_id with
             | Some i => if bool_decide (i ≠ 0%Z) then mret (updated_ids ++ [i])
                         else mret updated_ids
             | None => mret updated_ids
             end) acc updates w = (r, w')
    ∧ committed w' = committed w
    ∧ calls_between (names_only Q) w w'.
Proof.
  induction 1 as [|u updates Hu Hus IH]; intros acc w.
  - eexists _, _. split; [done|]. split; [done|]. apply calls_between_refl.
  - simpl. unfold_m.
    destruct (execute_update_cases c (u_id_interno u) (u_photo_name u) w)
      as (r & w1 & -> & Hcm & Hev).
    assert (Hcalls : calls_between (names_only Q) w w1).
    { eexists. split; [exact Hev|]. repeat constructor. by intros i [= <-]. }
    destruct r as [[i|]|e].
    + case_bool_decide.
      * destruct (IH (acc ++ [i]) w1) as (r & w' & -> & Hcm' & Hcalls').
        eexists _, _. split; [done|]. split; [congruence|].
        by eapply calls_between_trans.
      * destruct (IH acc w1) as (r & w' & -> & Hcm' & Hcalls').
        eexists _, _. split; [done|]. split; [congruence|].
        by eapply calls_between_trans.
    + destruct (IH acc w1) as (r & w' & -> & Hcm' & Hcalls').
      eexists _, _. split; [done|]. split; [congruence|].
      by eapply calls_between_trans.
    + by eexists _, _.
Qed.

Lemma bulk_update_cases (Q : plan_item → Prop) c updates w :
  Forall (λ u, ∃ it, Q it ∧ plan_id_interno it = u_id_interno u) updates →
  ∃ r w', _bulk_update_asset_photos updates c w = (r, w')
          ∧ committed w' = committed w
          ∧ calls_between (names_only Q) w w'.
Proof.
  intros HQ. unfold _bulk_update_asset_photos.
  destruct updates as [|u updates].
  { eexists _, _. split; [done|]. split; [done|]. apply calls_between_refl. }
  unfold try_except, raise.
  destruct (update_loop_cases Q c (u :: updates) HQ [] w) as (r & w' & -> & Hcm & Hcalls).
  destruct r; by eexists _, _.
Qed.

Lemma commit_cases w :
  ∃ r w', commit w = (r, w')
          ∧ events w' = events w ++ [Commit]
          ∧ ((∃ e, r = Raise e) → committed w' = committed w).
Proof.
  unfold commit, record_event, next_outcome. unfold_m.
  destruct w as [a t cm d1 d2 sf so ev]; simpl.
  destruct so as [|[| |e] so]; simpl; eexists _, _; (split; [done|]); (split; [done|]);
    try (by intros [? [=]]); done.
Qed.

Lemma update_data_of (Q : plan_item → Prop) (su : list plan_item) (f : plan_item → bool) :
  Forall Q su →
  Forall (λ u, ∃ it, Q it ∧ plan_id_interno it = u_id_interno u)
    (to_update_data <$> List.filter f su).
Proof.
  intros HQ. apply Forall_fmap, Forall_forall. intros it Hit.
  apply list_elem_of_In, filter_In in Hit as [Hit _]. apply list_elem_of_In in Hit.
  exists it. split; [|done]. by eapply Forall_forall in HQ.
Qed.

Lemma update_table_cases (Q : plan_item → Prop) c updates w :
  Forall (λ u, ∃ it, Q it ∧ plan_id_interno it = u_id_interno u) updates →
  ∃ r w', update_table updates c w = (r, w')
          ∧ committed w' = committed w
          ∧ calls_between (names_only Q) w w'.
Proof.
  intros HQ. unfold update_table.
  destruct (bulk_update_cases Q c updates w HQ) as (r & w1 & Hr & Hcm & Hcalls).
  destruct updates as [|u updates'].
  - eexists _, _. split; [done|]. split; [done|]. apply calls_between_refl.
  - unfold_m. rewrite Hr. destruct r; by eexists _, _.
Qed.

Lemma database_updates_cases (Q : plan_item → Prop) su w :
  Forall Q su →
  ∃ r w', database_updates su w = (r, w')
          ∧ calls_between (names_only Q) w w'
          ∧ ((∃ e, r = Raise e) → committed w' = committed w).
Proof.
  intros HQ. unfold database_updates. unfold_m.
  destruct (update_table_cases Q false
              (to_update_data <$> List.filter (λ item, negb (is_conflictive item)) su) w)
    as (r1 & w1 & -> & Hcm1 & Hcalls1); [by apply update_data_of|].
  destruct r1 as [s1|e]; [|by eexists _, _].
  destruct (update_table_cases Q true
              (to_update_data <$> List.filter is_conflictive su) w1)
    as (r2 & w2 & -> & Hcm2 & Hcalls2); [by apply update_data_of|].
  destruct r2 as [s2|e].
  2:{ eexists _, _. split; [done|]. split; [by eapply calls_between_trans|]. congruence. }
  destruct (commit_cases w2) as (r3 & w3 & -> & Hev3 & Hcm3).
  assert (Hcalls3 : calls_between (names_only Q) w w3).
  { eapply calls_between_trans; [done|]. eapply calls_between_trans; [done|].
    eexists. split; [exact Hev3|]. repeat constructor. by intros i [=]. }
  destruct r3 as [[]|e]; eexists _, _; (split; [done|]); (split; [done|]).
  - by intros [? [=]].
  - intros _. rewrite Hcm3 by eauto. congruence.
Qed.

(** Phase 3 raises only when its rollback does. When its [try] block
    raises and the rollback runs, no update is counted and the tables
    are back to what was last committed. *)
Lemma database_phase_cases (Q : plan_item → Prop) su w :
  Forall Q su →
  ∃ r w',
    database_phase su w = (r, w')
    ∧ calls_between (names_only Q) w w'
    ∧ (∀ updated, r = Ok updated →
       su ≠ [] → (∃ e w3, database_updates su w = (Raise e, w3)) →
       updated = ∅
       ∧ asset_table w' = (committed w).1
       ∧ conflictive_asset_table w' = (committed w).2)
    ∧ (∀ e, r = Raise e →
       su ≠ [] ∧ committed w' = committed w
       ∧ ∃ evs, events w' = events w ++ evs ++ [Rollback]).
Proof.
  intros HQ. unfold database_phase. destruct su as [|it su'] eqn:E.
  { eexists _, _. split; [done|]. split; [apply calls_between_refl|]. done. }
  rewrite <- E in *.
  assert (Hne : su ≠ []) by (by rewrite E). clear E.
  destruct (database_updates_cases Q su w HQ) as (r & w1 & Hr & Hcalls & Hcm).
  unfold try_except. rewrite Hr. destruct r as [updated|e].
  - eexists _, _. split; [done|]. split; [done|]. split; [|done].
    by intros ? _ _ (? & ? & [=]).
  - destruct Hcalls as (evs & Hevs & Hnames).
    unfold rollback, record_event, next_outcome. unfold_m.
    destruct w1 as [a t cm d1 d2 sf so ev]; simpl in *.
    assert (Hrb : Forall (names_only Q) (evs ++ [Rollback])).
    { apply Forall_app. split; [done|]. repeat constructor. by intros i [=]. }
    destruct so as [|[| |e'] so]; simpl; eexists _, _; (split; [done|]);
      (split; [exists (evs ++ [Rollback]); by rewrite Hevs, app_assoc|]); simpl.
    + split; [|done]. intros ? [= <-] _ _. rewrite Hcm by eauto. done.
    + split; [|done]. intros ? [= <-] _ _. rewrite Hcm by eauto. done.
    + split; [|done]. intros ? [= <-] _ _. rewrite Hcm by eauto. done.
    + split; [done|]. intros ? _. split; [done|]. split; [by apply Hcm; eauto|].
      exists evs. by rewrite Hevs, <- app_assoc.
Qed.

(** *** Phase 1 *)

Lemma by_id_interno_lookup_from (l : list Asset) (d0 : gmap Z Asset) x a :
  foldl (λ d a, <[id_interno a := a]> d) d0 l !! x = Some a →
  (a ∈ l ∧ id_interno a = x) ∨ d0 !! x = Some a.
Proof.
  revert d0. induction l as [|b l IH]; intros d0; simpl; [by right|].
  intros H. apply IH in H as [[Hin Hid] | H].
  - left. split; [by right|done].
  - destruct (decide (id_interno b = x)) as [<-|Hne].
    + rewrite lookup_insert_eq in H. injection H as <-. left. split; [by left|done].
    + rewrite lookup_insert_ne in H by done. by right.
Qed.

Lemma unresolved_lookup (tbl : list Asset) (ids : list Z) x :
  (∀ a, a ∈ tbl → id_interno a ≠ x) →
  by_id_interno (select_by_ids_internos tbl ids) !! x = None.
Proof.
  intros Hx. destruct (by_id_interno _ !! x) as [a|] eqn:E; [|done].
  unfold by_id_interno in E. apply by_id_interno_lookup_from in E as [[Hin Hid]|E]; [|done].
  unfold select_by_ids_internos in Hin.
  apply list_elem_of_In, filter_In in Hin as [Hin _]. apply list_elem_of_In in Hin.
  by destruct (Hx a Hin).
Qed.

Lemma responses_for_app x rs rs' :
  responses_for x (rs ++ rs') = responses_for x rs ++ responses_for x rs'.
Proof. apply filter_app. Qed.

Lemma resolve_unresolved (D1 D2 : gmap Z Asset) x pairs :
  D1 !! x = None → D2 !! x = None →
  ∀ acc,
    let r := foldl (resolve D1 D2) acc pairs in
    (Forall (λ it, plan_id_interno it ≠ x) acc.1.1 →
     Forall (λ it, plan_id_interno it ≠ x) r.1.1)
    ∧ responses_for x r.2
      = responses_for x acc.2 ++ replicate (occurrences x pairs.*1) (not_found_response x)
    ∧ (Forall (λ r, success r = false) acc.2 → Forall (λ r, success r = false) r.2).
Proof.
  intros H1 H2. induction pairs as [|[i ph] pairs IH]; intros acc; simpl.
  { rewrite app_nil_r. by repeat split. }
  destruct (IH (resolve D1 D2 acc (i, ph))) as (IHa & IHb & IHc).
  unfold occurrences. simpl. rewrite filter_cons.
  split; [|split].
  - intros Hacc. apply IHa. unfold resolve. simpl.
    destruct (D1 !! i) as [a|] eqn:E1; simpl.
    { apply Forall_app. split; [done|]. repeat constructor. simpl. congruence. }
    destruct (D2 !! i) as [a|] eqn:E2; simpl; [|done].
    apply Forall_app. split; [done|]. repeat constructor. simpl. congruence.
  - rewrite IHb. unfold resolve. simpl. destruct (decide (i = x)) as [->|Hne].
    + rewrite H1, H2. simpl. rewrite responses_for_app, <- app_assoc. f_equal.
      unfold responses_for. rewrite filter_cons, decide_True by done. done.
    + destruct (D1 !! i) as [a|] eqn:E1; simpl; [done|].
      destruct (D2 !! i) as [a|] eqn:E2; simpl; [done|].
      rewrite responses_for_app. unfold responses_for at 2.
      rewrite filter_cons, decide_False by done. simpl. by rewrite app_nil_r.
  - intros Hacc. apply IHc. unfold resolve. simpl.
    destruct (D1 !! i) as [a|] eqn:E1; simpl; [done|].
    destruct (D2 !! i) as [a|] eqn:E2; simpl; [done|].
    apply Forall_app. split; [done|]. by repeat constructor.
Qed.

Lemma resolve_failures (D1 D2 : gmap Z Asset) pairs :
  ∀ acc, Forall (λ r, success r = false) acc.2 →
         Forall (λ r, success r = false) (foldl (resolve D1 D2) acc pairs).2.
Proof.
  induction pairs as [|[i ph] pairs IH]; intros acc Hacc; simpl; [done|].
  apply IH. unfold resolve. simpl.
  destruct (D1 !! i) as [a|] eqn:E1; simpl; [done|].
  destruct (D2 !! i) as [a|] eqn:E2; simpl; [done|].
  apply Forall_app. split; [done|]. by repeat constructor.
Qed.

(** *** The whole call *)

Lemma next_outcome_consumed w :
  ∃ o w1, next_outcome w = (Ok o, w1) ∧ outcomes_consumed w w1
          ∧ (∀ e, o = Fails e → Fails e ∈ statement_outcomes w).
Proof.
  unfold next_outcome. destruct w as [a t cm d1 d2 sf so ev]; simpl.
  destruct so as [|o so]; eexists _, _; (split; [done|]); (split; [done|]).
  - by intros e [=].
  - intros e ->. by left.
Qed.

Lemma outcomes_consumed_trans w1 w2 w3 :
  outcomes_consumed w1 w2 → outcomes_consumed w2 w3 → outcomes_consumed w1 w3.
Proof.
  intros (? & ? & ? & ? & ? & ? & ?) (? & ? & ? & ? & ? & ? & ?).
  split_and!; congruence.
Qed.

Lemma planned_consumed ids photos w w1 :
  outcomes_consumed w w1 → planned ids photos w1 = planned ids photos w.
Proof. intros (Ha & Hc & _). unfold planned. by rewrite Ha, Hc. Qed.

(** Phase 1 reads both tables, and raises only when a SELECT does. *)
Lemma resolution_phase_cases ids photos w :
  ∃ r w1, resolution_phase ids photos w = (r, w1)
          ∧ outcomes_consumed w w1
          ∧ (∀ p, r = Ok p → p = planned ids photos w)
          ∧ (∀ e, r = Raise e → Fails e ∈ statement_outcomes w).
Proof.
  unfold resolution_phase, _get_assets_by_ids_internos,
    _get_conflictive_assets_by_ids_internos, next_outcome.
  unfold_m. destruct w as [a t cm d1 d2 sf so ev]; simpl.
  destruct so as [|o1 so]; simpl.
  { eexists _, _. split; [done|]. split; [done|]. split; [by intros ? [= <-]|done]. }
  destruct o1 as [| |e1]; simpl.
  - destruct so as [|[| |e2] so]; simpl; eexists _, _; (split; [done|]); (split; [done|]);
      (split; [try (by intros ? [= <-]); done|]); try done.
    intros e [= <-]. right. by left.
  - destruct so as [|[| |e2] so]; simpl; eexists _, _; (split; [done|]); (split; [done|]);
      (split; [try (by intros ? [= <-]); done|]); try done.
    intros e [= <-]. right. by left.
  - eexists _, _. split; [done|]. split; [done|]. split; [done|].
    intros e [= <-]. by left.
Qed.

(** A call that returns has passed the four checks, read both tables,
    run the three loops, and come out of phase 3 without an exception. *)
Lemma bulk_photo_upload_returns cfg ids photos w resp w' :
  bulk_photo_upload cfg ids photos w = (Ok resp, w') → validated cfg ids photos.
Proof.
  unfold bulk_photo_upload, validated. unfold_m.
  destruct (res_unit_cases (validate_request_limits cfg photos)) as [->|[e ->]]; [|done].
  destruct (res_unit_cases (validate_photo_and_asset_length ids photos)) as [->|[e ->]];
    [|done].
  destruct (res_unit_cases (validate_photo_extensions cfg photos)) as [->|[e ->]]; [|done].
  destruct (res_unit_cases (validate_photo_sizes cfg photos)) as [->|[e ->]]; [|done].
  done.
Qed.

(** The course of a call whose request passes the checks: an exception
    of a SELECT or of the rollback leaves the call; otherwise the call
    returns the results of the three loops. *)
Lemma bulk_photo_upload_validated (Q : plan_item → Prop) cfg ids photos w :
  validated cfg ids photos →
  Forall Q (planned ids photos w).1.1 →
  (∃ e w1,
     resolution_phase ids photos w = (Raise e, w1)
     ∧ bulk_photo_upload cfg ids photos w = (Raise e, w1)
     ∧ outcomes_consumed w w1
     ∧ Fails e ∈ statement_outcomes w)
  ∨ ∃ w1 saved w2 r w',
      resolution_phase ids photos w = (Ok (planned ids photos w), w1)
      ∧ outcomes_consumed w w1
      ∧ foldM save_item ([], [], (planned ids photos w).2) (planned ids photos w).1.1 w1
        = (Ok saved, w2)
      ∧ database_phase saved.1.1 w2 = (r, w')
      ∧ bulk_photo_upload cfg ids photos w
        = (match r with
           | Ok updated =>
               Ok (response_of ids (saved.2 ++ (reconcile updated <$> saved.1.1)))
           | Raise e => Raise e
           end, w')
      ∧ committed w2 = committed w
      ∧ Forall Q saved.1.1
      ∧ (∃ fails, saved.2 = (planned ids photos w).2 ++ fails
                  ∧ Forall (λ r, success r = false
                                 ∧ ∃ it, Q it ∧ response_id_interno r = plan_id_interno it)
                      fails)
      ∧ calls_between (names_only Q) w w'
      ∧ (∀ updated, r = Ok updated →
         saved.1.1 ≠ [] → (∃ e w3, database_updates saved.1.1 w2 = (Raise e, w3)) →
         updated = ∅
         ∧ asset_table w' = (committed w).1
         ∧ conflictive_asset_table w' = (committed w).2)
      ∧ (∀ e, r = Raise e →
         saved.1.1 ≠ [] ∧ committed w' = committed w
         ∧ ∃ evs, events w' = events w ++ evs ++ [Rollback]).
Proof.
  intros (V1 & V2 & V3 & V4) HQ.
  destruct (resolution_phase_cases ids photos w) as (r1 & w1 & Hres & Hw1 & Hplan & Hsel).
  destruct r1 as [p|e].
  2:{ left. exists e, w1. split; [done|]. split; [|by auto].
      unfold bulk_photo_upload. unfold_m. by rewrite V1, V2, V3, V4, Hres. }
  rewrite (Hplan p eq_refl) in Hres. clear Hplan Hsel p.
  right.
  destruct (save_items_spec Q _ HQ ([], [], (planned ids photos w).2) w1)
    as (saved & w2 & su & fails & Hsave & Ha & Hc & Hcm & Hso & Hcalls & Hsu & HQsu
        & Hf & Hfails).
  simpl in Hsu, Hf. subst su.
  destruct (database_phase_cases Q saved.1.1 w2 HQsu)
    as (r & w' & Hdb & Hcalls' & Hfail & Hraise).
  destruct Hw1 as (Ha1 & Hc1 & Hcm1 & Hd1 & Hd2 & Hsf1 & Hev1).
  exists w1, saved, w2, r, w'.
  split; [done|]. split; [done|]. split; [done|]. split; [done|]. split.
  { unfold bulk_photo_upload. unfold_m. rewrite V1, V2, V3, V4, Hres, Hsave, Hdb.
    by destruct r. }
  split; [congruence|]. split; [done|]. split; [by exists fails|]. split; [|split].
  - destruct Hcalls as (evs & Hevs & Hnames). destruct Hcalls' as (evs' & Hevs' & Hnames').
    exists (evs ++ evs'). split; [by rewrite Hevs', Hevs, Hev1, app_assoc|].
    apply Forall_app. split; [|done].
    eapply Forall_impl; [exact Hnames|].
    intros ev (it & Hit & Hev) i Hi. exists it. split; [done|]. congruence.
  - intros updated Hr Hne Hup. rewrite <- Hcm1, <- Hcm. by apply (Hfail updated).
  - intros e Hr. destruct (Hraise e Hr) as (Hne & Hcm' & evs & Hevs). split; [done|].
    split; [congruence|]. destruct Hcalls as (evs0 & Hevs0 & _).
    exists (evs0 ++ evs). by rewrite Hevs, Hevs0, Hev1, <- !app_assoc.
Qed.

(** A call that returns, read backwards. *)
Lemma bulk_photo_upload_ok (Q : plan_item → Prop) cfg ids photos w resp w' :
  bulk_photo_upload cfg ids photos w = (Ok resp, w') →
  Forall Q (planned ids photos w).1.1 →
  ∃ w1 saved w2 updated,
    outcomes_consumed w w1
    ∧ foldM save_item ([], [], (planned ids photos w).2) (planned ids photos w).1.1 w1
      = (Ok saved, w2)
    ∧ database_phase saved.1.1 w2 = (Ok updated, w')
    ∧ resp = response_of ids (saved.2 ++ (reconcile updated <$> saved.1.1))
    ∧ committed w2 = committed w
    ∧ Forall Q saved.1.1
    ∧ (∃ fails, saved.2 = (planned ids photos w).2 ++ fails
                ∧ Forall (λ r, success r = false
                               ∧ ∃ it, Q it ∧ response_id_interno r = plan_id_interno it)
                    fails)
    ∧ calls_between (names_only Q) w w'
    ∧ (saved.1.1 ≠ [] → (∃ e w3, database_updates saved.1.1 w2 = (Raise e, w3)) →
       updated = ∅
       ∧ asset_table w' = (committed w).1
       ∧ conflictive_asset_table w' = (committed w).2).
Proof.
  intros Hrun HQ. pose proof (bulk_photo_upload_returns _ _ _ _ _ _ Hrun) as Hval.
  destruct (bulk_photo_upload_validated Q cfg ids photos w Hval HQ)
    as [(e & w1 & _ & Hrun' & _)
       |(w1 & saved & w2 & r & w3 & _ & Hw1 & Hsave & Hdb & Hrun' & Hcm & HQs & Hfails
         & Hcalls & Hfail & _)];
    rewrite Hrun in Hrun'; [done|].
  destruct r as [updated|e]; [|done]. injection Hrun' as -> ->.
  exists w1, saved, w2, updated. split_and!; try done. by apply Hfail.
Qed.

Lemma responses_for_none x rs :
  Forall (λ r, response_id_interno r ≠ x) rs → responses_for x rs = [].
Proof.
  induction 1 as [|r rs Hr Hrs IH]; [done|].
  unfold responses_for in *. by rewrite filter_cons, decide_False.
Qed.

Lemma validated_lengths cfg ids photos :
  validated cfg ids photos → length ids = length photos.
Proof.
  intros (_ & V & _). unfold validate_photo_and_asset_length in V.
  case_bool_decide as H; [done|]. lia.
Qed.

(** C7 (as amended): in a call that returns, an id that is in neither
    table gets, for each pair of the request that carries it, one failed
    result with the not-found reason and no other result (exactly one
    when it occurs once); no save and no update statement of the call
    names it. *)
Theorem unresolved_id_is_excluded (cfg : config) (ids_internos : list Z)
    (photos : list UploadFile) (w w' : world) (resp : BulkPhotoUploadResponse) (x : Z) :
  bulk_photo_upload cfg ids_internos photos w = (Ok resp, w') →
  (∀ a, a ∈ asset_table w → id_interno a ≠ x) →
  (∀ a, a ∈ conflictive_asset_table w → id_interno a ≠ x) →
  responses_for x (results resp)
  = replicate (occurrences x ids_internos) (not_found_response x)
  ∧ (occurrences x ids_internos = 1 →
     responses_for x (results resp) = [not_found_response x])
  ∧ calls_between (λ ev, event_id ev ≠ Some x) w w'.
Proof.
  intros Hrun Hx1 Hx2.
  pose proof (bulk_photo_upload_returns _ _ _ _ _ _ Hrun) as Hval.
  pose proof (validated_lengths _ _ _ Hval) as Hlen.
  pose proof (resolve_unresolved _ _ x (zip_pairs ids_internos photos)
                (unresolved_lookup _ ids_internos x Hx1)
                (unresolved_lookup _ ids_internos x Hx2) ([], [], [])) as (Hplan & Hres & _).
  fold (planned ids_internos photos w) in Hplan, Hres. simpl in Hplan, Hres.
  unfold zip_pairs in Hres. rewrite fst_zip in Hres by lia.
  destruct (bulk_photo_upload_ok (λ it, plan_id_interno it ≠ x) cfg ids_internos
              photos w resp w' Hrun (Hplan (Forall_nil_2 _)))
    as (w1 & saved & w2 & updated & _ & _ & _ & -> & _ & Hsu & (fails & Hsaved & Hfails)
        & Hcalls & _).
  assert (Hall : responses_for x (results (response_of ids_internos
                   (saved.2 ++ (reconcile updated <$> saved.1.1))))
                 = replicate (occurrences x ids_internos) (not_found_response x)).
  { simpl. rewrite Hsaved, !responses_for_app, Hres.
    rewrite (responses_for_none x fails), (responses_for_none x (_ <$> _)).
    - by rewrite !app_nil_r.
    - apply Forall_fmap. eapply Forall_impl; [exact Hsu|]. intros it Hit.
      simpl. unfold reconcile. by destruct (bool_decide _).
    - eapply Forall_impl; [exact Hfails|]. intros r (_ & it & Hit & ->). done. }
  split; [done|]. split.
  - intros H1. by rewrite Hall, H1.
  - eapply calls_between_impl; [|done]. intros ev Hev Hx.
    destruct (Hev x Hx) as (it & Hit & Hid). done.
Qed.

(** C1: ids 1 (asset table) and 2 (conflictive table), both photos
    saved; the UPDATE of the asset table runs and returns id 1, then the
    UPDATE of the conflictive table raises. Both tables are updated in
    one [try], whose handler rolls the session back and clears the ids
    confirmed so far: the result for id 1, of the other table, is the
    failure, not a success, and its row is as last committed, without
    the name of its photo, while its photo is in the directory. *)
Theorem other_table_update_is_discarded :
  let w := demo_world [Runs; Runs; Runs; Fails connection_lost] in
  let items := [demo_item 1 false (Build_UploadFile "a.jpg" "x" None);
                demo_item 2 true (Build_UploadFile "b.JPG" "y" None)] in
  let w1 := (resolution_phase [1; 2]%Z demo_photos w).2 in
  let w2 := (foldM save_item ([], [], []) items w1).2 in
  let w3 := (update_table [to_update_data (demo_item 1 false
                                             (Build_UploadFile "a.jpg" "x" None))]
               false w2).2 in
  let w' := (bulk_photo_upload demo_config [1; 2]%Z demo_photos w).2 in
  (resolution_phase [1; 2]%Z demo_photos w).1 = Ok (items, [], [])
  ∧ (foldM save_item ([], [], []) items w1).1 = Ok (items, [], [])
  ∧ (update_table [to_update_data (demo_item 1 false (Build_UploadFile "a.jpg" "x" None))]
       false w2).1 = Ok {[ 1%Z ]}
  ∧ nombre_foto_codigo_barra <$> asset_table w3 = [Some "20240307_1_codigo_barra.jpg"]
  ∧ (update_table [to_update_data (demo_item 2 true (Build_UploadFile "b.JPG" "y" None))]
       true w3).1 = Raise connection_lost
  ∧ (bulk_photo_upload demo_config [1; 2]%Z demo_photos w).1
    = Ok (response_of [1; 2]%Z
            [inconsistent_response (demo_item 1 false (Build_UploadFile "a.jpg" "x" None));
             inconsistent_response (demo_item 2 true (Build_UploadFile "b.JPG" "y" None))])
  ∧ events w'
    = [Save 1 "20240307_1_codigo_barra.jpg" false;
       Save 2 "20240307_2_codigo_barra.jpg" true;
       Update false 1 "20240307_1_codigo_barra.jpg";
       Update true 2 "20240307_2_codigo_barra.jpg";
       Rollback]
  ∧ nombre_foto_codigo_barra <$> asset_table w' = [None]
  ∧ asset_photos_dir w' !! "20240307_1_codigo_barra.jpg" = Some "x".
Proof. by vm_compute. Qed.

Lemma unresolved_id_is_excluded_witness :
  let w := demo_world [] in
  let r := bulk_photo_upload demo_config [9; 1]%Z demo_photos w in
  responses_for 9 [not_found_response 9;
                   reconcile {[ 1%Z ]} (demo_item 1 false (Build_UploadFile "b.JPG" "y" None))]
  = replicate (occurrences 9 [9; 1]%Z) (not_found_response 9)
  ∧ (occurrences 9 [9; 1]%Z = 1 →
     responses_for 9 [not_found_response 9;
                      reconcile {[ 1%Z ]} (demo_item 1 false (Build_UploadFile "b.JPG" "y" None))]
     = [not_found_response 9])
  ∧ calls_between (λ ev, event_id ev ≠ Some 9%Z) w r.2.
Proof.
  intros w r.
  apply (unresolved_id_is_excluded demo_config [9; 1]%Z demo_photos w r.2
           (response_of [9; 1]%Z
              [not_found_response 9;
               reconcile {[ 1%Z ]} (demo_item 1 false (Build_UploadFile "b.JPG" "y" None))]) 9%Z).
  - by vm_compute.
  - intros a Ha. apply list_elem_of_In in Ha. simpl in Ha. by destruct Ha as [<-|[]].
  - intros a Ha. apply list_elem_of_In in Ha. simpl in Ha. by destruct Ha as [<-|[]].
Defined.

(** C7, counterexample: the request carries the unknown id 9 twice, and
    the output holds two failed results for it, not one. *)
Lemma unknown_id_twice_gets_two_results :
  bulk_photo_upload demo_config [9; 9]%Z demo_photos (demo_world [])
  = (Ok (response_of [9; 9]%Z [not_found_response 9; not_found_response 9]),
     demo_world [])
  ∧ length (responses_for 9 [not_found_response 9; not_found_response 9]) = 2.
Proof. split; by vm_compute. Qed.

End PhotoUploadFacts.

Module AssetReportFacts.
Local Open Scope list_scope.
Local Open Scope nat_scope.
Import Models AssetReport AssetReportSpec.

Lemma string_app_assoc (a b c : string) : (a +:+ b) +:+ c = a +:+ (b +:+ c).
Proof. induction a as [|x a IH]; [done|]. exact (f_equal (String x) IH). Qed.

Lemma string_app_cons (x : ascii) (a b : string) :
  String x a +:+ b = String x (a +:+ b).
Proof. reflexivity. Qed.

Lemma contains_app c (a b : string) :
  contains c (a +:+ b) = contains c a || contains c b.
Proof.
  induction a as [|x a IH]; [done|]. rewrite string_app_cons. simpl.
  by destruct (decide (x = c)).
Qed.

(** A text without [<] holds no start of the tag. *)
Lemma count_skip (a b needle : string) :
  contains "<" a = false →
  count_occurrences (String "<" needle) (a +:+ b)
  = count_occurrences (String "<" needle) b.
Proof.
  induction a as [|x a IH]; [done|]. rewrite string_app_cons. simpl.
  destruct (decide (x = "<"%char)) as [->|Hx]; [done|]. intros Ha.
  rewrite decide_False by congruence. by rewrite IH.
Qed.

Lemma contains_replace_char (d c : ascii) (by_ s : string) :
  contains d by_ = false → contains d s = false ∨ c = d →
  contains d (replace_char c by_ s) = false.
Proof.
  intros Hby. induction s as [|x s IH]; simpl; [done|]. intros Hs.
  destruct (decide (x = c)) as [->|Hxc].
  - rewrite contains_app, Hby. simpl. apply IH.
    destruct Hs as [Hs|Hs]; [|by right]. destruct (decide (c = d)); [by right|by left].
  - simpl. destruct (decide (x = d)) as [->|Hxd].
    + destruct Hs as [Hs|Hs]; [done|congruence].
    + apply IH. destruct Hs as [Hs|Hs]; [by left|by right].
Qed.

Lemma _escape_xml_free (text : string) : contains "<" (_escape_xml text) = false.
Proof.
  unfold _escape_xml.
  do 3 (apply contains_replace_char; [done|left]).
  apply contains_replace_char; [done|by right].
Qed.

(** *** The pattern *)

Section pattern_facts.

Variable Nd : N → bool.
Hypothesis Nd_hyphen_minus : Nd hyphen_minus = false.
Hypothesis Nd_full_stop : Nd full_stop = false.

Lemma span_digits_spec (s : list N) :
  s = (span_digits Nd s).1 ++ (span_digits Nd s).2
  ∧ Forall (λ c, Nd c = true) (span_digits Nd s).1.
Proof.
  induction s as [|c s [IH1 IH2]]; simpl; [done|].
  destruct (Nd c) eqn:E; simpl; [|done].
  split; [by f_equal|by constructor].
Qed.

(** A run of Forall (λ c, Nd c = true) followed by the full stop is read whole. *)
Lemma span_digits_run (d r : list N) :
  Forall (λ c, Nd c = true) d → span_digits Nd (d ++ full_stop :: r) = (d, full_stop :: r).
Proof.
  induction 1 as [|c d Hc Hd IH]; simpl.
  - by rewrite Nd_full_stop.
  - by rewrite Hc, IH.
Qed.

(** Digits that start a text are the start of its longest run. *)
Lemma span_digits_prefix (f rest : list N) :
  Forall (λ c, Nd c = true) f →
  ∃ f' rest', span_digits Nd (f ++ rest) = (f ++ f', rest') ∧ rest = f' ++ rest'.
Proof.
  induction 1 as [|c f Hc Hf (f' & rest' & IH & Hrest)]; simpl.
  - exists (span_digits Nd rest).1, (span_digits Nd rest).2.
    split; [by destruct (span_digits Nd rest)|apply span_digits_spec].
  - rewrite Hc, IH. simpl. by exists f', rest'.
Qed.

Lemma match_decimal_Some (s m rest : list N) :
  match_decimal Nd s = Some (m, rest) →
  ∃ i f, m = i ++ full_stop :: f ∧ s = m ++ rest
         ∧ i ≠ [] ∧ Forall (λ c, Nd c = true) i ∧ f ≠ [] ∧ Forall (λ c, Nd c = true) f.
Proof.
  unfold match_decimal. destruct (span_digits_spec s) as [Hs Hd].
  destruct (span_digits Nd s) as [i r]. simpl in *.
  destruct i as [|a i]; [done|]. destruct r as [|c r]; [done|].
  destruct (decide (c = full_stop)) as [->|]; [|done].
  destruct (span_digits_spec r) as [Hr Hf].
  destruct (span_digits Nd r) as [f r']. simpl in *.
  destruct f as [|b f]; [done|]. intros [= <- <-].
  exists (a :: i), (b :: f). split; [done|]. split; [|done].
  rewrite Hs, Hr. simpl. by rewrite <- app_assoc.
Qed.

Lemma match_decimal_complete (i f rest : list N) :
  i ≠ [] → Forall (λ c, Nd c = true) i → f ≠ [] → Forall (λ c, Nd c = true) f →
  ∃ f' rest',
    match_decimal Nd (i ++ full_stop :: f ++ rest)
    = Some (i ++ full_stop :: f ++ f', rest')
    ∧ rest = f' ++ rest'.
Proof.
  intros Hi Hdi Hf Hdf. unfold match_decimal.
  rewrite (span_digits_run i (f ++ rest)) by done.
  destruct i as [|a i]; [done|]. rewrite decide_True by done.
  destruct (span_digits_prefix f rest Hdf) as (f' & rest' & -> & ->).
  destruct f as [|b f]; [done|]. simpl. by exists f', rest'.
Qed.

Lemma decimal_number_nonempty (m : list N) : decimal_number Nd m → m ≠ [].
Proof.
  intros (sign & i & f & -> & _ & Hi & _). destruct sign; [|done]. by destruct i.
Qed.

(** Where a decimal number starts a text, the pattern matches, and
    what it matches is no shorter. *)
Lemma match_here_complete (s m' rest' : list N) :
  s = m' ++ rest' → decimal_number Nd m' →
  ∃ m rest, match_here Nd s = Some (m, rest) ∧ s = m ++ rest ∧ length m' ≤ length m.
Proof.
  intros -> (sign & i & f & -> & Hsign & Hi & Hdi & Hf & Hdf).
  destruct (match_decimal_complete i f rest' Hi Hdi Hf Hdf) as (f' & r' & Hm & ->).
  assert (Hshape : (i ++ full_stop :: f) ++ f' ++ r' = i ++ full_stop :: f ++ f' ++ r').
  { by rewrite <- app_assoc. }
  assert (Hwhole : (i ++ full_stop :: f ++ f') ++ r' = i ++ full_stop :: f ++ f' ++ r').
  { rewrite <- app_assoc. simpl. by rewrite <- app_assoc. }
  assert (Hlen : length (i ++ full_stop :: f) ≤ length (i ++ full_stop :: f ++ f')).
  { rewrite !length_app. simpl. rewrite length_app. lia. }
  destruct Hsign as [-> | ->]; cbn [app].
  - rewrite Hshape. exists (i ++ full_stop :: f ++ f'), r'. split; [|by rewrite Hwhole].
    unfold match_here. destruct i as [|a i]; [done|]. cbn [app].
    apply Forall_cons in Hdi as [Ha _].
    rewrite decide_False by (intros ->; congruence). exact Hm.
  - rewrite Hshape. exists (hyphen_minus :: i ++ full_stop :: f ++ f'), r'.
    split; [|split].
    + unfold match_here. rewrite decide_True by done. by rewrite Hm.
    + cbn [app]. by rewrite Hwhole.
    + simpl. lia.
Qed.

Lemma match_here_Some (s m rest : list N) :
  match_here Nd s = Some (m, rest) → s = m ++ rest ∧ decimal_number Nd m.
Proof.
  assert (Hplain : ∀ s, match_decimal Nd s = Some (m, rest) →
                        s = m ++ rest ∧ decimal_number Nd m).
  { intros s0 (i & f & -> & Hs & Hi & Hdi & Hf & Hdf)%match_decimal_Some.
    split; [done|]. exists [], i, f. split_and!; auto. }
  unfold match_here. destruct s as [|c s]; [by apply Hplain|].
  destruct (decide (c = hyphen_minus)) as [->|]; [|by apply Hplain].
  destruct (match_decimal Nd s) as [[m0 r0]|] eqn:E; [|by apply Hplain].
  intros [= <- <-].
  apply match_decimal_Some in E as (i & f & -> & -> & Hi & Hdi & Hf & Hdf).
  split; [done|]. exists [hyphen_minus], i, f. split_and!; auto.
Qed.

(** The pattern matches the longest decimal number that starts the
    text, and fails only where none starts it. *)
Lemma match_here_sound (s m rest : list N) :
  match_here Nd s = Some (m, rest) → matches_at_start Nd s m rest.
Proof.
  intros H. destruct (match_here_Some _ _ _ H) as [Hs Hd].
  split; [done|]. split; [done|]. intros m' rest' Hs' Hd'.
  destruct (match_here_complete s m' rest' Hs' Hd') as (m2 & r2 & H2 & _ & Hle).
  rewrite H in H2. by injection H2 as <- <-.
Qed.

Lemma match_here_None (s : list N) :
  match_here Nd s = None → ∀ m rest, ¬ matches_at_start Nd s m rest.
Proof.
  intros H m rest (Hs & Hd & _).
  destruct (match_here_complete s m rest Hs Hd) as (? & ? & H2 & _).
  by rewrite H in H2.
Qed.

Lemma matches_at_start_match_here (s m rest : list N) :
  matches_at_start Nd s m rest → match_here Nd s = Some (m, rest).
Proof.
  intros (Hs & Hd & Hmax).
  destruct (match_here_complete s m rest Hs Hd) as (m2 & r2 & H2 & Hs2 & Hle).
  destruct (match_here_Some _ _ _ H2) as [_ Hd2].
  pose proof (Hmax m2 r2 Hs2 Hd2) as Hge.
  rewrite Hs in Hs2. apply app_inj_1 in Hs2 as [-> ->]; [done|lia].
Qed.

(** [findall] returns the matches of the pattern, and nothing else does. *)
Lemma findall_from_found (fuel : nat) :
  ∀ s, length s < fuel → found Nd s (findall_from Nd fuel s).
Proof.
  induction fuel as [|fuel IH]; intros s Hlen; [lia|]. cbn [findall_from].
  destruct (match_here Nd s) as [[m rest]|] eqn:E.
  - apply found_match with rest; [by apply match_here_sound|]. apply IH.
    destruct (match_here_Some _ _ _ E) as [-> Hd]. apply decimal_number_nonempty in Hd.
    rewrite length_app in Hlen. destruct m; [done|]. simpl in *. lia.
  - destruct s as [|c s]; [constructor|].
    apply found_skip; [by apply match_here_None|]. apply IH. simpl in Hlen. lia.
Qed.

Lemma found_findall (s : list N) (ms : list (list N)) :
  found Nd s ms → ∀ fuel, length s < fuel → findall_from Nd fuel s = ms.
Proof.
  induction 1 as [|s m rest ms Hm Hf IH|c s ms Hno Hf IH]; intros fuel Hlen;
    (destruct fuel as [|fuel]; [lia|]); cbn [findall_from].
  - done.
  - rewrite (matches_at_start_match_here _ _ _ Hm). f_equal. apply IH.
    destruct Hm as (-> & Hd & _). apply decimal_number_nonempty in Hd.
    destruct m; [done|]. rewrite length_app in Hlen. simpl in Hlen. lia.
  - destruct (match_here Nd (c :: s)) as [[m rest]|] eqn:E.
    + by apply match_here_sound, Hno in E.
    + apply IH. simpl in Hlen. lia.
Qed.

Lemma parses_findall (g : list N) : parses Nd (Some g) ↔ 2 ≤ length (findall Nd g).
Proof.
  split.
  - intros (g' & ms & [= <-] & Hf & Hl). unfold findall.
    rewrite (found_findall _ _ Hf); [done|lia].
  - intros H. exists g, (findall Nd g). split; [done|]. split; [|done].
    apply findall_from_found. lia.
Qed.

Lemma parses_None : ¬ parses Nd None.
Proof. by intros (g & ms & [=] & _). Qed.

Lemma parse_count_app (l1 l2 : list (option (list N))) (n1 n2 : nat) :
  parse_count Nd l1 n1 → parse_count Nd l2 n2 → parse_count Nd (l1 ++ l2) (n1 + n2).
Proof.
  induction 1 as [|g gs n Hg Hgs IH|g gs n Hg Hgs IH]; intros H2; simpl; [done|..].
  - apply parse_count_yes; auto.
  - apply parse_count_no; auto.
Qed.

Lemma parse_count_le (l : list (option (list N))) (n : nat) :
  parse_count Nd l n → n ≤ length l.
Proof. induction 1; simpl; lia. Qed.

(** The number of texts that parse is determined. *)
Lemma parse_count_functional (l : list (option (list N))) (n n' : nat) :
  parse_count Nd l n → parse_count Nd l n' → n = n'.
Proof.
  intros H. revert n'. induction H as [|g gs n Hg Hgs IH|g gs n Hg Hgs IH]; intros n' H';
    inversion H'; subst; try done; auto.
Qed.

End pattern_facts.

(** *** The report *)

Section report_facts.

Context {float : Type}.

Variable Nd : N → bool.
Hypothesis Nd_hyphen_minus : Nd hyphen_minus = false.
Hypothesis Nd_full_stop : Nd full_stop = false.

Variable float_of_string : list N → float.

Variable float_text : float → string.

Lemma _parse_georef_parses (g : option (list N)) :
  (parses Nd g ∧ ∃ la lo, _parse_georef Nd float_of_string g = (Some la, Some lo))
  ∨ (¬ parses Nd g ∧ _parse_georef Nd float_of_string g = (None, None)).
Proof.
  destruct g as [g|]; [|right; split; [by apply parses_None|done]].
  pose proof (parses_findall Nd Nd_hyphen_minus Nd_full_stop g) as Hp.
  destruct g as [|c g].
  { right. split; [|done]. rewrite Hp. vm_compute. lia. }
  simpl. destruct (findall Nd (c :: g)) as [|m0 [|m1 l]]; simpl in Hp.
  - right. split; [|done]. rewrite Hp. lia.
  - right. split; [|done]. rewrite Hp. lia.
  - left. split; [|by eexists _, _]. rewrite Hp. lia.
Qed.

Lemma collect_asset_count (acc : list (valid_asset (float:=float)) * nat) (a : Asset) :
  (parses Nd (georeferenciacion a)
   ∧ length (collect_asset Nd float_of_string acc a).1 = S (length acc.1)
   ∧ (collect_asset Nd float_of_string acc a).2 = acc.2)
  ∨ (¬ parses Nd (georeferenciacion a)
     ∧ length (collect_asset Nd float_of_string acc a).1 = length acc.1
     ∧ (collect_asset Nd float_of_string acc a).2 = S acc.2).
Proof.
  unfold collect_asset.
  destruct (_parse_georef_parses (georeferenciacion a)) as [[Hp (la & lo & ->)]|[Hp ->]].
  - left. split; [done|]. simpl. rewrite length_app. simpl. split; [lia|done].
  - by right.
Qed.

Lemma collect_dict_count (acc : list (valid_asset (float:=float)) * nat) (d : asset_dict) :
  (parses Nd (Some (default [] (d_georeferenciacion d)))
   ∧ length (collect_dict Nd float_of_string acc d).1 = S (length acc.1)
   ∧ (collect_dict Nd float_of_string acc d).2 = acc.2)
  ∨ (¬ parses Nd (Some (default [] (d_georeferenciacion d)))
     ∧ length (collect_dict Nd float_of_string acc d).1 = length acc.1
     ∧ (collect_dict Nd float_of_string acc d).2 = S acc.2).
Proof.
  unfold collect_dict.
  destruct (_parse_georef_parses (Some (default [] (d_georeferenciacion d))))
    as [[Hp (la & lo & ->)]|[Hp ->]].
  - left. split; [done|]. simpl. rewrite length_app. simpl. split; [lia|done].
  - by right.
Qed.

Lemma collect_assets_count (assets : list Asset) :
  ∀ acc : list (valid_asset (float:=float)) * nat,
    ∃ n, parse_count Nd (georeferenciacion <$> assets) n
         ∧ length (foldl (collect_asset Nd float_of_string) acc assets).1 = length acc.1 + n
         ∧ (foldl (collect_asset Nd float_of_string) acc assets).2
           = acc.2 + (length assets - n).
Proof.
  induction assets as [|a assets IH]; intros acc.
  { exists 0. split; [constructor|]. simpl. lia. }
  rewrite fmap_cons. cbn [foldl].
  destruct (IH (collect_asset Nd float_of_string acc a)) as (n & Hn & -> & ->).
  pose proof (parse_count_le Nd _ _ Hn) as Hle. rewrite length_fmap in Hle.
  destruct (collect_asset_count acc a) as [(Hp & -> & ->)|(Hp & -> & ->)].
  - exists (S n). split; [by apply parse_count_yes|]. simpl. lia.
  - exists n. split; [by apply parse_count_no|]. simpl. lia.
Qed.

Lemma collect_dicts_count (ds : list asset_dict) :
  ∀ acc : list (valid_asset (float:=float)) * nat,
    ∃ n, parse_count Nd ((λ d, Some (default [] (d_georeferenciacion d))) <$> ds) n
         ∧ length (foldl (collect_dict Nd float_of_string) acc ds).1 = length acc.1 + n
         ∧ (foldl (collect_dict Nd float_of_string) acc ds).2 = acc.2 + (length ds - n).
Proof.
  induction ds as [|d ds IH]; intros acc.
  { exists 0. split; [constructor|]. simpl. lia. }
  rewrite fmap_cons. cbn [foldl].
  destruct (IH (collect_dict Nd float_of_string acc d)) as (n & Hn & -> & ->).
  pose proof (parse_count_le Nd _ _ Hn) as Hle. rewrite length_fmap in Hle.
  destruct (collect_dict_count acc d) as [(Hp & -> & ->)|(Hp & -> & ->)].
  - exists (S n). split; [by apply parse_count_yes|]. simpl. lia.
  - exists n. split; [by apply parse_count_no|]. simpl. lia.
Qed.

Hypothesis float_text_plain : ∀ f, contains "<" (float_text f) = false.

Lemma placemark_of_count (va : valid_asset (float:=float)) (rest : string) :
  count_occurrences "<Placemark>" (placemark_of float_text va +:+ rest)
  = S (count_occurrences "<Placemark>" rest).
Proof.
  unfold placemark_of.
  set (name := match _escape_xml (v_elemento va) with
               | EmptyString => _escape_xml (v_id_interno va)
               | _ => _escape_xml (v_id_interno va) +:+ " - " +:+ _escape_xml (v_elemento va)
               end).
  assert (Hname : contains "<" name = false).
  { unfold name. destruct (_escape_xml (v_elemento va)) eqn:E.
    - apply _escape_xml_free.
    - rewrite <- E, !contains_app, !_escape_xml_free. done. }
  clearbody name. rewrite !string_app_assoc.
  match goal with
  | |- count_occurrences ?n (?a +:+ ?t) = _ =>
      change (count_occurrences n (a +:+ t)) with (S (count_occurrences n t))
  end.
  f_equal. rewrite (count_skip name) by done.
  match goal with
  | |- count_occurrences ?n (?a +:+ ?t) = _ =>
      change (count_occurrences n (a +:+ t)) with (count_occurrences n t)
  end.
  rewrite (count_skip (float_text (lon va))) by done.
  match goal with
  | |- count_occurrences ?n (?a +:+ ?t) = _ =>
      change (count_occurrences n (a +:+ t)) with (count_occurrences n t)
  end.
  rewrite (count_skip (float_text (lat va))) by done.
  reflexivity.
Qed.

Lemma placemarks_count (vas : list (valid_asset (float:=float))) :
  count_occurrences "<Placemark>" (join (placemark_of float_text <$> vas) +:+ kml_footer)
  = length vas.
Proof.
  induction vas as [|va vas IH]; [done|].
  rewrite fmap_cons. unfold join in *. cbn [foldr].
  by rewrite string_app_assoc, placemark_of_count, IH.
Qed.

Lemma kml_header_count (rest : string) :
  count_occurrences "<Placemark>" (kml_header +:+ rest)
  = count_occurrences "<Placemark>" rest.
Proof. reflexivity. Qed.

End report_facts.

(** C9: for every row set, the KMZ report is produced, whatever the
    georeference texts hold; it has one Placemark per row whose text
    parses, that is, in which the matches of the pattern, read from left
    to right, each the longest decimal number that starts where it
    starts, are two or more; this in the list of points as in the text
    of doc.kml. The rows whose text does not parse are left out and make
    up the skipped count that is logged. The digits are those of any
    class that holds neither the hyphen nor the full stop, as Unicode's
    decimal digits do. *)
Theorem kmz_points_match_parseable_rows {float : Type} (Nd : N → bool)
    (float_of_string : list N → float) (float_text : float → string)
    (assets : option (list Asset)) (assets_data : option (list asset_dict)) :
  Nd hyphen_minus = false → Nd full_stop = false →
  is_Some assets ∨ is_Some assets_data →
  (∀ g, parses Nd g ↔
        ∃ la lo, _parse_georef Nd float_of_string g = (Some la, Some lo))
  ∧ ∃ r n,
      generate_kmz_report Nd float_of_string float_text assets assets_data = Ok r
      ∧ parse_count Nd (georefs assets assets_data) n
      ∧ (∀ n', parse_count Nd (georefs assets assets_data) n' → n' = n)
      ∧ logged_valid_assets r = n
      ∧ logged_skipped_assets r = length (georefs assets assets_data) - n
      ∧ logged_total_assets r = logged_valid_assets r + logged_skipped_assets r
      ∧ ((∀ f, contains "<" (float_text f) = false) →
         count_occurrences "<Placemark>" (doc_kml r) = n).
Proof.
  intros H45 H46 Hsome. split.
  { intros g.
    destruct (_parse_georef_parses Nd H45 H46 float_of_string g)
      as [[Hp Hg]|[Hp Hg]]; split; try done.
    intros (la & lo & E). by rewrite Hg in E. }
  set (acc1 := foldl (collect_asset Nd float_of_string) ([], 0) (default [] assets)).
  set (acc2 := foldl (collect_dict Nd float_of_string) acc1 (default [] assets_data)).
  destruct (collect_assets_count Nd H45 H46 float_of_string (default [] assets) ([], 0))
    as (n1 & Hn1 & H1 & H2).
  destruct (collect_dicts_count Nd H45 H46 float_of_string (default [] assets_data) acc1)
    as (n2 & Hn2 & H3 & H4).
  fold acc1 in H1, H2. fold acc2 in H3, H4. simpl in H1, H2.
  pose proof (parse_count_le Nd _ _ Hn1) as Hle1.
  pose proof (parse_count_le Nd _ _ Hn2) as Hle2.
  rewrite length_fmap in Hle1. rewrite length_fmap in Hle2.
  assert (Hcount : parse_count Nd (georefs assets assets_data) (n1 + n2)).
  { unfold georefs. by apply parse_count_app. }
  assert (Hlen : length (georefs assets assets_data)
                 = length (default [] assets) + length (default [] assets_data)).
  { unfold georefs. by rewrite length_app, !length_fmap. }
  exists {| doc_kml := kml_header +:+ join (placemark_of float_text <$> acc2.1)
                       +:+ kml_footer;
            logged_total_assets := length (default [] assets)
                                   + length (default [] assets_data);
            logged_valid_assets := length acc2.1;
            logged_skipped_assets := acc2.2 |}, (n1 + n2).
  split.
  { unfold generate_kmz_report. fold acc1. fold acc2.
    destruct assets, assets_data; try done. by destruct Hsome as [[? [=]]|[? [=]]]. }
  cbn [doc_kml logged_valid_assets logged_skipped_assets logged_total_assets].
  split; [done|]. split.
  { intros n' Hn'. by apply (parse_count_functional Nd _ _ _ Hn'). }
  split; [lia|]. split; [lia|]. split; [lia|].
  intros Hplain. rewrite kml_header_count, placemarks_count by done. lia.
Qed.

(** C9, for [demo_rows], with the digits of five scripts and floats cut
    down to their sign: the row in ASCII digits and the row in
    Arabic-Indic digits get their Placemark. *)
Lemma kmz_points_match_parseable_rows_witness :
  ∃ r, generate_kmz_report five_scripts sign_of_string sign_text None (Some demo_rows) = Ok r
       ∧ parse_count five_scripts (georefs None (Some demo_rows)) 2
       ∧ logged_valid_assets r = 2
       ∧ logged_skipped_assets r = 2
       ∧ count_occurrences "<Placemark>" (doc_kml r) = 2.
Proof.
  destruct (kmz_points_match_parseable_rows five_scripts sign_of_string sign_text
              None (Some demo_rows) eq_refl eq_refl (or_intror (mk_is_Some _ _ eq_refl)))
    as (_ & r & n & Hr & Hcount & _ & Hvalid & Hskip & _ & Htext).
  assert (Hv : logged_valid_assets r = 2).
  { clear -Hr. vm_compute in Hr. by injection Hr as <-. }
  rewrite Hv in Hvalid. subst n.
  exists r. split; [exact Hr|]. split; [exact Hcount|]. split; [exact Hv|].
  split; [exact Hskip|]. apply Htext. by intros [].
Defined.

Example findall_decimals :
  findall five_scripts (code_points "-30.002523, -71.329657, 159.60m")
  = [code_points "-30.002523"; code_points "-71.329657"; code_points "159.60"]
  ∧ findall five_scripts (code_points "-30, -71") = []
  ∧ findall five_scripts (code_points "lat 12.5") = [code_points "12.5"]
  ∧ findall five_scripts (code_points ".5 1. 2.50.75") = [code_points "2.50"]
  ∧ findall five_scripts arabic_indic_georef
    = [[1633; 1634; 46; 1637]%N; [1635; 46; 1634; 1637]%N].
Proof. by vm_compute. Qed.

(** Two decimal numbers that touch are one match: the second run of
    digits is read whole, and what is left holds no number. *)
Example findall_is_greedy :
  findall five_scripts (code_points "1.23.4") = [code_points "1.23"]
  ∧ decimal_number five_scripts (code_points "1.2")
  ∧ decimal_number five_scripts (code_points "3.4").
Proof.
  split; [by vm_compute|]. split.
  - exists [], [49%N], [50%N]. split_and!; auto; by repeat constructor.
  - exists [], [51%N], [52%N]. split_and!; auto; by repeat constructor.
Qed.

End AssetReportFacts.

Module MonadFacts.
Local Open Scope list_scope.

(** What holds of the state before a loop and is kept by every turn,
    holds of the state the loop ends in, whether it raises or not. *)
Lemma foldM_state {St A B} (P : St → Prop) (Q : A → Prop) (f : B → A → M St B) l :
  (∀ b x s, Q x → P s → P (f b x s).2) →
  Forall Q l → ∀ b s, P s → P (foldM f b l s).2.
Proof.
  intros Hstep Hall. induction Hall as [|x l Hx Hl IH]; intros b s HP; [done|].
  simpl. unfold_m. specialize (Hstep b x s Hx HP).
  destruct (f b x s) as [[b'|e] s1]; simpl in *; [by apply IH|done].
Qed.

Lemma bind_state {St A B} (P : St → Prop) (m : M St A) (k : A → M St B) s :
  (∀ s, P s → P (m s).2) → (∀ a s, P s → P (k a s).2) →
  P s → P ((x ← m; k x) s).2.
Proof.
  intros Hm Hk HP. unfold_m. specialize (Hm s HP).
  destruct (m s) as [[a|e] s1]; simpl in *; [by apply Hk|done].
Qed.

Lemma try_except_state {St A} (P : St → Prop) (m : M St A) (h : exn → M St A) s :
  (∀ s, P s → P (m s).2) → (∀ e s, P s → P (h e s).2) →
  P s → P (try_except m h s).2.
Proof.
  intros Hm Hh HP. unfold_m. specialize (Hm s HP).
  destruct (m s) as [[a|e] s1]; simpl in *; [done|by apply Hh].
Qed.

End MonadFacts.

Module TaskStoreMore.
Local Open Scope list_scope.
Local Open Scope nat_scope.
Import TaskStore TaskStoreSpec TaskStoreFacts TaskStoreMoreSpec.

Lemma run_call_other p c s :
  is_sweep c = false → creates c ≠ Some p → unlinks c ≠ Some p →
  files (run_call c s) !! p = files s !! p.
Proof.
  intros Hs Hc Hu.
  destruct c as [t|t x|t x|t| |t| |dt]; cbn [run_call creates unlinks is_sweep] in *;
    try done.
  - unfold create_pending_report. rewrite transition_cases. cbn [snd].
    apply (run_instrs_preserves (λ m, m !! p = files s !! p)); [|done].
    repeat constructor. intros ? m Hm. simpl. rewrite lookup_insert_ne; [done|congruence].
  - unfold mark_report_completed. rewrite transition_cases. cbn [snd].
    apply (run_instrs_preserves (λ m, m !! p = files s !! p)); [|done].
    repeat constructor; intros ? m Hm; simpl;
      try (rewrite lookup_insert_ne; [done|congruence]).
    rewrite lookup_delete_ne; [done|congruence].
  - unfold mark_report_failed. rewrite transition_cases. cbn [snd].
    apply (run_instrs_preserves (λ m, m !! p = files s !! p)); [|done].
    repeat constructor; intros ? m Hm; simpl;
      try (rewrite lookup_insert_ne; [done|congruence]).
    rewrite lookup_delete_ne; [done|congruence].
  - by rewrite (proj1 (get_report_status_state t s)).
  - by rewrite can_start_state.
  - by rewrite get_report_file_path_state.
Qed.

Lemma writes_task_unlinks t c :
  writes_task c ≠ Some t → ∀ st, unlinks c ≠ Some (get_report_path t st).
Proof.
  intros H st Hc. apply H. destruct c; simpl in *; try done;
    injection Hc as Hc; apply get_report_path_inj in Hc as [-> _]; done.
Qed.

(** X1. The calls made for other tasks, the queries and the passing of time
    leave the three files of a task as they are, content and time
    included, and so its status and what [get_report_status] answers. *)
Theorem other_tasks_are_untouched (t : string) (cs : list call) (s : fs) :
  Forall (λ c, writes_task c ≠ Some t ∧ is_sweep c = false) cs →
  (∀ st, files (run_calls cs s) !! get_report_path t st = files s !! get_report_path t st)
  ∧ status_of t (run_calls cs s) = status_of t s.
Proof.
  intros Hall.
  assert (Hfiles : ∀ st, files (run_calls cs s) !! get_report_path t st
                         = files s !! get_report_path t st).
  { intros st. revert s. induction cs as [|c cs IH]; intros s; [done|].
    inversion Hall as [|? ? [Hw Hs] Hall']; subst. simpl.
    rewrite IH by done. apply run_call_other; [done|..].
    - by apply writes_task_creates.
    - by apply writes_task_unlinks. }
  split; [done|]. rewrite !status_of_files. by rewrite !Hfiles.
Qed.

(** X1, on a concrete directory. *)
Lemma other_tasks_are_untouched_witness :
  status_of "t1" (run_calls [Submit "t2"; Complete "t2" "xlsx"; Fail "t3" "boom";
                             Status "t1"; CanStart; Wait 7200] demo_store)
  = Some PENDING.
Proof.
  destruct (other_tasks_are_untouched "t1"
              [Submit "t2"; Complete "t2" "xlsx"; Fail "t3" "boom";
               Status "t1"; CanStart; Wait 7200] demo_store) as [_ H].
  - repeat constructor; by vm_compute.
  - rewrite H. by vm_compute.
Defined.

Lemma cleanup_fold_exact (exp : Z) (l : list (string * file)) :
  ∀ n m t,
    NoDup l.*1 → (∀ e, e ∈ l → m !! e.1 = Some e.2) →
    ∃ m', foldM (cleanup_file exp) n l (Fs m t [])
          = (Ok (n + length (filter (λ e, (st_mtime e.2 < exp)%Z) l)), Fs m' t [])
          ∧ (∀ k, (∃ e, e ∈ l ∧ e.1 = k ∧ (st_mtime e.2 < exp)%Z) → m' !! k = None)
          ∧ (∀ k, ¬ (∃ e, e ∈ l ∧ e.1 = k ∧ (st_mtime e.2 < exp)%Z) → m' !! k = m !! k).
Proof.
  induction l as [|e l IH]; intros n m t Hnd Hl.
  - exists m. simpl. split; [by rewrite Nat.add_0_r|]. split; [|done].
    intros k (e & He & _). by apply elem_of_nil in He.
  - rewrite fmap_cons in Hnd. apply NoDup_cons in Hnd as [Hk Hnd].
    simpl. unfold_m. unfold cleanup_file at 1. rewrite filter_cons.
    destruct (decide (st_mtime e.2 < exp)%Z) as [He|He].
    + rewrite bool_decide_eq_true_2 by done.
      unfold unlink. unfold_m. simpl.
      rewrite (Hl e) by left. simpl.
      destruct (IH (S n) (delete e.1 m) t Hnd) as (m' & Hrun & Hgone & Hkept).
      { intros e' He'. rewrite lookup_delete_ne; [apply Hl; by right|].
        intros Heq. apply Hk. rewrite Heq. apply list_elem_of_fmap. by exists e'. }
      exists m'. split; [unfold set_files; cbn [files now faults]; rewrite Hrun; do 2 f_equal; simpl; lia|]. split.
      * intros k (e' & He' & <- & Hexp). apply elem_of_cons in He' as [->|He'].
        -- rewrite Hkept; [by rewrite lookup_delete_eq|].
           intros (e'' & He'' & Heq & _). apply Hk. rewrite <- Heq.
           apply list_elem_of_fmap. by exists e''.
        -- apply Hgone. by exists e'.
      * intros k Hk'. rewrite Hkept.
        -- rewrite lookup_delete_ne; [done|]. intros <-. apply Hk'. exists e.
           split; [by left|done].
        -- intros (e' & He' & Heq & Hexp). apply Hk'. exists e'. split; [by right|done].
    + rewrite bool_decide_eq_false_2 by done. unfold_m.
      destruct (IH n m t Hnd) as (m' & Hrun & Hgone & Hkept).
      { intros e' He'. apply Hl. by right. }
      exists m'. split; [done|]. split.
      * intros k (e' & He' & Heq & Hexp). apply elem_of_cons in He' as [->|He'];
          [done|]. apply Hgone. by exists e'.
      * intros k Hk'. apply Hkept. intros (e' & He' & Heq & Hexp). apply Hk'.
        exists e'. split; [by right|done].
Qed.

Lemma length_filter_map_to_list (P : string * file → Prop) `{!∀ e, Decision (P e)}
    (m : gmap string file) :
  length (filter P (map_to_list m)) = size (filter P m).
Proof.
  rewrite <- length_map_to_list. apply Permutation_length.
  apply NoDup_Permutation.
  - apply NoDup_filter, NoDup_map_to_list.
  - apply NoDup_map_to_list.
  - intros [k v]. rewrite list_elem_of_filter, !elem_of_map_to_list.
    rewrite map_lookup_filter_Some. tauto.
Qed.

Lemma cleanup_old_reports_exact (s : fs) :
  faults s = [] →
  cleanup_old_reports s
  = (Ok (size (filter (λ e, expired (now s) e.2) (files s))),
     Fs (filter (λ e, ¬ expired (now s) e.2) (files s)) (now s) []).
Proof.
  intros Hf. destruct s as [m t fl]. simpl in Hf. subst fl.
  unfold cleanup_old_reports, ensure_temp_reports_dir, io_point. unfold_m. cbn [files now faults].
  destruct (cleanup_fold_exact (t - REPORT_EXPIRATION_HOURS * 3600)
              (map_to_list m) 0 m t) as (m' & Hrun & Hgone & Hkept).
  { apply NoDup_fst_map_to_list. }
  { intros [k v] He. by apply elem_of_map_to_list. }
  rewrite Hrun. simpl. f_equal.
  - f_equal. apply (length_filter_map_to_list (λ e, expired t e.2)).
  - f_equal. apply map_eq. intros k.
    destruct (m !! k) as [v|] eqn:Hv.
    + destruct (decide (expired t v)) as [Hexp|Hexp].
      * rewrite Hgone.
        -- symmetry. apply map_lookup_filter_None. right. intros v' Hv'. simpl.
           rewrite Hv in Hv'. injection Hv' as <-. by intros ?.
        -- exists (k, v). split; [by apply elem_of_map_to_list|done].
      * rewrite Hkept.
        -- symmetry. rewrite Hv. by apply map_lookup_filter_Some.
        -- intros ([k' v'] & He & Heq & Hexp'). simpl in *. subst k'.
           apply elem_of_map_to_list in He. rewrite Hv in He. injection He as <-.
           by apply Hexp.
    + rewrite Hkept.
      * rewrite Hv. symmetry. apply map_lookup_filter_None. by left.
      * intros ([k' v'] & He & Heq & _). simpl in *. subst k'.
        apply elem_of_map_to_list in He. by rewrite Hv in He.
Qed.

(** X2. Without a failing file operation, the sweep deletes the files last
    written more than an hour before it runs, all of them and no other
    (a file written exactly an hour before stays), and returns their
    number; the files that stay are not changed. *)
Theorem sweep_removes_exactly_the_expired (s : fs) :
  faults s = [] →
  cleanup_old_reports s
  = (Ok (size (filter (λ e, expired (now s) e.2) (files s))),
     Fs (filter (λ e, ¬ expired (now s) e.2) (files s)) (now s) []).
Proof. apply cleanup_old_reports_exact. Qed.

(** X2, on a concrete directory. *)
Lemma sweep_removes_exactly_the_expired_witness :
  ∃ s', cleanup_old_reports aged_store = (Ok 2, s')
        ∧ files s' = {[ "b.xlsx" := File 5000 "xlsx" ]}.
Proof.
  eexists. rewrite (sweep_removes_exactly_the_expired aged_store eq_refl).
  split; [by vm_compute|]. simpl. apply map_eq. intros k.
  by vm_compute.
Defined.

(** X3. A complete that answers [True] has stored the content under the
    completed path of the task and removed its pending marker; the
    status read next is completed, and [get_report_file_path] gives the
    path of the file that holds the content. *)
Theorem completed_report_is_read_back (t content : string) (s s' : fs) :
  mark_report_completed t content s = (Ok true, s') →
  files s' !! get_report_path t COMPLETED = Some (File (now s) content)
  ∧ files s' !! get_report_path t PENDING = None
  ∧ (get_report_status t s').1 = Ok (Some COMPLETED, "Reporte listo para descargar")
  ∧ (get_report_file_path t s').1 = Ok (Some (get_report_path t COMPLETED)).
Proof.
  intros H. apply transition_true in H. simpl in H.
  assert (Hne : get_report_path t PENDING ≠ get_report_path t COMPLETED).
  { intros E. by apply get_report_path_inj in E as [_ ?]. }
  assert (Hc : files s' !! get_report_path t COMPLETED = Some (File (now s) content)).
  { rewrite H. by rewrite lookup_delete_ne, lookup_insert_eq. }
  split; [done|]. split; [rewrite H; by rewrite lookup_delete_eq|].
  unfold get_report_status, get_report_file_path, path_exists. unfold_m.
  rewrite Hc. split; by rewrite bool_decide_eq_true_2.
Qed.

(** X3, on a concrete directory. *)
Lemma completed_report_is_read_back_witness :
  ∃ s', mark_report_completed "t1" "xlsx" demo_store = (Ok true, s')
        ∧ files s' !! "t1.xlsx" = Some (File 100 "xlsx")
        ∧ (get_report_file_path "t1" s').1 = Ok (Some "t1.xlsx").
Proof.
  eexists. split; [by vm_compute|].
  destruct (completed_report_is_read_back "t1" "xlsx" demo_store _ eq_refl)
    as (H1 & _ & _ & H2).
  split; [exact H1|exact H2].
Defined.

Lemma universal_newlines_plain (x : string) :
  carriage_return ∉ list_ascii_of_string x → universal_newlines x = x.
Proof.
  induction x as [|c x IH]; [done|]. intros Hc. simpl in *.
  rewrite decide_False by (intros ->; apply Hc; by left).
  rewrite IH; [done|]. intros Hx. apply Hc. by right.
Qed.

(** X4. A fail that answers [True], for a task without completed file,
    makes the status failed, and the message read back is the one
    written, that is the one given, or "Report generation failed" when
    the one given is empty, with its line ends as a file opened in text
    mode gives them: a carriage return, alone or followed by a line
    feed, is read as a line feed. A message without carriage return is
    read back as it was given. *)
Theorem failure_message_is_read_back (t msg : string) (s s' : fs) :
  mark_report_failed t msg s = (Ok true, s') →
  files s !! get_report_path t COMPLETED = None →
  faults s' = [] →
  let written := if decide (msg = "") then "Report generation failed" else msg in
  get_report_status t s' = (Ok (Some FAILED, universal_newlines written), s')
  ∧ (carriage_return ∉ list_ascii_of_string msg → universal_newlines written = written).
Proof.
  intros H Hc Hf written. apply transition_true in H. simpl in H.
  assert (Hne : ∀ st st', st ≠ st' → get_report_path t st ≠ get_report_path t st').
  { intros st st' Hst E. by apply get_report_path_inj in E as [_ ?]. }
  assert (H1 : files s' !! get_report_path t COMPLETED = None).
  { rewrite H. by rewrite lookup_delete_ne, !lookup_insert_ne by (by apply Hne). }
  assert (H2 : files s' !! get_report_path t PENDING = None).
  { rewrite H. apply lookup_delete_eq. }
  assert (H3 : files s' !! get_report_path t FAILED
               = Some (File (now s) (or_default msg "Report generation failed"))).
  { rewrite H. by rewrite lookup_delete_ne, lookup_insert_eq by (by apply Hne). }
  assert (Hw : or_default msg "Report generation failed" = written).
  { unfold written. destruct msg as [|c msg]; [done|]. by rewrite decide_False. }
  assert (Hnz : written ≠ "").
  { unfold written. by destruct (decide (msg = "")). }
  split.
  - unfold get_report_status, path_exists, read_text. unfold_m.
    rewrite H1. simpl. rewrite H2. simpl. rewrite H3. simpl.
    rewrite ReportFacts.io_point_no_fault by done. rewrite H3. simpl.
    by rewrite Hw, ReportFacts.or_default_universal_newlines.
  - intros Hcr. unfold written.
    destruct (decide (msg = "")); [reflexivity|by apply universal_newlines_plain].
Qed.

(** X4, on a concrete directory. *)
Lemma failure_message_is_read_back_witness :
  ∃ s' s'', mark_report_failed "t1" "" demo_store = (Ok true, s')
            ∧ get_report_status "t1" s' = (Ok (Some FAILED, "Report generation failed"), s')
            ∧ mark_report_failed "t1" (String carriage_return (String line_feed "sin datos"))
                demo_store = (Ok true, s'')
            ∧ get_report_status "t1" s''
              = (Ok (Some FAILED, String line_feed "sin datos"), s'').
Proof.
  eexists _, _. split; [by vm_compute|]. split.
  { apply (failure_message_is_read_back "t1" "" demo_store); by vm_compute. }
  split; [by vm_compute|].
  apply (failure_message_is_read_back "t1"
           (String carriage_return (String line_feed "sin datos")) demo_store);
    by vm_compute.
Defined.

Lemma ends_with_pending (t : string) (st : ReportStatus) :
  ends_with ".pending" (get_report_path t st) = bool_decide (st = PENDING).
Proof.
  unfold ends_with. rewrite get_report_path_chars.
  destruct st.
  - rewrite !bool_decide_eq_true_2; [done..|]. by apply suffix_app_r.
  - rewrite !bool_decide_eq_false_2; [done..|].
    intros [k Hk]. apply (f_equal last) in Hk. revert Hk. unfold suffix_chars. simpl.
    change (list_ascii_of_string t ++ ["."; "x"; "l"; "s"; "x"])%char
      with (list_ascii_of_string t ++ ["."; "x"; "l"; "s"] ++ ["x"])%char.
    change (k ++ ["."; "p"; "e"; "n"; "d"; "i"; "n"; "g"])%char
      with (k ++ ["."; "p"; "e"; "n"; "d"; "i"; "n"] ++ ["g"])%char.
    rewrite !app_assoc, !last_snoc. discriminate.
  - rewrite !bool_decide_eq_false_2; [done..|].
    intros [k Hk]. apply (f_equal last) in Hk. revert Hk. unfold suffix_chars. simpl.
    change (list_ascii_of_string t ++ ["."; "f"; "a"; "i"; "l"; "e"; "d"])%char
      with (list_ascii_of_string t ++ ["."; "f"; "a"; "i"; "l"; "e"] ++ ["d"])%char.
    change (k ++ ["."; "p"; "e"; "n"; "d"; "i"; "n"; "g"])%char
      with (k ++ ["."; "p"; "e"; "n"; "d"; "i"; "n"] ++ ["g"])%char.
    rewrite !app_assoc, !last_snoc. discriminate.
Qed.

Lemma pending_markers_insert_other (p : string) (f : file) (m : gmap string file) :
  ends_with ".pending" p = false →
  pending_markers (<[p := f]> m) = pending_markers m.
Proof.
  intros Hp. unfold pending_markers.
  rewrite map_filter_insert_False by (simpl; by rewrite Hp).
  rewrite map_filter_delete. apply delete_id.
  apply map_lookup_filter_None. right. intros f' _. simpl. by rewrite Hp.
Qed.

Lemma can_start_by_markers (s : fs) :
  can_start_new_report s
  = (Ok (if bool_decide (MAX_CONCURRENT_REPORTS ≤ size (pending_markers (files s)))
         then (false, Some (admission_reason (size (pending_markers (files s)))))
         else (true, None)), s).
Proof.
  unfold can_start_new_report, count_pending_reports. unfold_m.
  rewrite (length_filter_map_to_list (λ e, ends_with ".pending" e.1 = true)).
  fold (pending_markers (files s)).
  by destruct (bool_decide (MAX_CONCURRENT_REPORTS ≤ size (pending_markers (files s)))).
Qed.

(** X5. After a submit that answered [True] the admission check refuses,
    whatever the directory held before: the marker just written counts
    against the ceiling of one, and the reason quotes the number of
    pending markers, which is at least one. *)
Theorem submitted_task_closes_admission (t : string) (s s' : fs) :
  create_pending_report t s = (Ok true, s') →
  ∃ n, 0 < n
       ∧ can_start_new_report s' = (Ok (false, Some (admission_reason n)), s').
Proof.
  intros H. apply transition_true in H. simpl in H.
  exists (size (pending_markers (files s'))).
  assert (Hpos : 0 < size (pending_markers (files s'))).
  { assert (Hin : is_Some (pending_markers (files s') !! get_report_path t PENDING)).
    { unfold pending_markers. rewrite H. eexists.
      apply map_lookup_filter_Some. split; [by rewrite lookup_insert_eq|].
      simpl. by rewrite ends_with_pending. }
    destruct (decide (size (pending_markers (files s')) = 0)) as [Hz|]; [|lia].
    apply map_size_empty_inv in Hz. rewrite Hz in Hin.
    rewrite lookup_empty in Hin. by destruct Hin. }
  split; [done|]. rewrite can_start_by_markers.
  rewrite bool_decide_eq_true_2; [done|]. unfold MAX_CONCURRENT_REPORTS. lia.
Qed.

(** X5, on a concrete directory. *)
Lemma submitted_task_closes_admission_witness :
  ∃ n, can_start_new_report (Fs {[ "t9.pending" := File 0 "" ]} 0 [])
       = (Ok (false, Some (admission_reason n)), Fs {[ "t9.pending" := File 0 "" ]} 0 []).
Proof.
  assert (H : create_pending_report "t9" (Fs ∅ 0 [])
              = (Ok true, Fs {[ "t9.pending" := File 0 "" ]} 0 [])) by (by vm_compute).
  destruct (submitted_task_closes_admission "t9" (Fs ∅ 0 []) _ H) as (n & _ & Hn).
  by exists n.
Defined.

(** X6. When the only pending marker of the directory is that of a task, a
    complete or a fail of that task that answers [True] reopens the
    admission of new reports. *)
Theorem finished_task_reopens_admission (t x : string) (s s' : fs) :
  (∀ k, is_Some (pending_markers (files s) !! k) → k = get_report_path t PENDING) →
  mark_report_completed t x s = (Ok true, s') ∨ mark_report_failed t x s = (Ok true, s') →
  can_start_new_report s' = (Ok (true, None), s').
Proof.
  intros Honly H.
  assert (Hmarkers : pending_markers (files s')
                     = delete (get_report_path t PENDING) (pending_markers (files s))).
  { destruct H as [H|H]; apply transition_true in H; simpl in H; rewrite H;
      unfold pending_markers; rewrite map_filter_delete; f_equal;
      fold (pending_markers
              (<[get_report_path t COMPLETED := File (now s) x]>
                 (<[get_report_path t COMPLETED := File (now s) ""]> (files s))));
      fold (pending_markers
              (<[get_report_path t FAILED :=
                   File (now s) (or_default x "Report generation failed")]>
                 (<[get_report_path t FAILED := File (now s) ""]> (files s))));
      rewrite !pending_markers_insert_other by (by rewrite ends_with_pending); done. }
  rewrite can_start_by_markers, Hmarkers.
  assert (Hempty : delete (get_report_path t PENDING) (pending_markers (files s)) = ∅).
  { apply map_empty. intros k. destruct (decide (k = get_report_path t PENDING)) as [->|Hk].
    - apply lookup_delete_eq.
    - rewrite lookup_delete_ne by done. apply eq_None_not_Some. intros Hs.
      by apply Hk, Honly. }
  rewrite Hempty, map_size_empty. done.
Qed.

(** X6, on a concrete directory. *)
Lemma finished_task_reopens_admission_witness :
  can_start_new_report (mark_report_failed "t1" "boom" demo_store).2
  = (Ok (true, None), (mark_report_failed "t1" "boom" demo_store).2).
Proof.
  apply (finished_task_reopens_admission "t1" "boom" demo_store).
  - intros k [f Hk]. apply map_lookup_filter_Some in Hk as [Hk _].
    unfold demo_store in Hk. simpl in Hk.
    apply lookup_singleton_Some in Hk as [<- _]. done.
  - right. by vm_compute.
Defined.

End TaskStoreMore.

Module ReportRoutesFacts.
Local Open Scope list_scope.
Import TaskStore TaskStoreSpec TaskStoreFacts.
Import Models BackgroundReports ReportApi ReportSpec ReportRoutes ReportRoutesSpec.

Lemma create_pending_report_cases t s :
  (∃ s1, create_pending_report t s = (Ok true, s1)
         ∧ files s1 = <[get_report_path t PENDING :=
                          File (now s) (from_option data "" (files s !! get_report_path t PENDING))]>
                        (files s)
         ∧ now s1 = now s)
  ∨ (∃ s1, create_pending_report t s = (Ok false, s1) ∧ files s1 = files s).
Proof.
  unfold create_pending_report. rewrite transition_cases. simpl. unfold_m.
  destruct (exec_instr_cases (ITouch (get_report_path t PENDING)) s)
    as (fl & _ & [H | [[e H] _]]); simpl in H; rewrite H; simpl.
  - left. by eexists.
  - right. by eexists.
Qed.

Lemma admission_gate_outcomes s :
  admission_gate s = (Ok tt, s)
  ∨ ∃ reason, admission_gate s = (Raise (HTTPException 429 reason), s).
Proof.
  unfold admission_gate, can_start_new_report, count_pending_reports. unfold_m.
  case_bool_decide; simpl; [right; by eexists|by left].
Qed.

(** X7. A submission that either route refuses is refused with an
    HTTPException, whatever the lookups raise, and leaves every file of
    the directory as it was: no pending marker is written. *)
Theorem refused_submission_leaves_no_trace (c : collaborators) (new_task_id : string)
    (r : AssetsReportRequest) (s s' : fs) (e : exn) :
  initiate_assets_excel_report c new_task_id r s = (Raise e, s')
  ∨ initiate_installers_excel_report c new_task_id r s = (Raise e, s') →
  is_HTTPException e ∧ files s' = files s.
Proof.
  intros [H|H].
  - unfold initiate_assets_excel_report in H. unfold_m.
    destruct (negb _ || negb _); [by simplify_eq|].
    case_bool_decide; [by simplify_eq|]. case_bool_decide; [by simplify_eq|].
    destruct (admission_gate_outcomes s) as [Hg|[reason Hg]]; rewrite Hg in H;
      [|by simplify_eq].
    destruct (get_contract_project_by_id_or_nombre c (contract_name r)) as [[cp|]|[]];
      try (by simplify_eq).
    destruct (element_type r) as [et|].
    + destruct (get_element_type_by_id_or_nombre c et) as [[i|]|[]];
        try (by simplify_eq).
      destruct (create_pending_report_cases new_task_id s)
        as [(s1 & Hc & _) | (s1 & Hc & Hfiles)]; rewrite Hc in H; simpl in H;
        by simplify_eq.
    + destruct (create_pending_report_cases new_task_id s)
        as [(s1 & Hc & _) | (s1 & Hc & Hfiles)]; rewrite Hc in H; simpl in H;
        by simplify_eq.
  - unfold initiate_installers_excel_report in H. unfold_m.
    destruct (negb _ || negb _); [by simplify_eq|].
    case_bool_decide; [by simplify_eq|]. case_bool_decide; [by simplify_eq|].
    destruct (admission_gate_outcomes s) as [Hg|[reason Hg]]; rewrite Hg in H;
      [|by simplify_eq].
    destruct (get_contract_project_by_id_or_nombre c (contract_name r)) as [[cp|]|[]];
      try (by simplify_eq).
    destruct (create_pending_report_cases new_task_id s)
      as [(s1 & Hc & _) | (s1 & Hc & Hfiles)]; rewrite Hc in H; simpl in H;
      by simplify_eq.
Qed.

(** X7, for a concrete request. *)
Lemma refused_submission_leaves_no_trace_witness :
  ∃ e s', initiate_assets_excel_report demo_collaborators "t2" (ninety_days_request 0)
            demo_store = (Raise e, s')
          ∧ is_HTTPException e ∧ files s' = files demo_store.
Proof.
  eexists _, _. split; [by vm_compute|].
  eapply (refused_submission_leaves_no_trace demo_collaborators "t2"
            (ninety_days_request 0) demo_store).
  left. by vm_compute.
Defined.

(** X8. The date checks of the report route, for two aware datetimes: the
    range is refused from a difference of 91 whole days on, and when
    the end is before the start; every difference from zero up to one
    second less than 91 days passes, so that the next check, the
    admission check, is what answers. The range message says 90 days:
    [timedelta.days] drops the hours of the ninety-first day. *)
Theorem report_window_bounds (c : collaborators) (new_task_id : string)
    (r : AssetsReportRequest) (s : fs) :
  tzinfo (fecha_desde r) = true → tzinfo (fecha_hasta r) = true →
  let d := (timestamp (fecha_hasta r) - timestamp (fecha_desde r))%Z in
  ((91 * 86400 ≤ d)%Z →
   initiate_assets_excel_report c new_task_id r s
   = (Raise (HTTPException 422 "El rango de fechas no puede exceder 90 días"), s))
  ∧ ((d < 0)%Z →
     initiate_assets_excel_report c new_task_id r s
     = (Raise (HTTPException 422 "La fecha de inicio debe ser anterior a la fecha de fin"), s))
  ∧ ((0 ≤ d < 91 * 86400)%Z →
     ∀ reason, can_start_new_report s = (Ok (false, Some reason), s) →
     initiate_assets_excel_report c new_task_id r s
     = (Raise (HTTPException 429 reason), s)).
Proof.
  intros Hd Hh d. unfold initiate_assets_excel_report. unfold_m. rewrite Hd, Hh. simpl.
  fold d. split; [|split].
  - intros Hlong. rewrite bool_decide_eq_true_2; [done|].
    unfold timedelta_days, max_days.
    assert (91 ≤ d `div` 86400)%Z by (apply Z.div_le_lower_bound; lia). lia.
  - intros Hneg. rewrite bool_decide_eq_false_2.
    + by rewrite bool_decide_eq_true_2.
    + unfold timedelta_days, max_days.
      assert (d `div` 86400 < 0)%Z by (apply Z.div_lt_upper_bound; lia). lia.
  - intros Hok reason Hfull. rewrite bool_decide_eq_false_2.
    + rewrite bool_decide_eq_false_2 by lia.
      unfold admission_gate. unfold_m. by rewrite Hfull.
    + unfold timedelta_days, max_days.
      assert (d `div` 86400 < 91)%Z by (apply Z.div_lt_upper_bound; lia). lia.
Qed.

(** X8, for a concrete request. *)
Lemma report_window_bounds_witness :
  initiate_assets_excel_report demo_collaborators "t2" (ninety_days_request 86399) demo_store
  = (Raise (HTTPException 429 (admission_reason 1)), demo_store)
  ∧ initiate_assets_excel_report demo_collaborators "t2" (ninety_days_request 86400) demo_store
    = (Raise (HTTPException 422 "El rango de fechas no puede exceder 90 días"), demo_store).
Proof.
  split.
  - apply (report_window_bounds demo_collaborators "t2" (ninety_days_request 86399)
             demo_store eq_refl eq_refl); [simpl; lia|by vm_compute].
  - apply (report_window_bounds demo_collaborators "t2" (ninety_days_request 86400)
             demo_store eq_refl eq_refl). simpl. lia.
Defined.

Lemma mark_report_failed_no_fault t msg s :
  faults s = [] →
  mark_report_failed t msg s
  = (Ok true,
     Fs (delete (get_report_path t PENDING)
           (<[get_report_path t FAILED :=
                File (now s) (or_default msg "Report generation failed")]>
              (<[get_report_path t FAILED := File (now s) ""]> (files s))))
        (now s) []).
Proof.
  intros Hf. unfold mark_report_failed. by rewrite transition_cases, run_instrs_no_fault.
Qed.

Lemma mark_report_completed_no_fault t content s :
  faults s = [] →
  mark_report_completed t content s
  = (Ok true,
     Fs (delete (get_report_path t PENDING)
           (<[get_report_path t COMPLETED := File (now s) content]>
              (<[get_report_path t COMPLETED := File (now s) ""]> (files s))))
        (now s) []).
Proof.
  intros Hf. unfold mark_report_completed. by rewrite transition_cases, run_instrs_no_fault.
Qed.

Lemma paths_differ t st st' : st ≠ st' → get_report_path t st ≠ get_report_path t st'.
Proof. intros Hst E. by apply get_report_path_inj in E as [_ ?]. Qed.

Lemma failed_finishes t msg s :
  faults s = [] →
  finished t (mark_report_failed t msg s).2 ∧ faults (mark_report_failed t msg s).2 = [].
Proof.
  intros Hf. rewrite mark_report_failed_no_fault by done. simpl. split; [|done].
  split; simpl; [apply lookup_delete_eq|]. right.
  rewrite lookup_delete_ne, lookup_insert_eq by (by apply paths_differ). by eexists.
Qed.

Lemma completed_finishes t content s :
  faults s = [] →
  finished t (mark_report_completed t content s).2
  ∧ faults (mark_report_completed t content s).2 = [].
Proof.
  intros Hf. rewrite mark_report_completed_no_fault by done. simpl. split; [|done].
  split; simpl; [apply lookup_delete_eq|]. left.
  rewrite lookup_delete_ne, lookup_insert_eq by (by apply paths_differ). by eexists.
Qed.

Lemma store_report_ends t content : ends_or_raises t (store_report t content).
Proof.
  intros s0 Hf. left. unfold store_report. unfold_m.
  destruct (completed_finishes t content s0 Hf) as [Hfin Hf'].
  rewrite mark_report_completed_no_fault in * by done. simpl in *. by eexists.
Qed.

Lemma with_lookups_ends c t name et k :
  (∀ cp eid, ends_or_raises t (k cp eid)) →
  ends_or_raises t (with_lookups c t name et k).
Proof.
  intros Hk s0 Hf. unfold with_lookups. unfold_m.
  destruct (get_contract_project_by_id_or_nombre c name) as [[cp|]|e]; [| |right; by eexists].
  - destruct et as [et|]; [|by apply Hk].
    destruct (get_element_type_by_id_or_nombre c et) as [[i|]|e]; [by apply Hk| |right; by eexists].
    left. destruct (failed_finishes t (element_type_not_found et) s0 Hf) as [Hfin Hf'].
    rewrite mark_report_failed_no_fault in * by done. simpl in *. by eexists.
  - left. destruct (failed_finishes t (contract_not_found name) s0 Hf) as [Hfin Hf'].
    rewrite mark_report_failed_no_fault in * by done. simpl in *. by eexists.
Qed.

Lemma guarded_ends t body s :
  ends_or_raises t body → faults s = [] →
  finished t ((cleanup_old_reports;;
               try_except body (λ e, mark_report_failed t (internal_error e);; mret tt)) s).2.
Proof.
  intros Hb Hf.
  pose proof (ReportFacts.cleanup_old_reports_no_fault s Hf) as Hf0.
  assert (Hs : head (faults s) ≠ Some true) by (by rewrite Hf).
  destruct (ReportFacts.guarded_body_cases body t s Hs)
    as (s0 & n & Hc & [(s1 & Hb1 & ->) | (e & s1 & Hb1 & ->)]);
    rewrite Hc in Hf0; simpl in Hf0; destruct (Hb s0 Hf0) as [(s2 & Hb2 & Hfin & _)|[e2 Hb2]];
    rewrite Hb1 in Hb2; simplify_eq; simpl; [done|].
  by apply failed_finishes.
Qed.

(** X9. When no file operation fails, a background report task, of either
    kind, always leaves the pending state: whatever the lookups, the
    query and the workbook writers answer or raise, its pending marker
    is gone when the task returns, and its completed file or its failed
    marker is there. *)
Theorem background_run_finishes_task (c : collaborators) (task_id contract_name : string)
    (fecha_desde fecha_hasta : Z) (include_photos : bool)
    (element_type : option string) (asset_status : option AssetStatus) (s : fs) :
  faults s = [] →
  finished task_id
    (generate_excel_report_background c task_id contract_name fecha_desde fecha_hasta
       include_photos element_type asset_status s).2
  ∧ finished task_id
      (generate_installers_excel_report_background c task_id contract_name fecha_desde
         fecha_hasta element_type asset_status s).2.
Proof.
  intros Hf. split.
  - apply guarded_ends; [|done]. apply with_lookups_ends. intros cp eid s0 Hf0. unfold_m.
    destruct (get_assets_by_datetime_range c cp fecha_desde fecha_hasta eid asset_status)
      as [assets|e]; [|right; by eexists].
    destruct (generate_excel_report c assets include_photos) as [b|e]; [|right; by eexists].
    by apply store_report_ends.
  - apply guarded_ends; [|done]. apply with_lookups_ends. intros cp eid s0 Hf0. unfold_m.
    destruct (get_assets_by_datetime_range c cp fecha_desde fecha_hasta eid asset_status)
      as [assets|e]; [|right; by eexists].
    destruct (generate_installers_excel_report c assets) as [b|e]; [|right; by eexists].
    destruct (getvalue b) as [content|e]; [|right; by eexists].
    by apply store_report_ends.
Qed.

(** X9, for a concrete task. *)
Lemma background_run_finishes_task_witness :
  finished "t1"
    (generate_installers_excel_report_background demo_collaborators "t1" "Ruta 5"
       0 10 None None demo_store).2.
Proof.
  apply (background_run_finishes_task demo_collaborators "t1" "Ruta 5" 0 10 false
           None None demo_store eq_refl).
Defined.

(** Both routes, for a task whose completed file exists. *)
Lemma completed_routes (strftime_now : Z → string) t s f :
  files s !! get_report_path t COMPLETED = Some f → faults s = [] →
  get_excel_report_status t s
  = (Ok {| rs_task_id := t; rs_status := COMPLETED;
           rs_message := "Reporte listo para descargar" |}, s)
  ∧ download_excel_report strftime_now t s
    = (Ok {| path := get_report_path t COMPLETED;
             media_type :=
               "application/vnd.openxmlformats-officedocument.spreadsheetml.sheet";
             download_filename :=
               "reporte_activos_" +:+ strftime_now (now s) +:+ ".xlsx" |}, s).
Proof.
  intros Hc Hf. split.
  - unfold get_excel_report_status, get_report_status, path_exists. unfold_m.
    by rewrite Hc.
  - unfold download_excel_report, get_report_status, get_report_file_path, path_exists,
      stat_size. unfold_m. rewrite Hc. simpl. rewrite Hc. simpl. rewrite Hc. simpl.
    rewrite ReportFacts.io_point_no_fault by done. by rewrite Hc.
Qed.

Lemma excel_report_body_success c t name fd fh ip et st s0 cp eid b :
  get_contract_project_by_id_or_nombre c name = Ok (Some cp) →
  match et with
  | Some et => ∃ i, get_element_type_by_id_or_nombre c et = Ok (Some i) ∧ eid = Some i
  | None => eid = None
  end →
  query_failure c = None →
  generate_excel_report c
    (merge_sort newer_first (List.filter (in_report_window cp fd fh eid st) (asset_rows c)))
    ip = Ok b →
  faults s0 = [] →
  excel_report_body c t name fd fh ip et st s0
  = (Ok tt, (mark_report_completed t b s0).2).
Proof.
  intros Hcp Het Hq Hgen Hf. unfold excel_report_body, with_lookups. unfold_m.
  rewrite Hcp.
  assert (Hk : ∀ eid', eid' = eid →
            (let (r0, s') := (get_assets_by_datetime_range c cp fd fh eid' st, s0) in
             match r0 with
             | Ok a =>
                 (let (r1, s'0) := (generate_excel_report c a ip, s') in
                  match r1 with
                  | Ok a0 => store_report t a0 s'0
                  | Raise e => (Raise e, s'0)
                  end)
             | Raise e => (Raise e, s')
             end) = (Ok tt, (mark_report_completed t b s0).2)).
  { intros eid' ->. unfold get_assets_by_datetime_range. rewrite Hq, Hgen.
    unfold store_report. unfold_m. by rewrite mark_report_completed_no_fault. }
  destruct et as [et|].
  - destruct Het as (i & -> & ->). by apply Hk.
  - subst eid. by apply Hk.
Qed.

(** X10. From the request to the download: a request with aware dates in
    range, made when admission is open, whose lookups find their rows,
    is accepted; when its background task then runs, no query and no
    file operation failing and the workbook writer giving [b] for the
    assets of the window, newest first, the status route answers
    completed and the download route hands out the completed file,
    which holds [b]. *)
Theorem accepted_report_is_downloadable (strftime_now : Z → string) (c : collaborators)
    (new_task_id : string) (r : AssetsReportRequest) (s : fs)
    (contract_project_id : Z) (element_type_id : option Z) (b : string) :
  faults s = [] →
  can_start_new_report s = (Ok (true, None), s) →
  tzinfo (fecha_desde r) = true → tzinfo (fecha_hasta r) = true →
  (0 ≤ timestamp (fecha_hasta r) - timestamp (fecha_desde r) < 91 * 86400)%Z →
  get_contract_project_by_id_or_nombre c (contract_name r) = Ok (Some contract_project_id) →
  match element_type r with
  | Some et => ∃ i, get_element_type_by_id_or_nombre c et = Ok (Some i)
                    ∧ element_type_id = Some i
  | None => element_type_id = None
  end →
  query_failure c = None →
  generate_excel_report c
    (merge_sort newer_first
       (List.filter (in_report_window contract_project_id (timestamp (fecha_desde r))
                       (timestamp (fecha_hasta r)) element_type_id (asset_status r))
          (asset_rows c)))
    (default false (include_photos r)) = Ok b →
  ∃ resp task s1 s2,
    initiate_assets_excel_report c new_task_id r s = (Ok (resp, task), s1)
    ∧ task_id resp = new_task_id ∧ status resp = PENDING
    ∧ run_background_task c task s1 = (Ok tt, s2)
    ∧ get_excel_report_status new_task_id s2
      = (Ok {| rs_task_id := new_task_id; rs_status := COMPLETED;
               rs_message := "Reporte listo para descargar" |}, s2)
    ∧ download_excel_report strftime_now new_task_id s2
      = (Ok {| path := get_report_path new_task_id COMPLETED;
               media_type :=
                 "application/vnd.openxmlformats-officedocument.spreadsheetml.sheet";
               download_filename :=
                 "reporte_activos_" +:+ strftime_now (now s) +:+ ".xlsx" |}, s2)
    ∧ files s2 !! get_report_path new_task_id COMPLETED = Some (File (now s) b).
Proof.
  intros Hf Hadm Hd Hh Hrange Hcp Het Hq Hgen.
  set (pending := get_report_path new_task_id PENDING).
  set (completed := get_report_path new_task_id COMPLETED).
  set (s1 := Fs (<[pending := File (now s) (from_option data "" (files s !! pending))]>
                   (files s)) (now s) []).
  assert (Hsub : create_pending_report new_task_id s = (Ok true, s1)).
  { unfold create_pending_report. by rewrite transition_cases, run_instrs_no_fault. }
  assert (Hdays : ¬ (timedelta_days (timestamp (fecha_hasta r) - timestamp (fecha_desde r))
                     > max_days)%Z).
  { unfold timedelta_days, max_days.
    assert ((timestamp (fecha_hasta r) - timestamp (fecha_desde r)) `div` 86400 < 91)%Z
      by (apply Z.div_lt_upper_bound; lia). lia. }
  exists {| task_id := new_task_id; status := PENDING;
            message := "Generando reporte, por favor espere. Use el task_id para verificar el estado." |},
         {| bg_task_id := new_task_id;
            bg_contract_name := contract_name r;
            bg_fecha_desde := timestamp (fecha_desde r);
            bg_fecha_hasta := timestamp (fecha_hasta r);
            bg_include_photos := default false (include_photos r);
            bg_element_type := element_type r;
            bg_asset_status := asset_status r |}, s1.
  eexists. split.
  { unfold initiate_assets_excel_report. unfold_m. rewrite Hd, Hh. simpl.
    rewrite bool_decide_eq_false_2 by done. rewrite bool_decide_eq_false_2 by lia.
    unfold admission_gate. unfold_m. rewrite Hadm. simpl. rewrite Hcp.
    destruct (element_type r) as [et|] eqn:Eet.
    - destruct Het as (i & -> & _). unfold_m. by rewrite Hsub.
    - unfold_m. by rewrite Hsub. }
  split; [done|]. split; [done|].
  set (kept := filter (λ e : string * file, ¬ TaskStoreMoreSpec.expired (now s) e.2)
                 (files s1)).
  assert (Hsweep : ∃ n, cleanup_old_reports s1 = (Ok n, Fs kept (now s) [])).
  { eexists. by rewrite TaskStoreMore.cleanup_old_reports_exact. }
  destruct Hsweep as [n Hsweep].
  set (s2 := Fs (delete pending
                   (<[completed := File (now s) b]>
                      (<[completed := File (now s) ""]> kept))) (now s) []).
  assert (Hrun : run_background_task c
                   {| bg_task_id := new_task_id;
                      bg_contract_name := contract_name r;
                      bg_fecha_desde := timestamp (fecha_desde r);
                      bg_fecha_hasta := timestamp (fecha_hasta r);
                      bg_include_photos := default false (include_photos r);
                      bg_element_type := element_type r;
                      bg_asset_status := asset_status r |} s1 = (Ok tt, s2)).
  { unfold run_background_task, generate_excel_report_background.
    cbn [bg_task_id bg_contract_name bg_fecha_desde bg_fecha_hasta bg_include_photos
         bg_element_type bg_asset_status].
    destruct (ReportFacts.guarded_body_cases
                (excel_report_body c new_task_id (contract_name r)
                   (timestamp (fecha_desde r)) (timestamp (fecha_hasta r))
                   (default false (include_photos r)) (element_type r) (asset_status r))
                new_task_id s1 ltac:(done))
      as (s0 & n' & Hc0 & [(s3 & Hb & ->) | (e & s3 & Hb & _)]);
      rewrite Hsweep in Hc0; injection Hc0 as <- <-;
      rewrite (excel_report_body_success c new_task_id (contract_name r)
                 (timestamp (fecha_desde r)) (timestamp (fecha_hasta r))
                 (default false (include_photos r)) (element_type r) (asset_status r)
                 _ contract_project_id element_type_id b) in Hb by done;
      rewrite mark_report_completed_no_fault in Hb by done; by simplify_eq. }
  split; [exact Hrun|].
  assert (Hc : files s2 !! get_report_path new_task_id COMPLETED
               = Some (File (now s) b)).
  { simpl. rewrite lookup_delete_ne by (by apply paths_differ).
    by rewrite lookup_insert_eq. }
  destruct (completed_routes strftime_now new_task_id s2 (File (now s) b) Hc eq_refl)
    as [Hst Hdl].
  split; [exact Hst|]. split; [exact Hdl|exact Hc].
Qed.

(** X10, for a concrete request. *)
Lemma accepted_report_is_downloadable_witness :
  ∃ resp task s1 s2,
    initiate_assets_excel_report demo_collaborators "t2" (ninety_days_request 0) (Fs ∅ 0 [])
    = (Ok (resp, task), s1)
    ∧ task_id resp = "t2" ∧ status resp = PENDING
    ∧ run_background_task demo_collaborators task s1 = (Ok tt, s2)
    ∧ get_excel_report_status "t2" s2
      = (Ok {| rs_task_id := "t2"; rs_status := COMPLETED;
               rs_message := "Reporte listo para descargar" |}, s2)
    ∧ download_excel_report hhmm "t2" s2
      = (Ok {| path := get_report_path "t2" COMPLETED;
               media_type :=
                 "application/vnd.openxmlformats-officedocument.spreadsheetml.sheet";
               download_filename := "reporte_activos_" +:+ hhmm 0 +:+ ".xlsx" |}, s2)
    ∧ files s2 !! get_report_path "t2" COMPLETED = Some (File 0 "xlsx").
Proof.
  apply (accepted_report_is_downloadable hhmm demo_collaborators "t2"
           (ninety_days_request 0) (Fs ∅ 0 []) 1 None "xlsx");
    try reflexivity.
  simpl. lia.
Defined.

(** X11. The download route hands out nothing but the completed file of the
    task asked for, and only when it exists; when no file operation
    fails, its answer follows the status of the task: the file for a
    completed task, 425 for a pending one, 500 with the stored failure
    message, as a file opened in text mode gives it, for a failed one,
    404 for an unknown or expired one. *)
Theorem download_follows_status (strftime_now : Z → string) (t : string) (s : fs) :
  (∀ resp s', download_excel_report strftime_now t s = (Ok resp, s') →
              is_Some (files s !! get_report_path t COMPLETED)
              ∧ path resp = get_report_path t COMPLETED)
  ∧ (faults s = [] →
     match status_of t s with
     | Some COMPLETED =>
         download_excel_report strftime_now t s
         = (Ok {| path := get_report_path t COMPLETED;
                  media_type :=
                    "application/vnd.openxmlformats-officedocument.spreadsheetml.sheet";
                  download_filename :=
                    "reporte_activos_" +:+ strftime_now (now s) +:+ ".xlsx" |}, s)
     | Some PENDING =>
         download_excel_report strftime_now t s
         = (Raise (HTTPException 425
                     "El reporte aún se está generando. Por favor intente más tarde."), s)
     | Some FAILED =>
         ∃ f, files s !! get_report_path t FAILED = Some f
              ∧ download_excel_report strftime_now t s
                = (Raise (HTTPException 500
                            (or_default (universal_newlines (data f))
                               "Error al generar el reporte")), s)
     | None =>
         download_excel_report strftime_now t s
         = (Raise (HTTPException 404 "Reporte no encontrado o expirado"), s)
     end).
Proof.
  split.
  - intros resp s' H.
    unfold download_excel_report, get_report_status, get_report_file_path, path_exists,
      stat_size, read_text in H. unfold_m.
    destruct (files s !! get_report_path t COMPLETED) as [f|] eqn:Hc; simpl in H.
    + split; [by eexists|]. rewrite Hc in H. simpl in H. rewrite Hc in H. simpl in H.
      destruct (io_point_cases "stat" s) as [Hio | [Hio _]]; rewrite Hio in H; simpl in H;
        [|by simplify_eq].
      rewrite Hc in H. by simplify_eq.
    + exfalso.
      destruct (files s !! get_report_path t PENDING); simpl in H; [by simplify_eq|].
      destruct (files s !! get_report_path t FAILED) eqn:Hfl; simpl in H; [|by simplify_eq].
      destruct (io_point_cases "read" s) as [Hio | [Hio _]]; rewrite Hio in H; simpl in H;
        [|by simplify_eq].
      rewrite Hfl in H. by simplify_eq.
  - intros Hf. rewrite status_of_files.
    destruct (files s !! get_report_path t COMPLETED) as [f|] eqn:Hc; simpl.
    { by apply (completed_routes strftime_now t s f). }
    unfold download_excel_report, get_report_status, path_exists, read_text. unfold_m.
    rewrite Hc. simpl.
    destruct (files s !! get_report_path t PENDING) as [f|] eqn:Hp; simpl; [done|].
    destruct (files s !! get_report_path t FAILED) as [f|] eqn:Hfl; simpl; [|done].
    exists f. split; [done|].
    rewrite ReportFacts.io_point_no_fault by done. rewrite Hfl. simpl.
    by destruct (universal_newlines (data f)).
Qed.

(** X11, on a concrete directory. *)
Lemma download_follows_status_witness :
  download_excel_report hhmm "t1" demo_store
  = (Raise (HTTPException 425
              "El reporte aún se está generando. Por favor intente más tarde."),
     demo_store).
Proof.
  destruct (download_follows_status hhmm "t1" demo_store) as [_ H].
  by apply (H eq_refl).
Defined.

End ReportRoutesFacts.

Module BulkIngestMore.
Local Open Scope list_scope.
Local Open Scope nat_scope.
Import BulkIngest BulkIngestSpec BulkIngestFacts BulkIngestMoreSpec MonadFacts.
Local Arguments row_id : simpl never.

(** X12. With a negative batch size the loop over the batches has no turn:
    no statement is executed and the summary reports the rows as
    neither created, nor conflictive, nor failed. With a batch size of
    zero the function raises ZeroDivisionError before its [try], and
    the route answers 500. *)
Theorem nonpositive_batch_size (now : Z) (assets : list AssetCreate) (batch_size : Z)
    (d : db) :
  assets ≠ [] →
  ((batch_size < 0)%Z →
   create_assets_bulk now assets batch_size d = (Ok (nothing_done (length assets)), d)
   ∧ create_assets_bulk_route now assets batch_size d
     = (Ok (nothing_done (length assets)), d))
  ∧ (batch_size = 0%Z →
     create_assets_bulk now assets batch_size d
     = (Raise (Exception "ZeroDivisionError" "integer division or modulo by zero"), d)
     ∧ create_assets_bulk_route now assets batch_size d
       = (Raise (HTTPException 500 "Error creating assets in bulk"), d)).
Proof.
  intros Hne.
  assert (Hlen : bool_decide (length assets = 0) = false).
  { apply bool_decide_eq_false_2. by destruct assets. }
  split.
  - intros Hneg.
    assert (H : create_assets_bulk now assets batch_size d
                = (Ok (nothing_done (length assets)), d)).
    { unfold create_assets_bulk. rewrite Hlen.
      rewrite bool_decide_eq_false_2 by lia.
      unfold insert_batches, range_from_zero. rewrite bool_decide_eq_false_2 by lia.
      by vm_compute. }
    split; [done|]. unfold create_assets_bulk_route. unfold_m. rewrite H. done.
  - intros ->.
    assert (H : create_assets_bulk now assets 0 d
                = (Raise (Exception "ZeroDivisionError" "integer division or modulo by zero"), d)).
    { unfold create_assets_bulk. by rewrite Hlen. }
    split; [done|]. unfold create_assets_bulk_route. unfold_m. by rewrite H.
Qed.

(** X12, for concrete rows. *)
Lemma nonpositive_batch_size_witness :
  create_assets_bulk 0 [candidate 1 "a"; candidate 2 "b"] (-200) empty_db
  = (Ok (nothing_done 2), empty_db)
  ∧ create_assets_bulk_route 0 [candidate 1 "a"] 0 empty_db
    = (Raise (HTTPException 500 "Error creating assets in bulk"), empty_db).
Proof.
  split.
  - apply (nonpositive_batch_size 0 [candidate 1 "a"; candidate 2 "b"] (-200) empty_db);
      [done|lia].
  - apply (nonpositive_batch_size 0 [candidate 1 "a"] 0 empty_db); done.
Defined.

Lemma insert_do_nothing_kept batch tbl k row :
  tbl !! k = Some row → (insert_do_nothing batch tbl).1 !! k = Some row.
Proof.
  revert tbl. induction batch as [|r batch IH]; intros tbl Hk; simpl; [done|].
  destruct (tbl !! row_id r) eqn:E; [by apply IH|]. simpl. apply IH.
  rewrite lookup_insert_ne; [done|]. intros Heq. rewrite Heq in E. congruence.
Qed.

Lemma insert_do_nothing_from batch tbl k row :
  (insert_do_nothing batch tbl).1 !! k = Some row →
  tbl !! k = Some row ∨ (row ∈ batch ∧ k = row_id row).
Proof.
  revert tbl. induction batch as [|r batch IH]; intros tbl; simpl; [by left|].
  destruct (tbl !! row_id r) eqn:E.
  - intros H. destruct (IH _ H) as [?|[? ?]]; [by left|right]. split; [by right|done].
  - simpl. intros H. destruct (IH _ H) as [H'|[? ?]].
    + destruct (decide (k = row_id r)) as [->|Hne].
      * rewrite lookup_insert_eq in H'. injection H' as <-. right. split; [by left|done].
      * rewrite lookup_insert_ne in H' by done. by left.
    + right. split; [by right|done].
Qed.

Lemma process_batch_tables t batch d :
  (asset_table (process_batch t batch d).2 = asset_table d
   ∨ asset_table (process_batch t batch d).2 = (insert_do_nothing batch (asset_table d)).1)
  ∧ conflictive_asset_table (process_batch t batch d).2 = conflictive_asset_table d.
Proof.
  unfold process_batch, execute_insert, begin_statement. unfold_m.
  destruct (failures d) as [|[[[| |] code]|] fl]; simpl; auto.
Qed.

Lemma upsert_conflictive_asset_table now assets t d :
  asset_table (upsert_conflictive now assets t d).2 = asset_table d.
Proof.
  unfold upsert_conflictive. destruct (all_conflictive_id_internos t); [done|].
  unfold execute_upsert, begin_statement. unfold_m.
  destruct (failures d) as [|[[[| |] code]|] fl]; simpl; try done;
    by case_bool_decide.
Qed.

Lemma batches_of_rows (l : list asset_row) (batch_size : Z) :
  Forall (λ batch, ∀ r, r ∈ batch → r ∈ l) (insert_batches l batch_size).
Proof.
  destruct (concat_insert_batches_take l batch_size) as [k Hk].
  apply Forall_forall. intros batch Hb r Hr.
  assert (Hin : r ∈ concat (insert_batches l batch_size)).
  { apply list_elem_of_In, in_concat. exists batch.
    split; by apply list_elem_of_In. }
  rewrite Hk in Hin. by apply subseteq_take in Hin.
Qed.

(** The state [create_assets_bulk] ends in is the state its loop and its
    upsert left, as far as the asset table goes. *)
Lemma create_assets_bulk_asset_table now assets batch_size d :
  asset_table (create_assets_bulk now assets batch_size d).2 = asset_table d
  ∨ ∃ t,
      asset_table (create_assets_bulk now assets batch_size d).2
      = asset_table
          (foldM process_batch t
             (insert_batches (stored now <$> assets) batch_size) d).2.
Proof.
  unfold create_assets_bulk. case_bool_decide; [by left|]. case_bool_decide; [by left|].
  right.
  exists {| all_conflictive_id_internos := [];
            all_inserted_id_internos := ∅;
            all_failed_id_internos := [] |}.
  unfold_m.
  change (λ a : AssetCreate,
            {| row_asset := a; version := 1; created_at := now; updated_at := now |})
    with (stored now).
  destruct (foldM process_batch _ _ d) as [[t|e] d1] eqn:Eloop; simpl.
  - pose proof (upsert_conflictive_asset_table now assets t d1) as Hup.
    destruct (upsert_conflictive now assets t d1) as [[r|e] d2]; simpl in *.
    + done.
    + destruct (is_DBAPIError e); simpl; [done|]. by destruct e.
  - destruct (is_DBAPIError e); simpl; [done|]. by destruct e.
Qed.

(** X13. Bulk creation never changes and never removes a row that is in the
    asset table, whatever the rows submitted and whatever statement
    fails; a row it adds is a submitted row, stored under its own
    [id_interno] with version 1 and the time of the call. *)
Theorem existing_assets_are_never_overwritten (now : Z) (assets : list AssetCreate)
    (batch_size : Z) (d : db) :
  rows_kept d (create_assets_bulk now assets batch_size d).2
  ∧ rows_from now assets d (create_assets_bulk now assets batch_size d).2.
Proof.
  destruct (create_assets_bulk_asset_table now assets batch_size d) as [H|[t H]].
  { unfold rows_kept, rows_from. rewrite H. split; [done|]. intros k row. by left. }
  unfold rows_kept, rows_from. rewrite H.
  pose proof (foldM_state
    (λ d1 : db,
       (∀ k row, asset_table d !! k = Some row → asset_table d1 !! k = Some row)
       ∧ (∀ k row, asset_table d1 !! k = Some row →
            asset_table d !! k = Some row
            ∨ ∃ a, a ∈ assets ∧ row = stored now a ∧ k = id_interno a))
    (λ batch, ∀ r, r ∈ batch → r ∈ stored now <$> assets)
    process_batch (insert_batches (stored now <$> assets) batch_size)) as Hfold.
  apply Hfold; [|apply batches_of_rows|by auto].
  intros t' batch d1 Hbatch [Hkept Hfrom].
  destruct (process_batch_tables t' batch d1) as [[-> | ->] _]; [done|]. split.
  - intros k row Hk. by apply insert_do_nothing_kept, Hkept.
  - intros k row Hk. apply insert_do_nothing_from in Hk as [Hk|[Hin ->]]; [by apply Hfrom|].
    right. apply Hbatch in Hin. apply list_elem_of_fmap in Hin as (a & -> & Ha).
    by exists a.
Qed.

Lemma insert_do_nothing_fresh batch tbl :
  NoDup (row_id <$> batch) → (∀ r, r ∈ batch → tbl !! row_id r = None) →
  insert_do_nothing batch tbl
  = (foldl (λ t r, <[row_id r := r]> t) tbl batch, row_id <$> batch).
Proof.
  revert tbl. induction batch as [|r batch IH]; intros tbl Hnd Hfresh; [done|].
  rewrite fmap_cons in Hnd. apply NoDup_cons in Hnd as [Hr Hnd].
  cbn [insert_do_nothing]. rewrite (Hfresh r) by left.
  rewrite IH; [done|done|].
  intros r' Hr'. rewrite lookup_insert_ne; [apply Hfresh; by right|].
  intros Heq. apply Hr. rewrite Heq. apply list_elem_of_fmap. by exists r'.
Qed.

Lemma lookup_foldl_insert_ne (rows : list asset_row) (tbl : gmap Z asset_row) k :
  k ∉ row_id <$> rows → foldl (λ t r, <[row_id r := r]> t) tbl rows !! k = tbl !! k.
Proof.
  revert tbl. induction rows as [|r rows IH]; intros tbl Hk; [done|].
  rewrite fmap_cons in Hk. apply not_elem_of_cons in Hk as [Hne Hk].
  cbn [foldl]. rewrite IH by done. by rewrite lookup_insert_ne.
Qed.

Lemma lookup_foldl_insert (rows : list asset_row) (tbl : gmap Z asset_row) r :
  NoDup (row_id <$> rows) → r ∈ rows →
  foldl (λ t r, <[row_id r := r]> t) tbl rows !! row_id r = Some r.
Proof.
  revert tbl. induction rows as [|r0 rows IH]; intros tbl Hnd Hr.
  { by apply elem_of_nil in Hr. }
  rewrite fmap_cons in Hnd. apply NoDup_cons in Hnd as [Hr0 Hnd].
  cbn [foldl]. apply elem_of_cons in Hr as [->|Hr]; [|by apply IH].
  rewrite lookup_foldl_insert_ne by done. apply lookup_insert_eq.
Qed.

(** The loop over batches whose keys are all new and all different,
    when no statement fails. *)
Lemma fresh_loop (batches : list (list asset_row)) :
  ∀ t d,
    failures d = [] →
    NoDup (row_id <$> concat batches) →
    (∀ r, r ∈ concat batches → asset_table d !! row_id r = None) →
    foldM process_batch t batches d
    = (Ok {| all_conflictive_id_internos := all_conflictive_id_internos t;
             all_inserted_id_internos :=
               all_inserted_id_internos t ∪ list_to_set (row_id <$> concat batches);
             all_failed_id_internos := all_failed_id_internos t |},
       Db (foldl (λ t r, <[row_id r := r]> t) (asset_table d) (concat batches))
          (conflictive_asset_table d)
          (executed d ++ (InsertAssets <$> batches)) []).
Proof.
  induction batches as [|batch batches IH]; intros t d Hf Hnd Hfresh.
  - simpl. unfold_m. rewrite app_nil_r. destruct t, d; simpl in *. subst.
    do 3 f_equal. set_solver.
  - cbn [concat] in *. rewrite fmap_app in Hnd.
    apply NoDup_app in Hnd as (Hnd1 & Hdisj & Hnd2).
    cbn [foldM]. unfold_m. unfold process_batch at 1, execute_insert, begin_statement.
    unfold_m. rewrite Hf. simpl.
    rewrite insert_do_nothing_fresh;
      [|done|intros r Hr; apply Hfresh, elem_of_app; by left]. simpl.
    rewrite IH; simpl; [|done|done|].
    + rewrite foldl_app, fmap_app, <- app_assoc. simpl.
      assert (Hempty : batch_id_internos batch ∖ list_to_set (row_id <$> batch) = ∅).
      { unfold batch_id_internos. set_solver. }
      rewrite Hempty, elements_empty, app_nil_r. do 3 f_equal.
      rewrite list_to_set_app_L. set_solver.
    + intros r Hr. rewrite lookup_foldl_insert_ne.
      * apply Hfresh, elem_of_app. by right.
      * intros Hin. apply (Hdisj (row_id r)); [done|].
        apply list_elem_of_fmap. by exists r.
Qed.

(** X14. Rows whose keys are all different and none of which is in the asset
    table are all created, when the batch size is positive and no
    statement fails: the summary counts every row as created and none as
    conflictive or failed, each row is stored under its [id_interno],
    the conflictive table is not touched, and the statements executed
    are the inserts of the batches, with no upsert. *)
Theorem fresh_keys_are_all_created (now : Z) (assets : list AssetCreate) (batch_size : Z)
    (d : db) :
  assets ≠ [] → (0 < batch_size)%Z → failures d = [] →
  NoDup (id_interno <$> assets) →
  (∀ a, a ∈ assets → asset_table d !! id_interno a = None) →
  ∃ d', create_assets_bulk now assets batch_size d
        = (Ok [("created", VInt (Z.of_nat (length assets))); ("conflictive", VInt 0);
               ("total", VInt (Z.of_nat (length assets))); ("failed", VInt 0);
               ("failed_id_internos", VList [])], d')
        ∧ (∀ a, a ∈ assets → asset_table d' !! id_interno a = Some (stored now a))
        ∧ conflictive_asset_table d' = conflictive_asset_table d
        ∧ executed d'
          = executed d
            ++ (InsertAssets <$> insert_batches (stored now <$> assets) batch_size).
Proof.
  intros Hne Hpos Hf Hnd Hfresh.
  set (rows := stored now <$> assets).
  assert (Hids : row_id <$> rows = id_interno <$> assets).
  { unfold rows. by rewrite <- list_fmap_compose. }
  pose proof (concat_insert_batches rows batch_size Hpos) as Hcat.
  assert (Hloop := fresh_loop (insert_batches rows batch_size)
                     {| all_conflictive_id_internos := [];
                        all_inserted_id_internos := ∅;
                        all_failed_id_internos := [] |} d Hf).
  rewrite Hcat in Hloop. simpl in Hloop.
  specialize (Hloop ltac:(by rewrite Hids)).
  assert (Hrows : ∀ r, r ∈ rows → asset_table d !! row_id r = None).
  { intros r Hr. apply list_elem_of_fmap in Hr as (a & -> & Ha). by apply Hfresh. }
  specialize (Hloop Hrows).
  eexists. split; [|split; [|split]].
  - unfold create_assets_bulk.
    rewrite bool_decide_eq_false_2 by (by destruct assets).
    rewrite bool_decide_eq_false_2 by lia. unfold_m.
    change (λ a : AssetCreate,
              {| row_asset := a; version := 1; created_at := now; updated_at := now |})
      with (stored now).
    fold rows. rewrite Hloop. simpl. unfold_m.
    rewrite union_empty_l_L, Hids, size_list_to_set by done.
    by rewrite length_fmap.
  - intros a Ha. simpl.
    change (id_interno a) with (row_id (stored now a)).
    apply lookup_foldl_insert; [by rewrite Hids|].
    apply list_elem_of_fmap. by exists a.
  - done.
  - done.
Qed.

(** X14, for concrete rows. *)
Lemma fresh_keys_are_all_created_witness :
  ∃ d', create_assets_bulk 7 [candidate 1 "a"; candidate 2 "b"; candidate 3 "c"] 2 empty_db
        = (Ok [("created", VInt 3); ("conflictive", VInt 0); ("total", VInt 3);
               ("failed", VInt 0); ("failed_id_internos", VList [])], d')
        ∧ asset_table d' !! 3%Z = Some (stored 7 (candidate 3 "c"))
        ∧ length (executed d') = 2.
Proof.
  destruct (fresh_keys_are_all_created 7
              [candidate 1 "a"; candidate 2 "b"; candidate 3 "c"] 2 empty_db)
    as (d' & Hrun & Hrows & _ & Hex); [done|done|done| | |].
  - apply (bool_decide_unpack _). by vm_compute.
  - intros a _. apply lookup_empty.
  - exists d'. split; [exact Hrun|]. split.
    + apply (Hrows (candidate 3 "c")). do 2 right. left.
    + rewrite Hex. by vm_compute.
Defined.

Lemma process_batch_failed_ids done_ t batch d t' d' :
  process_batch t batch d = (Ok t', d') →
  (∀ x, x ∈ all_failed_id_internos t → x ∈ row_id <$> concat done_) →
  ∀ x, x ∈ all_failed_id_internos t' → x ∈ row_id <$> concat (done_ ++ [batch]).
Proof.
  unfold process_batch, execute_insert, begin_statement. unfold_m.
  intros Hrun Hinv x. rewrite concat_app, fmap_app. simpl. rewrite app_nil_r.
  assert (Hold : x ∈ all_failed_id_internos t →
                 x ∈ (row_id <$> concat done_) ++ (row_id <$> batch)).
  { intros Hx. apply elem_of_app. left. by apply Hinv. }
  assert (Hnew : x ∈ all_failed_id_internos t ++ elements (batch_id_internos batch) →
                 x ∈ (row_id <$> concat done_) ++ (row_id <$> batch)).
  { intros Hx. apply elem_of_app in Hx as [Hx|Hx]; [by apply Hold|].
    apply elem_of_app. right. apply elem_of_elements in Hx.
    unfold batch_id_internos in Hx. by apply elem_of_list_to_set in Hx. }
  destruct (failures d) as [|[[[| |] code]|] fl] eqn:Ef; simpl in *;
    try (injection Hrun as <- <-; done).
  discriminate.
Qed.

Lemma upsert_conflictive_failed_ids now assets t d r d' :
  upsert_conflictive now assets t d = (Ok r, d') →
  ∀ x, x ∈ r.2 → x ∈ all_failed_id_internos t ∨ x ∈ all_conflictive_id_internos t.
Proof.
  unfold upsert_conflictive.
  destruct (all_conflictive_id_internos t) as [|c0 cs] eqn:Ec.
  { unfold_m. intros [= <- <-] x Hx. by left. }
  rewrite <- Ec. clear c0 cs Ec.
  unfold execute_upsert, begin_statement. unfold_m. intros Hrun x.
  destruct (failures d) as [|[[[| |] code]|] fl] eqn:Ef; simpl in *;
    try (case_bool_decide; simpl in *; [|done]);
    try (injection Hrun as <- <-; simpl; rewrite ?elem_of_app; tauto).
  done.
Qed.

(** X15. In a summary that bulk creation returns for a non-empty input,
    [failed] is the length of [failed_id_internos], that list is in
    ascending order, and every id in it is the [id_interno] of a
    submitted row. *)
Theorem failed_ids_are_submitted_and_sorted (now : Z) (assets : list AssetCreate)
    (batch_size : Z) (d d' : db) (summary : dict) :
  assets ≠ [] →
  create_assets_bulk now assets batch_size d = (Ok summary, d') →
  ∃ failed_ids,
    dict_get summary "failed_id_internos" = Some (VList failed_ids)
    ∧ dict_get summary "failed" = Some (VInt (Z.of_nat (length failed_ids)))
    ∧ Sorted Z.le failed_ids
    ∧ ∀ x, x ∈ failed_ids → x ∈ id_interno <$> assets.
Proof.
  intros Hne Hrun.
  destruct (create_assets_bulk_ok _ _ _ _ _ _ Hne Hrun) as (t & d1 & r & Hloop & Hup & ->).
  exists (merge_sort Z.le r.2). split; [done|]. split; [|split].
  - simpl. by rewrite (Permutation_length (merge_sort_Permutation Z.le r.2)).
  - apply (Sorted_merge_sort Z.le).
  - intros x Hx. rewrite (merge_sort_Permutation Z.le r.2) in Hx.
    set (rows := (λ a, {| row_asset := a; version := 1; created_at := now;
                          updated_at := now |}) <$> assets) in *.
    assert (Hids : row_id <$> rows = id_interno <$> assets).
    { unfold rows. by rewrite <- list_fmap_compose. }
    assert (Hinv : ingest_inv (insert_batches rows batch_size) t d1
                   ∧ ∀ y, y ∈ all_failed_id_internos t →
                          y ∈ row_id <$> concat (insert_batches rows batch_size)).
    { apply (foldM_inv
               (λ done_ t d, ingest_inv done_ t d
                             ∧ ∀ y, y ∈ all_failed_id_internos t →
                                    y ∈ row_id <$> concat done_)
               process_batch (insert_batches rows batch_size)
               ltac:(intros done_ b t0 d0 t1 d2 Hstep [Hi Hfl]; split;
                     [by eapply process_batch_inv
                     |by eapply process_batch_failed_ids])
               [] _ _ _ _ Hloop).
      split; [|by intros y Hy; apply elem_of_nil in Hy].
      by repeat split; simpl; try set_solver. }
    destruct Hinv as [(_ & _ & Hconf) Hfailed].
    destruct (concat_insert_batches_take rows batch_size) as [k Hk].
    assert (Hsub : ∀ y, y ∈ row_id <$> concat (insert_batches rows batch_size) →
                        y ∈ id_interno <$> assets).
    { intros y Hy. rewrite Hk in Hy. rewrite <- Hids.
      apply list_elem_of_fmap in Hy as (r0 & -> & Hr0).
      apply list_elem_of_fmap. exists r0. split; [done|]. by apply subseteq_take in Hr0. }
    destruct (upsert_conflictive_failed_ids _ _ _ _ _ _ Hup x Hx) as [Hin|Hin].
    + by apply Hsub, Hfailed.
    + apply Hsub. by eapply elem_of_submseteq.
Qed.

(** X15, for concrete rows. *)
Lemma failed_ids_are_submitted_and_sorted_witness :
  ∃ failed_ids,
    dict_get
      (create_assets_bulk_summary_example) "failed_id_internos" = Some (VList failed_ids)
    ∧ Sorted Z.le failed_ids.
Proof.
  destruct (failed_ids_are_submitted_and_sorted 0 [candidate 2 "b"; candidate 1 "a"] 200
              (Db ∅ ∅ [] [Some (IntegrityError, "23503")])
              (Db ∅ ∅ [InsertAssets [stored 0 (candidate 2 "b"); stored 0 (candidate 1 "a")]] [])
              create_assets_bulk_summary_example)
    as (ids & H1 & _ & H2 & _); [done|by vm_compute|].
  by exists ids.
Defined.

(** X16. For a positive batch size the batches are the rows, cut in order
    into pieces: put end to end they give back the rows, none lost and
    none repeated, and every batch has at least one row and at most
    [batch_size]. *)
Theorem batches_partition_the_rows (rows : list asset_row) (batch_size : Z) :
  (0 < batch_size)%Z →
  concat (insert_batches rows batch_size) = rows
  ∧ Forall (λ batch, 0 < length batch ≤ Z.to_nat batch_size)
      (insert_batches rows batch_size).
Proof.
  intros Hpos. split; [by apply concat_insert_batches|].
  unfold insert_batches, range_from_zero. rewrite bool_decide_eq_true_2 by done.
  rewrite <- list_fmap_compose. apply Forall_fmap, Forall_forall. intros k Hk.
  apply elem_of_seq in Hk as [_ Hk]. simpl in Hk. simpl. unfold slice.
  rewrite length_take, length_drop.
  pose proof (Z.div_mod (Z.of_nat (length rows) + batch_size - 1) batch_size) as Hdm.
  pose proof (Z.mod_pos_bound (Z.of_nat (length rows) + batch_size - 1) batch_size Hpos).
  assert (0 ≤ (Z.of_nat (length rows) + batch_size - 1) `div` batch_size)%Z
    by (apply Z.div_pos; lia).
  nia.
Qed.

(** X16, for concrete rows. *)
Lemma batches_partition_the_rows_witness :
  insert_batches (stored 0 <$> [candidate 1 "a"; candidate 2 "b"; candidate 3 "c"]) 2
  = [stored 0 <$> [candidate 1 "a"; candidate 2 "b"]; stored 0 <$> [candidate 3 "c"]]
  ∧ Forall (λ batch, 0 < length batch ≤ 2)
      (insert_batches (stored 0 <$> [candidate 1 "a"; candidate 2 "b"; candidate 3 "c"]) 2).
Proof.
  split; [by vm_compute|].
  apply (batches_partition_the_rows
           (stored 0 <$> [candidate 1 "a"; candidate 2 "b"; candidate 3 "c"]) 2).
  lia.
Defined.

End BulkIngestMore.

Module PhotoUploadMore.
Local Open Scope list_scope.
Local Open Scope nat_scope.
Import Models PhotoUpload PhotoUploadSpec PhotoUploadFacts PhotoUploadMoreSpec MonadFacts.

Lemma validate_photo_extensions_raise cfg photos e :
  validate_photo_extensions cfg photos = Raise e → ∃ detail, e = HTTPException 400 detail.
Proof.
  unfold validate_photo_extensions.
  induction photos as [|ph photos IH]; [done|]. simpl.
  destruct (validate_photo_extension cfg ph) as [[]|e'] eqn:E; [by apply IH|].
  intros [= <-]. unfold validate_photo_extension in E.
  destruct (filename ph); [injection E as <-; by eexists|].
  case_bool_decide; [done|]. injection E as <-. by eexists.
Qed.

Lemma validate_photo_sizes_raise cfg photos e :
  validate_photo_sizes cfg photos = Raise e →
  (∃ detail, e = HTTPException 400 detail) ∨ ∃ ph, ph ∈ photos ∧ read_error ph = Some e.
Proof.
  unfold validate_photo_sizes.
  induction photos as [|ph photos IH]; [done|]. simpl.
  destruct (validate_photo_size cfg ph) as [[]|e'] eqn:E.
  - intros H. destruct (IH H) as [?|(ph' & ? & ?)]; [by left|right].
    exists ph'. split; [by right|done].
  - intros [= <-]. unfold validate_photo_size, read in E.
    destruct (read_error ph) as [e0|] eqn:Er.
    + injection E as <-. right. exists ph. split; [by left|done].
    + case_bool_decide; [|done]. injection E as <-. left. by eexists.
Qed.

(** X17. A call raises in three places only. A request that fails one of
    the four checks is refused before anything is read from the tables,
    saved or updated: the exception is an HTTPException 400, or the
    exception that reading a photo raised, and the world is as before.
    A SELECT of phase 1 that raises ends the call before any save and
    any UPDATE: the exception is that of the statement, and the world is
    as before but for the statement outcomes used up. The rollback of
    phase 3 that raises ends the call after the saves: the last call
    recorded is that rollback, and what was committed is as before. *)
Theorem bulk_upload_raises_in_three_places (cfg : config) (ids_internos : list Z)
    (photos : list UploadFile) (w w' : world) (e : exn) :
  bulk_photo_upload cfg ids_internos photos w = (Raise e, w') →
  (w' = w
   ∧ ((∃ detail, e = HTTPException 400 detail)
      ∨ ∃ ph, ph ∈ photos ∧ read_error ph = Some e))
  ∨ (validated cfg ids_internos photos
     ∧ ((Fails e ∈ statement_outcomes w ∧ outcomes_consumed w w')
        ∨ (committed w' = committed w
           ∧ ∃ evs, events w' = events w ++ evs ++ [Rollback]))).
Proof.
  intros H.
  destruct (res_unit_cases (validate_request_limits cfg photos)) as [V1|[e1 V1]].
  2:{ unfold bulk_photo_upload in H. unfold_m. rewrite V1 in H. injection H as <- <-.
      left. split; [done|]. left. unfold validate_request_limits in V1.
      case_bool_decide; [|done]. injection V1 as <-. by eexists. }
  destruct (res_unit_cases (validate_photo_and_asset_length ids_internos photos))
    as [V2|[e2 V2]].
  2:{ unfold bulk_photo_upload in H. unfold_m. rewrite V1, V2 in H. injection H as <- <-.
      left. split; [done|]. left. unfold validate_photo_and_asset_length in V2.
      case_bool_decide; [|done]. injection V2 as <-. by eexists. }
  destruct (res_unit_cases (validate_photo_extensions cfg photos)) as [V3|[e3 V3]].
  2:{ unfold bulk_photo_upload in H. unfold_m. rewrite V1, V2, V3 in H.
      injection H as <- <-. left. split; [done|]. left.
      by apply (validate_photo_extensions_raise cfg photos). }
  destruct (res_unit_cases (validate_photo_sizes cfg photos)) as [V4|[e4 V4]].
  2:{ unfold bulk_photo_upload in H. unfold_m. rewrite V1, V2, V3, V4 in H.
      injection H as <- <-. left. split; [done|].
      by apply (validate_photo_sizes_raise cfg photos). }
  right. assert (Hv : validated cfg ids_internos photos) by done. split; [done|].
  destruct (bulk_photo_upload_validated (λ _, True) cfg ids_internos photos w Hv)
    as [(e' & w1 & _ & Hrun & Hw1 & Hin)
       |(w1 & saved & w2 & r & w3 & _ & _ & _ & _ & Hrun & _ & _ & _ & _ & _ & Hraise)].
  { by apply Forall_forall. }
  - rewrite Hrun in H. injection H as <- <-. by left.
  - rewrite Hrun in H. destruct r as [updated|e']; [done|]. injection H as <- <-.
    right. destruct (Hraise e' eq_refl) as (_ & Hcm & Hevs). done.
Qed.

(** X17, for three concrete requests. *)
Lemma bulk_upload_raises_in_three_places_witness :
  (∃ detail,
     bulk_photo_upload demo_config [1]%Z demo_photos (demo_world [])
     = (Raise (HTTPException 400 detail), demo_world []))
  ∧ bulk_photo_upload demo_config [1; 2]%Z demo_photos (demo_world [Fails connection_lost])
    = (Raise connection_lost, demo_world [])
  ∧ (bulk_photo_upload demo_config [1; 2]%Z demo_photos
       (demo_world [Runs; Runs; Fails connection_lost; Fails session_closed])).1
    = Raise session_closed.
Proof.
  split; [|split; by vm_compute].
  assert (H : bulk_photo_upload demo_config [1]%Z demo_photos (demo_world [])
              = (Raise (HTTPException 400
                          "The number of ids_internos must match the number of photos"),
                 demo_world [])) by (by vm_compute).
  destruct (bulk_upload_raises_in_three_places _ _ _ _ _ _ H)
    as [[_ [[detail Hd]|(ph & Hph & Hread)]]|[(_ & Hv & _) _]].
  - exists detail. by rewrite H, Hd.
  - apply list_elem_of_In in Hph. simpl in Hph. by destruct Hph as [<-|[<-|[]]].
  - by vm_compute in Hv.
Defined.

Lemma resolve_ids (D1 D2 : gmap Z Asset) (pairs : list (Z * UploadFile)) :
  ∀ acc,
    (plan_id_interno <$> (foldl (resolve D1 D2) acc pairs).1.1)
    ++ (response_id_interno <$> (foldl (resolve D1 D2) acc pairs).2)
    ≡ₚ (plan_id_interno <$> acc.1.1) ++ (response_id_interno <$> acc.2) ++ pairs.*1.
Proof.
  induction pairs as [|[i ph] pairs IH]; intros acc.
  - simpl. by rewrite app_nil_r.
  - cbn [foldl]. rewrite IH. unfold resolve. cbn [fst snd].
    destruct (D1 !! i) as [a|]; [|destruct (D2 !! i) as [a|]]; cbn [fst snd];
      rewrite ?fmap_app, fmap_cons; simpl; solve_Permutation.
Qed.

Lemma save_items_ids (plan : list plan_item) :
  ∀ acc w saved w2,
    foldM save_item acc plan w = (Ok saved, w2) →
    (plan_id_interno <$> saved.1.1) ++ (response_id_interno <$> saved.2)
    ≡ₚ (plan_id_interno <$> acc.1.1) ++ (response_id_interno <$> acc.2)
       ++ (plan_id_interno <$> plan).
Proof.
  induction plan as [|item plan IH]; intros acc w saved w2.
  - simpl. unfold_m. intros [= <- <-]. by rewrite app_nil_r.
  - simpl. unfold_m.
    destruct (save_item_cases acc item w) as (w1 & [-> | [msg ->]] & _).
    + intros H. rewrite (IH _ _ _ _ H). cbn [fst snd]. rewrite fmap_app. simpl.
      solve_Permutation.
    + intros H. rewrite (IH _ _ _ _ H). cbn [fst snd]. rewrite fmap_app. simpl.
      solve_Permutation.
Qed.

(** X18. A call that returns gives one result for each (id, photo) pair of
    the request: the ids of the results are the ids requested, each as
    often as it was sent (in another order: the unknown ids first, the
    failed saves next); [total_processed] is the number of pairs,
    [total_successful] the number of results that are successes, and
    [total_failed] the rest. *)
Theorem one_result_per_pair (cfg : config) (ids_internos : list Z)
    (photos : list UploadFile) (w w' : world) (resp : BulkPhotoUploadResponse) :
  bulk_photo_upload cfg ids_internos photos w = (Ok resp, w') →
  response_id_interno <$> results resp ≡ₚ ids_internos
  ∧ length (results resp) = length ids_internos
  ∧ total_processed resp = length ids_internos
  ∧ total_successful resp = length (List.filter success (results resp))
  ∧ (Z.of_nat (total_successful resp) + total_failed resp
     = Z.of_nat (total_processed resp))%Z
  ∧ (0 ≤ total_failed resp)%Z.
Proof.
  intros Hrun. pose proof (bulk_photo_upload_returns _ _ _ _ _ _ Hrun) as Hv.
  destruct (bulk_photo_upload_ok (λ _, True) cfg ids_internos photos w resp w' Hrun)
    as (w1 & saved & w2 & updated & _ & Hsave & _ & -> & _).
  { by apply Forall_forall. }
  assert (Hrec : ∀ l : list plan_item, response_id_interno <$> (reconcile updated <$> l)
                      = plan_id_interno <$> l).
  { induction l as [|it l IH]; [done|]. rewrite !fmap_cons, IH. f_equal.
    unfold reconcile. by destruct (bool_decide _). }
  assert (Hperm : response_id_interno
                    <$> saved.2 ++ (reconcile updated <$> saved.1.1) ≡ₚ ids_internos).
  { rewrite fmap_app, Hrec.
    rewrite (Permutation_app_comm (response_id_interno <$> saved.2)).
    rewrite (save_items_ids _ _ _ _ _ Hsave). cbn [fst snd fmap list_fmap app].
    rewrite (Permutation_app_comm (response_id_interno <$> (planned ids_internos photos w).2)).
    unfold planned. rewrite resolve_ids. cbn [fst snd fmap list_fmap app].
    unfold zip_pairs. rewrite fst_zip; [done|].
    by rewrite (validated_lengths _ _ _ Hv). }
  assert (Hlen : length (saved.2 ++ (reconcile updated <$> saved.1.1))
                 = length ids_internos).
  { rewrite <- (Permutation_length Hperm). by rewrite length_fmap. }
  split; [exact Hperm|]. split; [exact Hlen|]. split; [done|]. split; [done|].
  unfold response_of. cbn [total_successful total_failed total_processed].
  pose proof (List.filter_length_le success
                (saved.2 ++ (reconcile updated <$> saved.1.1))) as Hle.
  rewrite Hlen in Hle. lia.
Qed.

(** X18, for a concrete request. *)
Lemma one_result_per_pair_witness :
  ∃ resp w', bulk_photo_upload demo_config [9; 1]%Z demo_photos (demo_world []) = (Ok resp, w')
             ∧ response_id_interno <$> results resp ≡ₚ [9; 1]%Z
             ∧ total_successful resp = 1
             ∧ total_failed resp = 1%Z.
Proof.
  destruct (bulk_photo_upload demo_config [9; 1]%Z demo_photos (demo_world []))
    as [[resp|e] w'] eqn:Hrun; [|by vm_compute in Hrun].
  exists resp, w'. split; [done|].
  destruct (one_result_per_pair _ _ _ _ _ _ Hrun) as (Hperm & _).
  split; [exact Hperm|].
  vm_compute in Hrun. injection Hrun as <- <-. by vm_compute.
Defined.

Lemma update_loop_nonzero c updates :
  ∀ acc w r w',
    foldM (λ updated_ids update_item,
             updated_id ← execute_update c (u_id_interno update_item)
                            (u_photo_name update_item);
             match updated_id with
             | Some i => if bool_decide (i ≠ 0%Z) then mret (updated_ids ++ [i])
                         else mret updated_ids
             | None => mret updated_ids
             end) acc updates w = (Ok r, w') →
    0%Z ∉ acc → 0%Z ∉ r.
Proof.
  induction updates as [|u updates IH]; intros acc w r w'.
  - simpl. unfold_m. by intros [= <- <-].
  - simpl. unfold_m.
    destruct (execute_update c (u_id_interno u) (u_photo_name u) w) as [[[i|]|e] w1];
      [|by apply IH|done].
    case_bool_decide as Hi; unfold_m; intros H Hacc; eapply IH; try exact H; [|done].
    rewrite elem_of_app, list_elem_of_singleton. intros [?|?]; [done|]. by apply Hi.
Qed.

Lemma update_table_nonzero data c w r w' :
  update_table data c w = (Ok r, w') → 0%Z ∉ r.
Proof.
  unfold update_table, _bulk_update_asset_photos. destruct data as [|u data].
  { unfold_m. intros [= <- <-]. set_solver. }
  unfold_m.
  destruct (foldM _ [] (u :: data) w) as [[ids|e] w1] eqn:E; [|done].
  intros [= <- <-]. apply update_loop_nonzero in E; [|by apply not_elem_of_nil].
  by rewrite elem_of_list_to_set.
Qed.

Lemma rollback_handler (w : world) (updated : gset Z) (w' : world) :
  (rollback;; mret (∅ : gset Z)) w = (Ok updated, w') → updated = ∅.
Proof.
  unfold rollback, record_event, next_outcome. unfold_m.
  destruct w as [a cf cm p1 p2 sf so ev]; simpl.
  destruct so as [|[| |e] so]; simpl; by intros [= <- <-].
Qed.

Lemma database_phase_nonzero su w updated w' :
  database_phase su w = (Ok updated, w') → 0%Z ∉ updated.
Proof.
  unfold database_phase. destruct su as [|it su].
  { unfold_m. intros [= <- <-]. set_solver. }
  unfold try_except.
  destruct (database_updates (it :: su) w) as [[r|e] w3] eqn:E.
  2:{ intros ->%rollback_handler. set_solver. }
  intros [= <- <-]. revert E. unfold database_updates. unfold_m.
  destruct (update_table _ false w) as [[r1|e] w1] eqn:E1; [|done].
  destruct (update_table _ true w1) as [[r2|e] w2] eqn:E2; [|done].
  apply update_table_nonzero in E1, E2.
  destruct (commit w2) as [[[]|e] w4]; [|done].
  intros [= <- <-]. set_solver.
Qed.

(** X19. The update of a row counts only when the id returned is truthy
    ([if updated_id:]): the result for an id_interno of 0 is never a
    success, also when its photo was saved and its row updated and
    committed. *)
Theorem id_zero_is_never_confirmed (cfg : config) (ids_internos : list Z)
    (photos : list UploadFile) (w w' : world) (resp : BulkPhotoUploadResponse) :
  bulk_photo_upload cfg ids_internos photos w = (Ok resp, w') →
  ∀ r, r ∈ results resp → response_id_interno r = 0%Z → success r = false.
Proof.
  intros Hrun r Hr Hzero.
  destruct (bulk_photo_upload_ok (λ _, True) cfg ids_internos photos w resp w' Hrun)
    as (w1 & saved & w2 & updated & _ & _ & Hdb & -> & _ & _ & (fails & Hsaved & Hfails) & _).
  { by apply Forall_forall. }
  simpl in Hr.
  apply database_phase_nonzero in Hdb.
  rewrite Hsaved in Hr. apply elem_of_app in Hr as [Hr|Hr].
  - apply elem_of_app in Hr as [Hr|Hr].
    + pose proof (resolve_failures
                    (by_id_interno (select_by_ids_internos (asset_table w) ids_internos))
                    (by_id_interno
                       (select_by_ids_internos (conflictive_asset_table w) ids_internos))
                    (zip_pairs ids_internos photos) ([], [], [])
                    ltac:(by constructor)) as Hnf.
      fold (planned ids_internos photos w) in Hnf.
      rewrite Forall_forall in Hnf. by apply Hnf.
    + rewrite Forall_forall in Hfails. by apply Hfails.
  - apply list_elem_of_fmap in Hr as (it & -> & _). unfold reconcile in *.
    case_bool_decide as Hin; [|done]. simpl in Hzero. by rewrite Hzero in Hin.
Qed.

(** X19, for a concrete request. *)
Lemma id_zero_is_never_confirmed_witness :
  ∃ resp w', bulk_photo_upload demo_config [0]%Z [Build_UploadFile "a.jpg" "x" None] zero_world
             = (Ok resp, w')
             ∧ Forall (λ r, success r = false) (results resp)
             ∧ nombre_foto_codigo_barra <$> (committed w').1
               = [Some "20240307_0_codigo_barra.jpg"].
Proof.
  destruct (bulk_photo_upload demo_config [0]%Z [Build_UploadFile "a.jpg" "x" None] zero_world)
    as [[resp|e] w'] eqn:Hrun; [|by vm_compute in Hrun].
  exists resp, w'. split; [done|].
  pose proof (id_zero_is_never_confirmed _ _ _ _ _ _ Hrun) as H.
  vm_compute in Hrun. injection Hrun as <- <-. split; [|by vm_compute].
  apply Forall_forall. intros r Hr. apply H; [done|].
  apply list_elem_of_singleton in Hr. by subst r.
Defined.

(** *** The photo directories *)

Lemma execute_update_dirs d1 d2 c i n w :
  dirs_are d1 d2 w → dirs_are d1 d2 (execute_update c i n w).2.
Proof.
  unfold execute_update, record_event, next_outcome. unfold_m. intros [H1 H2].
  destruct w as [a cf cm p1 p2 sf so ev]; simpl in *.
  destruct so as [|[| |e] so]; simpl; try done; by destruct c.
Qed.

Lemma update_table_dirs d1 d2 data c w :
  dirs_are d1 d2 w → dirs_are d1 d2 (update_table data c w).2.
Proof.
  intros Hw. unfold update_table, _bulk_update_asset_photos.
  destruct data as [|u data]; [done|].
  apply (bind_state (dirs_are d1 d2)); [|done|done].
  intros s Hs. apply try_except_state; [|done|done].
  intros s' Hs'.
  apply (foldM_state (dirs_are d1 d2) (λ _, True)); [|by apply Forall_forall|done].
  intros b x s0 _ Hs0. apply (bind_state (dirs_are d1 d2)); [|..|done].
  - intros s1 Hs1. by apply execute_update_dirs.
  - intros [i|] s1 Hs1; [|done]. by case_bool_decide.
Qed.

Lemma commit_dirs d1 d2 w : dirs_are d1 d2 w → dirs_are d1 d2 (commit w).2.
Proof.
  unfold commit, record_event, next_outcome. unfold_m. intros [H1 H2].
  destruct w as [a cf cm p1 p2 sf so ev]; simpl in *.
  by destruct so as [|[| |e] so].
Qed.

Lemma database_phase_dirs d1 d2 su w :
  dirs_are d1 d2 w → dirs_are d1 d2 (database_phase su w).2.
Proof.
  intros Hw. unfold database_phase. destruct su as [|it su]; [done|].
  apply try_except_state; [| |done].
  - intros s Hs. unfold database_updates.
    apply (bind_state (dirs_are d1 d2)); [by intros; apply update_table_dirs| |done].
    intros r1 s1 Hs1.
    apply (bind_state (dirs_are d1 d2)); [by intros; apply update_table_dirs| |done].
    intros r2 s2 Hs2.
    apply (bind_state (dirs_are d1 d2)); [by intros; apply commit_dirs|done|done].
  - intros e s [H1 H2]. unfold rollback, record_event, next_outcome. unfold_m.
    destruct s as [a cf cm p1 p2 sf so ev]; simpl in *.
    by destruct so as [|[| |e'] so].
Qed.

Lemma leading_part_whole (x : string) : leading_part x x.
Proof.
  exists (String.length x). induction x as [|c x IH]; [done|]. simpl. by rewrite <- IH.
Qed.

(** A save either succeeds, with the content written, or fails, with
    the directories as they were or the start of the content written. *)
Lemma save_item_dirs acc item w :
  ∃ w1,
    (save_item acc item w = (Ok (acc.1.1 ++ [item], acc.1.2, acc.2), w1)
     ∧ wrote item (content (photo item)) w w1)
    ∨ (∃ msg, save_item acc item w
              = (Ok (acc.1.1, acc.1.2 ++ [plan_id_interno item],
                     acc.2 ++ [filesystem_failure item msg]), w1))
      ∧ ((asset_photos_dir w1 = asset_photos_dir w
          ∧ conflictive_asset_photos_dir w1 = conflictive_asset_photos_dir w)
         ∨ ∃ n, wrote item (substring 0 n (content (photo item))) w w1).
Proof.
  unfold save_item, _save_photo_to_filesystem_safe, write_photo, store_photo, read,
    record_event, next_save_failure, wrote.
  unfold_m. destruct w as [a c cm d1 d2 sf so ev]; simpl.
  destruct (read_error (photo item)) as [e|]; simpl.
  { eexists; right. split; [by eexists|by left]. }
  destruct sf as [|[[msg|n msg]|] sf]; simpl.
  - destruct (is_conflictive item); (eexists; left; done).
  - eexists; right. split; [by eexists|by left].
  - destruct (is_conflictive item); simpl;
      (eexists; right; split; [by eexists|right; by exists n]).
  - destruct (is_conflictive item); (eexists; left; done).
Qed.

Lemma added_from_refl plan c d : added_from plan c d d.
Proof. split; [done|]. intros name x Hx. by left. Qed.

Lemma added_from_later item plan c d d' :
  added_from plan c d d' → added_from (item :: plan) c d d'.
Proof.
  intros [H1 H2]. split; [done|]. intros name x Hx.
  destruct (H2 name x Hx) as [?|(it & ? & ?)]; [by left|right].
  exists it. split; [by right|done].
Qed.

Lemma added_from_insert item plan c d d' y :
  is_conflictive item = c → leading_part y (content (photo item)) →
  added_from plan c (<[plan_photo_name item := y]> d) d' →
  added_from (item :: plan) c d d'.
Proof.
  intros Hc Hy [H1 H2]. split.
  - intros name Hn. apply H1. rewrite lookup_insert_is_Some.
    destruct (decide (plan_photo_name item = name)); auto.
  - intros name x Hx. destruct (H2 name x Hx) as [Hd|(it & ? & ?)].
    + destruct (decide (plan_photo_name item = name)) as [<-|Hne].
      * rewrite lookup_insert_eq in Hd. injection Hd as <-. right. exists item.
        split; [by left|done].
      * rewrite lookup_insert_ne in Hd by done. by left.
    + right. exists it. split; [by right|done].
Qed.

(** What a save that wrote [y] adds to both directories. *)
Lemma added_from_wrote item plan y w w1 w2 :
  leading_part y (content (photo item)) → wrote item y w w1 →
  added_from plan false (asset_photos_dir w1) (asset_photos_dir w2) →
  added_from plan true (conflictive_asset_photos_dir w1) (conflictive_asset_photos_dir w2) →
  added_from (item :: plan) false (asset_photos_dir w) (asset_photos_dir w2)
  ∧ added_from (item :: plan) true (conflictive_asset_photos_dir w)
      (conflictive_asset_photos_dir w2).
Proof.
  intros Hy [Hd1 Hd2] Ha Hc. rewrite Hd1 in Ha. rewrite Hd2 in Hc.
  destruct (is_conflictive item) eqn:E; split;
    first [by apply added_from_later | by apply (added_from_insert _ _ _ _ _ y)].
Qed.

Lemma save_items_dirs (plan : list plan_item) :
  ∀ acc w saved w2,
    foldM save_item acc plan w = (Ok saved, w2) →
    added_from plan false (asset_photos_dir w) (asset_photos_dir w2)
    ∧ added_from plan true (conflictive_asset_photos_dir w)
        (conflictive_asset_photos_dir w2)
    ∧ ∀ it, it ∈ saved.1.1 →
        it ∈ acc.1.1
        ∨ (it ∈ plan
           ∧ is_Some (photos_dir_of (is_conflictive it) w2 !! plan_photo_name it)).
Proof.
  induction plan as [|item plan IH]; intros acc w saved w2.
  - simpl. unfold_m. intros [= <- <-]. split; [apply added_from_refl|].
    split; [apply added_from_refl|]. intros it Hit. by left.
  - simpl. unfold_m.
    destruct (save_item_dirs acc item w)
      as (w1 & [(-> & Hw) | ([msg ->] & Hw)]); intros H;
      destruct (IH _ _ _ _ H) as (Ha & Hc & Hin).
    + destruct (added_from_wrote item plan _ w w1 w2 (leading_part_whole _) Hw Ha Hc)
        as [Ha' Hc'].
      split; [done|]. split; [done|].
      intros it Hit. destruct (Hin it Hit) as [Hacc|[Hp Hs]].
      * cbn [fst snd] in Hacc. apply elem_of_app in Hacc as [Hacc|Hacc]; [by left|].
        apply list_elem_of_singleton in Hacc as ->. right. split; [by left|].
        destruct Hw as [Hd1 Hd2]. unfold photos_dir_of.
        destruct (is_conflictive item) eqn:E.
        -- apply (proj1 Hc). rewrite Hd2, lookup_insert_eq. by eexists.
        -- apply (proj1 Ha). rewrite Hd1, lookup_insert_eq. by eexists.
      * right. split; [by right|done].
    + assert (Hadd : added_from (item :: plan) false (asset_photos_dir w) (asset_photos_dir w2)
                     ∧ added_from (item :: plan) true (conflictive_asset_photos_dir w)
                         (conflictive_asset_photos_dir w2)).
      { destruct Hw as [[Hd1 Hd2]|[n Hw]].
        - rewrite Hd1 in Ha. rewrite Hd2 in Hc. split; by apply added_from_later.
        - apply (added_from_wrote item plan _ w w1 w2 (ex_intro _ n eq_refl) Hw Ha Hc). }
      destruct Hadd as [Ha' Hc']. split; [done|]. split; [done|].
      intros it Hit. destruct (Hin it Hit) as [Hacc|[Hp Hs]]; [by left|].
      right. split; [by right|done].
Qed.

Lemma resolve_planned_for (photos : list UploadFile) (D1 D2 : gmap Z Asset) pairs :
  (∀ p, p ∈ pairs → p.2 ∈ photos) →
  ∀ acc, Forall (planned_for photos) acc.1.1 →
         Forall (planned_for photos) (foldl (resolve D1 D2) acc pairs).1.1.
Proof.
  induction pairs as [|[i ph] pairs IH]; intros Hp acc Hacc; [done|].
  cbn [foldl]. apply IH; [intros p ?; apply Hp; by right|].
  assert (Hph : ph ∈ photos) by (apply (Hp (i, ph)); by left).
  unfold resolve. cbn [fst snd].
  destruct (D1 !! i) as [a|]; [|destruct (D2 !! i) as [a|]]; cbn [fst snd]; try done;
    (apply Forall_app; split; [done|]; by repeat constructor).
Qed.

Lemma validated_extensions cfg photos :
  validate_photo_extensions cfg photos = Ok tt →
  ∀ ph, ph ∈ photos → extension_of ph ∈ ALLOWED_EXTENSIONS_LIST cfg.
Proof.
  unfold validate_photo_extensions.
  induction photos as [|p photos IH]; intros H ph Hph; [by apply elem_of_nil in Hph|].
  simpl in H. destruct (validate_photo_extension cfg p) as [[]|e] eqn:E; [|done].
  apply elem_of_cons in Hph as [->|Hph]; [|by apply IH].
  unfold validate_photo_extension in E. destruct (filename p); [done|].
  by case_bool_decide.
Qed.

(** The directories after a call that returns, and its successful
    uploads: the database phase leaves the directories as phase 2 made
    them. *)
Lemma bulk_photo_upload_dirs cfg ids photos w resp w' :
  bulk_photo_upload cfg ids photos w = (Ok resp, w') →
  ∃ (saved : list plan_item * list Z * list PhotoUploadResponse) (updated : gset Z),
    results resp = saved.2 ++ (reconcile updated <$> saved.1.1)
    ∧ Forall (λ r, success r = false) saved.2
    ∧ added_from (planned ids photos w).1.1 false (asset_photos_dir w) (asset_photos_dir w')
    ∧ added_from (planned ids photos w).1.1 true (conflictive_asset_photos_dir w)
        (conflictive_asset_photos_dir w')
    ∧ Forall (planned_for photos) (planned ids photos w).1.1
    ∧ Forall (planned_for photos) saved.1.1
    ∧ ∀ it, it ∈ saved.1.1 →
        is_Some (photos_dir_of (is_conflictive it) w' !! plan_photo_name it).
Proof.
  intros Hrun. pose proof (bulk_photo_upload_returns _ _ _ _ _ _ Hrun) as Hv.
  assert (HQ : Forall (planned_for photos) (planned ids photos w).1.1).
  { apply resolve_planned_for; [|done]. intros [i ph] Hp. simpl.
    unfold zip_pairs in Hp. by apply elem_of_zip_r in Hp. }
  destruct (bulk_photo_upload_ok (planned_for photos) cfg ids photos w resp w' Hrun HQ)
    as (w1 & saved & w2 & updated & Hw1 & Hsave & Hdb & -> & _ & HsQ
        & (fails & Hsaved & Hfails) & _).
  destruct Hw1 as (_ & _ & _ & Hp1 & Hp2 & _).
  destruct (save_items_dirs _ _ _ _ _ Hsave) as (Ha & Hc & Hin).
  rewrite Hp1 in Ha. rewrite Hp2 in Hc.
  destruct (database_phase_dirs (asset_photos_dir w2) (conflictive_asset_photos_dir w2)
              saved.1.1 w2 ltac:(done)) as [Hd1 Hd2].
  rewrite Hdb in Hd1, Hd2. simpl in Hd1, Hd2.
  exists saved, updated. split; [done|]. split.
  { rewrite Hsaved. apply Forall_app. split.
    - apply (resolve_failures _ _ _ ([], [], [])). by constructor.
    - eapply Forall_impl; [exact Hfails|]. by intros r [? _]. }
  rewrite Hd1, Hd2. split; [done|]. split; [done|]. split; [done|]. split; [done|].
  intros it Hit. destruct (Hin it Hit) as [Hacc|[_ Hs]]; [by apply elem_of_nil in Hacc|].
  unfold photos_dir_of in *. by rewrite Hd1, Hd2.
Qed.

(** X20. A call that returns removes no file of the two photo directories,
    also when its database phase fails and rolls back; a file that is
    new or changed afterwards holds the content of a photo of the
    request, or the start of it when the write was cut short (the file
    is opened, hence emptied, before the content is written), under a
    name made of a date, an id and an extension of the allowed list. *)
Theorem photo_files_are_only_added (cfg : config) (ids_internos : list Z)
    (photos : list UploadFile) (w w' : world) (resp : BulkPhotoUploadResponse) :
  bulk_photo_upload cfg ids_internos photos w = (Ok resp, w') →
  ∀ c,
    (∀ name, is_Some (photos_dir_of c w !! name) → is_Some (photos_dir_of c w' !! name))
    ∧ ∀ name x, photos_dir_of c w' !! name = Some x →
        photos_dir_of c w !! name = Some x
        ∨ (allowed_name cfg name ∧ ∃ ph, ph ∈ photos ∧ leading_part x (content ph)).
Proof.
  intros Hrun c.
  pose proof (bulk_photo_upload_returns _ _ _ _ _ _ Hrun) as (_ & _ & Hext & _).
  destruct (bulk_photo_upload_dirs _ _ _ _ _ _ Hrun)
    as (saved & updated & _ & _ & Ha & Hc & HQ & _ & _).
  assert (Hadd : added_from (planned ids_internos photos w).1.1 c
                   (photos_dir_of c w) (photos_dir_of c w')).
  { by destruct c. }
  destruct Hadd as [H1 H2]. split; [done|].
  intros name x Hx. destruct (H2 name x Hx) as [?|(it & Hit & _ & <- & Hlead)]; [by left|].
  right. rewrite Forall_forall in HQ. destruct (HQ it Hit) as [Hph Hname].
  split; [|by exists (photo it)].
  eexists _, _, _. split; [exact Hname|]. by apply (validated_extensions cfg photos).
Qed.

(** X20, for a concrete request. *)
Lemma photo_files_are_only_added_witness :
  ∃ resp w', bulk_photo_upload demo_config [1; 2]%Z demo_photos full_disk_world = (Ok resp, w')
             ∧ success <$> results resp = [false; true]
             ∧ asset_photos_dir w' !! "20240307_1_codigo_barra.jpg" = Some ""
             ∧ conflictive_asset_photos_dir w' !! "20240307_2_codigo_barra.jpg" = Some "y"
             ∧ ∀ name x, asset_photos_dir w' !! name = Some x → allowed_name demo_config name.
Proof.
  destruct (bulk_photo_upload demo_config [1; 2]%Z demo_photos full_disk_world)
    as [[resp|e] w'] eqn:Hrun; [|by vm_compute in Hrun].
  exists resp, w'. split; [done|].
  destruct (photo_files_are_only_added _ _ _ _ _ _ Hrun false) as [_ H].
  vm_compute in Hrun. injection Hrun as <- <-.
  split; [by vm_compute|]. split; [by vm_compute|]. split; [by vm_compute|].
  intros name x Hx. by destruct (H name x Hx) as [?|[? _]].
Defined.

(** X21. A result that is a success names the file of its photo, and that
    file is in one of the two photo directories when the call returns. *)
Theorem success_names_a_saved_file (cfg : config) (ids_internos : list Z)
    (photos : list UploadFile) (w w' : world) (resp : BulkPhotoUploadResponse) :
  bulk_photo_upload cfg ids_internos photos w = (Ok resp, w') →
  ∀ r, r ∈ results resp → success r = true →
    ∃ name, photo_name r = Some name
            ∧ allowed_name cfg name
            ∧ (is_Some (asset_photos_dir w' !! name)
               ∨ is_Some (conflictive_asset_photos_dir w' !! name)).
Proof.
  intros Hrun r Hr Hs.
  pose proof (bulk_photo_upload_returns _ _ _ _ _ _ Hrun) as (_ & _ & Hext & _).
  destruct (bulk_photo_upload_dirs _ _ _ _ _ _ Hrun)
    as (saved & updated & Hres & Hfails & _ & _ & _ & HQ & Hin).
  rewrite Hres in Hr. apply elem_of_app in Hr as [Hr|Hr].
  { rewrite Forall_forall in Hfails. rewrite (Hfails r Hr) in Hs. done. }
  apply list_elem_of_fmap in Hr as (it & -> & Hit).
  unfold reconcile in *. case_bool_decide; [|done]. simpl.
  exists (plan_photo_name it). split; [done|]. split.
  - rewrite Forall_forall in HQ. destruct (HQ it Hit) as [Hph Hname].
    eexists _, _, _. split; [exact Hname|]. by apply (validated_extensions cfg photos).
  - specialize (Hin it Hit). unfold photos_dir_of in Hin.
    destruct (is_conflictive it); auto.
Qed.

(** X21, for a concrete request. *)
Lemma success_names_a_saved_file_witness :
  ∃ resp w', bulk_photo_upload demo_config [1; 2]%Z demo_photos (demo_world [])
             = (Ok resp, w')
             ∧ photo_name <$> results resp
               = [Some "20240307_1_codigo_barra.jpg"; Some "20240307_2_codigo_barra.jpg"]
             ∧ Forall (λ r, ∃ name, photo_name r = Some name
                             ∧ (is_Some (asset_photos_dir w' !! name)
                                ∨ is_Some (conflictive_asset_photos_dir w' !! name)))
                 (results resp).
Proof.
  destruct (bulk_photo_upload demo_config [1; 2]%Z demo_photos (demo_world []))
    as [[resp|e] w'] eqn:Hrun; [|by vm_compute in Hrun].
  exists resp, w'. split; [done|].
  pose proof (success_names_a_saved_file _ _ _ _ _ _ Hrun) as H.
  assert (Hs : Forall (λ r, success r = true) (results resp)).
  { vm_compute in Hrun. injection Hrun as <- <-. by repeat constructor. }
  split; [vm_compute in Hrun; by injection Hrun as <- <-|].
  apply Forall_forall. intros r Hr. rewrite Forall_forall in Hs.
  destruct (H r Hr (Hs r Hr)) as (name & ? & _ & ?). by exists name.
Defined.

End PhotoUploadMore.

Module TextFacts.
Local Open Scope list_scope.
Local Open Scope nat_scope.
Import Models PhotoUpload AssetReport AssetReportSpec AssetReportFacts PhotoNameSpec.

(** A text is cut in one way only at the last occurrence of [c]. *)
Lemma split_at_last (c : ascii) (a a' b b' : string) :
  contains c b = false → contains c b' = false →
  a +:+ String c b = a' +:+ String c b' → a = a' ∧ b = b'.
Proof.
  intros Hb Hb'. revert a'. induction a as [|x a IH]; intros [|y a'] H.
  - by injection H as ->.
  - change ("" +:+ String c b) with (String c b) in H. rewrite string_app_cons in H.
    injection H as <- ->. rewrite contains_app in Hb. simpl in Hb.
    rewrite decide_True in Hb by done. by destruct (contains c a').
  - change ("" +:+ String c b') with (String c b') in H. rewrite string_app_cons in H.
    injection H as -> <-. rewrite contains_app in Hb'. simpl in Hb'.
    rewrite decide_True in Hb' by done. by destruct (contains c a).
  - rewrite !string_app_cons in H. injection H as -> H.
    destruct (IH _ H) as [-> ->]. done.
Qed.

Lemma pretty_N_char_digit (n : N) : ascii_digit (pretty_N_char n) = true.
Proof. unfold pretty_N_char. by repeat case_match. Qed.

Lemma pretty_N_go_free (c : ascii) :
  ascii_digit c = false →
  ∀ x s, contains c s = false → contains c (pretty_N_go x s) = false.
Proof.
  intros Hc x. induction (N.lt_wf_0 x) as [x _ IH]; intros s Hs.
  destruct (decide (x = 0)%N) as [->|Hx]; [by rewrite pretty_N_go_0|].
  rewrite pretty_N_go_step by lia. apply IH.
  - apply N.div_lt; lia.
  - simpl. rewrite decide_False; [done|]. intros E.
    pose proof (pretty_N_char_digit (x `mod` 10)) as Hd. rewrite E in Hd. congruence.
Qed.

Lemma pretty_N_free (c : ascii) (x : N) :
  ascii_digit c = false → contains c (pretty x) = false.
Proof.
  intros Hc. unfold pretty, pretty_N. case_decide.
  - simpl. rewrite decide_False; [done|]. by intros <-.
  - by apply pretty_N_go_free.
Qed.

Lemma pretty_Z_free (c : ascii) (x : Z) :
  ascii_digit c = false → c ≠ "-"%char → contains c (pretty x) = false.
Proof.
  intros Hc Hm. unfold pretty, pretty_Z. destruct x as [|p|p].
  - simpl. rewrite decide_False; [done|]. by intros <-.
  - by apply (pretty_N_free c (Npos p)).
  - change ("-" +:+ pretty p) with (String "-" (pretty p)). simpl.
    rewrite decide_False by done. by apply (pretty_N_free c (Npos p)).
Qed.

Lemma last_segment_free (sep : ascii) (s : string) :
  ∀ acc, contains sep acc = false → contains sep (last_segment sep s acc) = false.
Proof.
  induction s as [|c s IH]; intros acc Hacc; simpl; [done|].
  case_decide as Hc; [by apply IH|].
  apply IH. rewrite contains_app, Hacc. simpl. by rewrite decide_False.
Qed.

Lemma lower_ascii_dot (c : ascii) : lower_ascii c = "."%char → c = "."%char.
Proof. by destruct c as [[] [] [] [] [] [] [] []]; vm_compute. Qed.

Lemma lower_free (s : string) : contains "." s = false → contains "." (lower s) = false.
Proof.
  induction s as [|c s IH]; [done|]. simpl. case_decide as Hc; [done|]. intros Hs.
  rewrite decide_False; [by apply IH|]. intros E. by apply lower_ascii_dot in E.
Qed.

Lemma extension_of_free (ph : UploadFile) : contains "." (extension_of ph) = false.
Proof. unfold extension_of. by apply lower_free, last_segment_free. Qed.

Lemma generate_photo_name_parts (d : date) (i : Z) (ext : string) :
  generate_photo_name d i ext
  = (((strftime_Ymd d +:+ String "_" (pretty i)) +:+ String "_" "codigo")
     +:+ String "_" "barra")
    +:+ String "." ext.
Proof. unfold generate_photo_name. by rewrite !string_app_assoc. Qed.

Lemma generate_photo_name_inj (d d' : date) (i i' : Z) (ext ext' : string) :
  contains "." ext = false → contains "." ext' = false →
  generate_photo_name d i ext = generate_photo_name d' i' ext' →
  strftime_Ymd d = strftime_Ymd d' ∧ i = i' ∧ ext = ext'.
Proof.
  intros He He' H. rewrite !generate_photo_name_parts in H.
  apply split_at_last in H as [H ->]; [|done..].
  apply split_at_last in H as [H _]; [|by vm_compute..].
  apply split_at_last in H as [H _]; [|by vm_compute..].
  apply split_at_last in H as [-> H]; [|by apply pretty_Z_free..].
  by apply (inj pretty) in H as ->.
Qed.

(** *** Texts without a full stop hold no decimal number *)

Section no_full_stop.

Variable Nd : N → bool.

Lemma span_digits_free (s : list N) :
  full_stop ∉ s → full_stop ∉ (span_digits Nd s).2.
Proof.
  induction s as [|c s IH]; [done|]. simpl. intros Hs.
  destruct (Nd c); simpl; [|done]. apply IH. intros H. apply Hs. by right.
Qed.

Lemma match_decimal_free (s : list N) :
  full_stop ∉ s → match_decimal Nd s = None.
Proof.
  intros Hs. apply span_digits_free in Hs. unfold match_decimal.
  destruct (span_digits Nd s) as [[|a ip] [|c rest]]; try done.
  simpl in Hs. case_decide as Hc; [|done]. subst c. exfalso. apply Hs. by left.
Qed.

Lemma match_here_free (s : list N) :
  full_stop ∉ s → match_here Nd s = None.
Proof.
  intros Hs. unfold match_here. destruct s as [|c s]; [by apply match_decimal_free|].
  assert (Hs' : full_stop ∉ s) by (intros H; apply Hs; by right).
  rewrite (match_decimal_free s Hs'), (match_decimal_free _ Hs).
  by case_decide.
Qed.

Lemma findall_from_free (fuel : nat) :
  ∀ s, full_stop ∉ s → findall_from Nd fuel s = [].
Proof.
  induction fuel as [|fuel IH]; intros s Hs; [done|].
  cbn [findall_from]. rewrite (match_here_free s Hs).
  destruct s as [|c s]; [done|]. apply IH. intros H. apply Hs. by right.
Qed.

(** No decimal number is found in such a text. *)
Lemma found_free (s : list N) (ms : list (list N)) :
  found Nd s ms → full_stop ∉ s → ms = [].
Proof.
  induction 1 as [|s m rest ms Hm Hf IH|c s ms Hno Hf IH]; intros Hs; [done|..].
  - exfalso. destruct Hm as (-> & (sign & i & f & -> & _) & _). apply Hs.
    rewrite !elem_of_app. left. right. right. by left.
  - apply IH. intros H. apply Hs. by right.
Qed.

End no_full_stop.

Lemma replace_char_absent (c : ascii) (by_ s : string) :
  contains c s = false → replace_char c by_ s = s.
Proof.
  induction s as [|d s IH]; [done|]. simpl. case_decide as Hd; [done|]. intros Hs.
  by rewrite IH.
Qed.

End TextFacts.

Module PhotoNameFacts.
Local Open Scope list_scope.
Local Open Scope nat_scope.
Import Models PhotoUpload PhotoUploadSpec PhotoUploadFacts PhotoNameSpec.
Import AssetReportSpec TextFacts.

(** X22. The file name of a photo tells the asset and the extension: two
    names are equal only for the same id, the same extension and the
    same text of the installation date. *)
Theorem photo_name_tells_the_asset (d d' : date) (i i' : Z) (ph ph' : UploadFile) :
  generate_photo_name d i (extension_of ph) = generate_photo_name d' i' (extension_of ph') →
  i = i' ∧ extension_of ph = extension_of ph' ∧ strftime_Ymd d = strftime_Ymd d'.
Proof.
  intros H. apply generate_photo_name_inj in H as (? & ? & ?); [done|..];
    apply extension_of_free.
Qed.

(** X22, for two concrete photos. *)
Lemma photo_name_tells_the_asset_witness :
  generate_photo_name (Date 2024 3 7) 1 (extension_of (Build_UploadFile "a.jpg" "x" None))
  = "20240307_1_codigo_barra.jpg"
  ∧ extension_of (Build_UploadFile "a.jpg" "x" None)
    = extension_of (Build_UploadFile "poste.norte.JPG" "y" None).
Proof.
  split; [by vm_compute|].
  apply (photo_name_tells_the_asset (Date 2024 3 7) (Date 2024 3 7) 1 1
           (Build_UploadFile "a.jpg" "x" None) (Build_UploadFile "poste.norte.JPG" "y" None)).
  by vm_compute.
Defined.

Lemma resolve_names_its_asset (tbl1 tbl2 : list Asset) (ids : list Z) pairs :
  ∀ acc, Forall names_its_asset acc.1.1 →
         Forall names_its_asset
           (foldl (resolve (by_id_interno (select_by_ids_internos tbl1 ids))
                     (by_id_interno (select_by_ids_internos tbl2 ids))) acc pairs).1.1.
Proof.
  induction pairs as [|[i ph] pairs IH]; intros acc Hacc; [done|].
  cbn [foldl]. apply IH. unfold resolve. cbn [fst snd].
  destruct (by_id_interno (select_by_ids_internos tbl1 ids) !! i) as [a|] eqn:E1;
    [|destruct (by_id_interno (select_by_ids_internos tbl2 ids) !! i) as [a|] eqn:E2];
    cbn [fst snd]; try done.
  - apply Forall_app. split; [done|]. repeat constructor. simpl.
    unfold by_id_interno in E1.
    by apply by_id_interno_lookup_from in E1 as [[_ ->]|?].
  - apply Forall_app. split; [done|]. repeat constructor. simpl.
    unfold by_id_interno in E2.
    by apply by_id_interno_lookup_from in E2 as [[_ ->]|?].
Qed.

(** X23. Two successful results of one call whose ids differ never carry
    the same photo name. *)
Theorem different_ids_get_different_names (cfg : config) (ids_internos : list Z)
    (photos : list UploadFile) (w w' : world) (resp : BulkPhotoUploadResponse)
    (r r' : PhotoUploadResponse) :
  bulk_photo_upload cfg ids_internos photos w = (Ok resp, w') →
  r ∈ results resp → r' ∈ results resp →
  success r = true → success r' = true →
  response_id_interno r ≠ response_id_interno r' →
  photo_name r ≠ photo_name r'.
Proof.
  intros Hrun Hr Hr' Hs Hs' Hne.
  pose proof (bulk_photo_upload_returns _ _ _ _ _ _ Hrun) as Hv.
  assert (HQ : Forall names_its_asset (planned ids_internos photos w).1.1).
  { by apply resolve_names_its_asset. }
  destruct (bulk_photo_upload_ok names_its_asset cfg ids_internos photos w resp w' Hrun HQ)
    as (w1 & saved & w2 & updated & _ & _ & _ & -> & _ & HsQ
        & (fails & Hsaved & Hfails) & _).
  simpl in Hr, Hr'.
  assert (Hsucc : ∀ x, x ∈ saved.2 ++ (reconcile updated <$> saved.1.1) →
            success x = true →
            ∃ it, names_its_asset it ∧ response_id_interno x = plan_id_interno it
                  ∧ photo_name x = Some (plan_photo_name it)).
  { intros x Hx Hsx. apply elem_of_app in Hx as [Hx|Hx].
    - rewrite Hsaved in Hx. apply elem_of_app in Hx as [Hx|Hx].
      + assert (Hf : Forall (λ r, success r = false) (planned ids_internos photos w).2).
        { unfold planned. apply (resolve_failures _ _ _ ([], [], [])). by constructor. }
        rewrite Forall_forall in Hf. apply Hf in Hx. congruence.
      + rewrite Forall_forall in Hfails. destruct (Hfails x Hx). congruence.
    - apply list_elem_of_fmap in Hx as (it & -> & Hit).
      rewrite Forall_forall in HsQ. exists it. split; [by apply HsQ|].
      unfold reconcile in *. by case_bool_decide. }
  destruct (Hsucc r Hr Hs) as (it & [Hid Hname] & Hrid & Hrn).
  destruct (Hsucc r' Hr' Hs') as (it' & [Hid' Hname'] & Hrid' & Hrn').
  rewrite Hrn, Hrn', Hname, Hname'. intros [= E].
  apply generate_photo_name_inj in E as (_ & E & _); [|apply extension_of_free..].
  congruence.
Qed.

(** X23, for a concrete request. *)
Lemma different_ids_get_different_names_witness :
  ∃ resp w', bulk_photo_upload demo_config [1; 2]%Z demo_photos (demo_world [])
             = (Ok resp, w')
             ∧ photo_name <$> results resp
               = [Some "20240307_1_codigo_barra.jpg"; Some "20240307_2_codigo_barra.jpg"]
             ∧ ∀ r r', r ∈ results resp → r' ∈ results resp →
                 response_id_interno r ≠ response_id_interno r' →
                 photo_name r ≠ photo_name r'.
Proof.
  destruct (bulk_photo_upload demo_config [1; 2]%Z demo_photos (demo_world []))
    as [[resp|e] w'] eqn:Hrun; [|by vm_compute in Hrun].
  exists resp, w'. split; [done|].
  pose proof (λ r r', different_ids_get_different_names _ _ _ _ _ _ r r' Hrun) as H.
  assert (Hs : Forall (λ r, success r = true) (results resp)).
  { vm_compute in Hrun. injection Hrun as <- <-. by repeat constructor. }
  split; [vm_compute in Hrun; by injection Hrun as <- <-|].
  intros r r' Hr Hr' Hne. rewrite Forall_forall in Hs. apply (H r r'); auto.
Defined.

End PhotoNameFacts.

Module KmlTextFacts.
Local Open Scope list_scope.
Local Open Scope nat_scope.
Import Models AssetReport AssetReportSpec AssetReportFacts PhotoNameSpec TextFacts.

(** X24. The escaped text holds none of the characters that open or close a
    tag or an attribute value, and a text without any of the five
    special characters is returned as it is. *)
Theorem escaped_text_has_no_markup (text : string) :
  (∀ c, c ∈ ["<"; ">"; double_quote; "'"]%char → contains c (_escape_xml text) = false)
  ∧ ((∀ c, c ∈ xml_special → contains c text = false) → _escape_xml text = text).
Proof.
  split.
  - intros c Hc. unfold _escape_xml.
    repeat (apply elem_of_cons in Hc as [->|Hc]);
      [..|by apply elem_of_nil in Hc].
    + do 3 (apply contains_replace_char; [done|left]).
      apply contains_replace_char; [done|by right].
    + do 2 (apply contains_replace_char; [done|left]).
      apply contains_replace_char; [done|by right].
    + apply contains_replace_char; [done|left].
      apply contains_replace_char; [done|by right].
    + apply contains_replace_char; [done|by right].
  - intros H. unfold _escape_xml.
    rewrite (replace_char_absent "&") by (apply H; by left).
    rewrite (replace_char_absent "<") by (apply H; right; by left).
    rewrite (replace_char_absent ">") by (apply H; do 2 right; by left).
    rewrite (replace_char_absent double_quote) by (apply H; do 3 right; by left).
    rewrite (replace_char_absent "'") by (apply H; do 4 right; by left).
    done.
Qed.

(** X24, for two concrete texts. *)
Lemma escaped_text_has_no_markup_witness :
  _escape_xml "Poste 12 - km 4.5" = "Poste 12 - km 4.5"
  ∧ contains "<" (_escape_xml "a<b>'c'") = false.
Proof.
  destruct (escaped_text_has_no_markup "Poste 12 - km 4.5") as [_ H].
  destruct (escaped_text_has_no_markup "a<b>'c'") as [H' _].
  split.
  - apply H. intros c Hc.
    repeat (apply elem_of_cons in Hc as [->|Hc]); try by vm_compute.
    by apply elem_of_nil in Hc.
  - apply H'. by left.
Defined.

(** X25. A georeference without a full stop holds no decimal number: it
    gives no coordinates, whatever digits it holds and whatever the
    class of digits is. *)
Theorem georef_without_dot_is_skipped {float : Type} (Nd : N → bool)
    (float_of_string : list N → float) (georef : list N) :
  full_stop ∉ georef →
  findall Nd georef = []
  ∧ _parse_georef Nd float_of_string (Some georef) = (None, None)
  ∧ ¬ parses Nd (Some georef).
Proof.
  intros H. assert (Hf : findall Nd georef = []) by (by apply findall_from_free).
  split; [done|]. split.
  - unfold _parse_georef. rewrite Hf. by destruct georef.
  - intros (g & ms & [= <-] & Hfound & Hlen).
    rewrite (found_free Nd _ _ Hfound H) in Hlen. simpl in Hlen. lia.
Qed.

(** X25, for a concrete text. *)
Lemma georef_without_dot_is_skipped_witness :
  _parse_georef five_scripts sign_of_string (Some (code_points "-30, -71, 159m"))
  = (None, None).
Proof.
  apply (georef_without_dot_is_skipped five_scripts sign_of_string
           (code_points "-30, -71, 159m")).
  vm_compute. intros H. repeat (apply elem_of_cons in H as [H|H]; [done|]).
  by apply elem_of_nil in H.
Defined.

End KmlTextFacts.

Module AssetQueriesFacts.
Local Open Scope list_scope.
Import Models AssetQueries AssetQueriesSpec.

Lemma where_listed f rows :
  where_ (_build_asset_filters f) rows = List.filter (and_ (_build_asset_filters f)) rows.
Proof.
  unfold where_. destruct (_build_asset_filters f) eqn:E; [|done].
  unfold _build_asset_filters in E. by apply app_eq_nil in E as [_ ?].
Qed.

Lemma execute_healthy s :
  healthy s → ∃ s', execute s = (Ok tt, s') ∧ healthy s' ∧ table s' = table s.
Proof.
  unfold healthy, execute. intros H.
  destruct (statement_failures s) as [|[e|] fl] eqn:E.
  - exists s. by rewrite E.
  - by apply Forall_cons in H as [? _].
  - eexists. split; [done|]. simpl. by apply Forall_cons in H as [_ ?].
Qed.

Lemma get_assets_healthy nrc f skip limit s :
  healthy s → (0 ≤ skip)%Z → (0 ≤ limit)%Z →
  ∃ s', get_assets nrc f skip limit s
        = (Ok (Z.of_nat (length (listed f s)),
               take (Z.to_nat limit)
                 (drop (Z.to_nat skip) (merge_sort newest_first (listed f s)))), s').
Proof.
  intros Hs Hskip Hlimit. unfold get_assets, sqlalchemy_error_handler. unfold_m.
  rewrite where_listed. fold (listed f s).
  destruct (execute_healthy s Hs) as (s1 & E1 & H1 & T1). rewrite E1.
  case_bool_decide as Ht.
  - exists s1. destruct (listed f s); [|simpl in Ht; lia].
    change (merge_sort newest_first []) with (@nil asset_row).
    by rewrite drop_nil, take_nil.
  - unfold offset_limit. unfold_m.
    destruct (execute_healthy s1 H1) as (s2 & E2 & _). rewrite E2.
    rewrite bool_decide_false by lia. by eexists.
Qed.

Lemma length_page {A} (R : relation A) `{∀ x y, Decision (R x y)} (skip limit : Z)
    (l : list A) :
  (0 ≤ skip)%Z → (0 ≤ limit)%Z →
  Z.of_nat (length (take (Z.to_nat limit) (drop (Z.to_nat skip) (merge_sort R l))))
  = Z.min limit (Z.max 0 (Z.of_nat (length l) - skip)).
Proof.
  intros Hs Hl. rewrite length_take, length_drop.
  rewrite (Permutation_length (merge_sort_Permutation R l)). lia.
Qed.

Lemma and_app filters filters' r :
  and_ (filters ++ filters') r = and_ filters r && and_ filters' r.
Proof. unfold and_. apply forallb_app. Qed.

Lemma and_append_if {A} (arg : option A) cond filters r :
  and_ (append_if arg cond filters) r
  = and_ filters r && match arg with Some v => cond v r | None => true end.
Proof.
  destruct arg as [v|]; simpl; [|by rewrite andb_true_r].
  rewrite and_app. simpl. by rewrite andb_true_r.
Qed.

(** The route's answer on a session whose statements run. *)
Lemma get_assets_route_healthy nrc f skip limit s :
  healthy s → (0 ≤ skip)%Z → (0 < limit)%Z →
  ∃ s', get_assets_route nrc f skip limit s
        = (Ok (create_paginated
                 (take (Z.to_nat limit)
                    (drop (Z.to_nat skip) (merge_sort newest_first (listed f s))))
                 (Z.of_nat (length (listed f s))) (skip `div` limit + 1) limit), s').
Proof.
  intros Hs Hskip Hlimit.
  destruct (get_assets_healthy nrc f skip limit s Hs Hskip ltac:(lia)) as (s' & E).
  exists s'. unfold get_assets_route, floordiv. unfold_m. rewrite E.
  by rewrite bool_decide_false by lia.
Qed.

(** X26. On a session whose statements run, with [skip] at least zero and a
    positive [limit], the route answers with the number of rows the
    filters accept and with the page of them that starts after [skip]
    rows. When it says there is no more, the page reaches the last row;
    when [skip] is a multiple of [limit] and it says there is more,
    rows are left after the page. *)
Theorem page_and_has_more (negative_row_count : exn) (f : asset_filters)
    (skip limit : Z) (s : session) :
  healthy s → (0 ≤ skip)%Z → (0 < limit)%Z →
  ∃ resp s',
    get_assets_route negative_row_count f skip limit s = (Ok resp, s')
    ∧ total resp = Z.of_nat (length (listed f s))
    ∧ items resp
      = take (Z.to_nat limit) (drop (Z.to_nat skip) (merge_sort newest_first (listed f s)))
    ∧ (length (items resp) ≤ Z.to_nat limit)%nat
    ∧ (has_more resp = false → (total resp ≤ skip + Z.of_nat (length (items resp)))%Z)
    ∧ ((limit | skip)%Z → has_more resp = true →
       (skip + Z.of_nat (length (items resp)) < total resp)%Z).
Proof.
  intros Hs Hskip Hlimit.
  destruct (get_assets_route_healthy negative_row_count f skip limit s Hs Hskip Hlimit)
    as (s' & E).
  eexists _, s'. split; [exact E|]. cbn [total items has_more create_paginated].
  split; [done|]. split; [done|].
  pose proof (length_page newest_first skip limit (listed f s) Hskip ltac:(lia)) as Hlen.
  pose proof (Z.mul_div_le skip limit Hlimit) as Hq1.
  pose proof (Z.mul_succ_div_gt skip limit Hlimit) as Hq2.
  split; [rewrite length_take; lia|]. split.
  - intros Hm. apply bool_decide_eq_false in Hm. rewrite Hlen. lia.
  - intros [z ->] Hm. apply bool_decide_eq_true in Hm. rewrite Hlen.
    rewrite Z.div_mul in Hm by lia. lia.
Qed.

(** X26, on a concrete session. *)
Lemma page_and_has_more_witness :
  ∃ resp s',
    get_assets_route demo_refusal no_filters 10 10 (demo_session []) = (Ok resp, s')
    ∧ total resp = 12%Z
    ∧ id_interno ∘ row <$> items resp = [2; 1]%Z
    ∧ has_more resp = false.
Proof.
  destruct (page_and_has_more demo_refusal no_filters 10 10 (demo_session []))
    as (resp & s' & E & Ht & Hi & _); [by constructor|lia|lia|].
  exists resp, s'. split; [done|]. split; [by rewrite Ht|]. split; [by rewrite Hi|].
  assert (Hrun : get_assets_route demo_refusal no_filters 10 10 (demo_session [])
                 = (Ok resp, s')) by done.
  vm_compute in Hrun. by injection Hrun as <- <-.
Defined.

(** X27. Between two page boundaries the answer can say there is more on the
    last page: with [(skip // limit + 1) * limit] below the total and
    the total at most [skip + limit], [has_more] is true although the
    page holds every row that is left. *)
Theorem has_more_overstates_between_pages (negative_row_count : exn) (f : asset_filters)
    (skip limit : Z) (s s' : session) (resp : PaginatedResponse) :
  healthy s → (0 ≤ skip)%Z → (0 < limit)%Z →
  get_assets_route negative_row_count f skip limit s = (Ok resp, s') →
  ((skip `div` limit + 1) * limit < total resp)%Z →
  (total resp ≤ skip + limit)%Z →
  has_more resp = true
  ∧ (skip + Z.of_nat (length (items resp)) = total resp)%Z.
Proof.
  intros Hs Hskip Hlimit Hrun Hlow Hhigh.
  destruct (get_assets_route_healthy negative_row_count f skip limit s Hs Hskip Hlimit)
    as (s1 & E).
  rewrite E in Hrun. injection Hrun as <- <-.
  cbn [total items has_more create_paginated] in *.
  pose proof (length_page newest_first skip limit (listed f s) Hskip ltac:(lia)) as Hlen.
  pose proof (Z.mul_succ_div_gt skip limit Hlimit) as Hq2.
  split; [by apply bool_decide_eq_true|]. rewrite Hlen. lia.
Qed.

(** X27, on a concrete session. *)
Lemma has_more_overstates_between_pages_witness :
  ∃ resp s',
    get_assets_route demo_refusal no_filters 5 10 (demo_session []) = (Ok resp, s')
    ∧ has_more resp = true
    ∧ length (items resp) = 7%nat
    ∧ total resp = 12%Z.
Proof.
  destruct (get_assets_route demo_refusal no_filters 5 10 (demo_session []))
    as [[resp|e] s'] eqn:Hrun; [|by vm_compute in Hrun].
  exists resp, s'. split; [done|].
  assert (Ht : total resp = 12%Z).
  { vm_compute in Hrun. by injection Hrun as <- <-. }
  destruct (has_more_overstates_between_pages demo_refusal no_filters 5 10
              (demo_session []) s' resp) as [Hm Hl];
    [by constructor|lia|lia|done|by rewrite Ht|by rewrite Ht|].
  split; [done|]. split; [|done]. rewrite Ht in Hl. lia.
Defined.

Lemma handler_outcomes {A} (func : M session A) s :
  (∃ a s', sqlalchemy_error_handler func s = (Ok a, s') ∧ func s = (Ok a, s'))
  ∨ ∃ e s', sqlalchemy_error_handler func s = (Raise e, s').
Proof.
  unfold sqlalchemy_error_handler, session_rollback. unfold_m.
  destruct (func s) as [[a|e] s1]; [left; by eexists _, _|right].
  repeat case_match; by eexists _, _.
Qed.

Lemma get_assets_first_failure nrc f skip limit s e fl :
  statement_failures s = Some e :: fl →
  ∃ e' s', get_assets nrc f skip limit s = (Raise e', s').
Proof.
  intros Hfl. unfold get_assets.
  match goal with
  | |- context [sqlalchemy_error_handler ?b s] =>
      destruct (handler_outcomes b s) as [(a & s1 & _ & E)|(e1 & s1 & E)]
  end.
  - exfalso. revert E. unfold execute. unfold_m. by rewrite Hfl.
  - by eexists _, _.
Qed.

(** X28. Whatever makes the route fail, a failed statement as the decorator
    reports it or the division by a [limit] of zero, the caller gets
    the same answer, status 500 with "Error retrieving assets"; and
    with a [limit] of zero the route always fails, also when the table
    is empty and no statement fails. *)
Theorem listing_failures_are_500 (negative_row_count : exn) (f : asset_filters)
    (skip limit : Z) (s : session) :
  (∀ e s', get_assets_route negative_row_count f skip limit s = (Raise e, s') →
           e = HTTPException 500 "Error retrieving assets")
  ∧ (limit = 0%Z →
     ∃ s', get_assets_route negative_row_count f skip limit s
           = (Raise (HTTPException 500 "Error retrieving assets"), s'))
  ∧ (∀ e fl, statement_failures s = Some e :: fl →
     ∃ s', get_assets_route negative_row_count f skip limit s
           = (Raise (HTTPException 500 "Error retrieving assets"), s')).
Proof.
  split; [|split].
  - intros e s'. unfold get_assets_route. unfold_m.
    destruct (get_assets negative_row_count f skip limit s) as [[r|e1] s1]; [|by intros [= <- _]].
    destruct (floordiv skip limit); [done|]. by intros [= <- _].
  - intros ->. unfold get_assets_route, floordiv. unfold_m.
    destruct (get_assets negative_row_count f skip 0 s) as [[r|e1] s1]; by eexists.
  - intros e fl Hfl.
    destruct (get_assets_first_failure negative_row_count f skip limit s e fl Hfl)
      as (e1 & s1 & E).
    unfold get_assets_route. unfold_m. rewrite E. by eexists.
Qed.

(** X28, on two concrete sessions. *)
Lemma listing_failures_are_500_witness :
  get_assets_route demo_refusal no_filters 0 0 (demo_session [])
  = (Raise (HTTPException 500 "Error retrieving assets"), demo_session [])
  ∧ ∃ s', get_assets_route demo_refusal no_filters 0 10
            (demo_session [Some (Exception "OperationalError" "connection lost")])
          = (Raise (HTTPException 500 "Error retrieving assets"), s')
          ∧ rollbacks s' = 1%nat.
Proof.
  destruct (listing_failures_are_500 demo_refusal no_filters 0 0 (demo_session []))
    as (_ & H0 & _).
  destruct (listing_failures_are_500 demo_refusal no_filters 0 10
              (demo_session [Some (Exception "OperationalError" "connection lost")]))
    as (_ & _ & H1).
  destruct (H0 eq_refl) as (s0 & E0). destruct (H1 _ _ eq_refl) as (s1 & E1).
  split.
  - rewrite E0. f_equal. vm_compute in E0. by injection E0 as <-.
  - exists s1. split; [done|]. vm_compute in E1. by injection E1 as <-.
Defined.

Lemma listed_spec f s r :
  r ∈ listed f s ↔
  r ∈ table s
  ∧ estado (row r) ≠ retirado
  ∧ (∀ v, f_id_interno f = Some v → id_interno (row r) = v)
  ∧ (∀ v, f_tag_bim f = Some v → tag_bim r = Some v)
  ∧ (∀ v, f_fecha_instalacion_desde f = Some v →
          date_le v (fecha_instalacion (row r)) = true)
  ∧ (∀ v, f_fecha_instalacion_hasta f = Some v →
          date_le (fecha_instalacion (row r)) v = true)
  ∧ (∀ v, f_installer_id f = Some v → installer_id r = Some v)
  ∧ (∀ v, f_contract_project_id f = Some v → contract_project_id (row r) = v)
  ∧ (∀ v, f_element_type_id f = Some v → element_type_id (row r) = v)
  ∧ (∀ v, f_macro_location_id f = Some v → macro_location_id r = Some v).
Proof.
  unfold listed. rewrite list_elem_of_In, filter_In, <- list_elem_of_In.
  unfold _build_asset_filters. rewrite and_app, !and_append_if.
  destruct f as [a1 a2 a3 a4 a5 a6 a7 a8]; cbn [f_id_interno f_tag_bim
    f_fecha_instalacion_desde f_fecha_instalacion_hasta f_installer_id
    f_contract_project_id f_element_type_id f_macro_location_id].
  unfold and_ at 1 2. cbn [forallb]. rewrite !andb_true_r, andb_true_l.
  rewrite !andb_true_iff, bool_decide_eq_true.
  split.
  - intros (Hin & (((((((H1 & H2) & H3) & H4) & H5) & H6) & H7) & H8) & H9).
    split; [done|]. split; [done|].
    split; [intros v ->; by apply bool_decide_eq_true in H1|].
    split; [intros v ->; by apply bool_decide_eq_true in H2|].
    split; [by intros v ->|]. split; [by intros v ->|].
    split; [intros v ->; by apply bool_decide_eq_true in H5|].
    split; [intros v ->; by apply bool_decide_eq_true in H6|].
    split; [intros v ->; by apply bool_decide_eq_true in H7|].
    intros v ->. by apply bool_decide_eq_true in H8.
  - intros (Hin & H9 & H1 & H2 & H3 & H4 & H5 & H6 & H7 & H8).
    split; [done|]. split; [|done].
    repeat split;
      match goal with
      | |- match ?a with _ => _ end = true =>
          destruct a; [|done]; try apply bool_decide_eq_true; eauto
      end.
Qed.

(** X29. A retired asset is never listed, whatever the filters; every asset
    of the answer is a row of the table that passes each filter given. *)
Theorem retired_assets_are_never_listed (negative_row_count : exn) (f : asset_filters)
    (skip limit : Z) (s s' : session) (resp : PaginatedResponse) (r : asset_row) :
  get_assets_route negative_row_count f skip limit s = (Ok resp, s') →
  r ∈ items resp →
  r ∈ table s
  ∧ estado (row r) ≠ retirado
  ∧ (∀ v, f_id_interno f = Some v → id_interno (row r) = v)
  ∧ (∀ v, f_contract_project_id f = Some v → contract_project_id (row r) = v)
  ∧ (∀ v, f_element_type_id f = Some v → element_type_id (row r) = v)
  ∧ (∀ v, f_installer_id f = Some v → installer_id r = Some v).
Proof.
  intros Hrun Hr.
  assert (Hl : r ∈ listed f s).
  { revert Hrun. unfold get_assets_route. unfold_m.
    destruct (get_assets negative_row_count f skip limit s) as [[[t its]|e1] s1] eqn:E;
      [|done].
    destruct (floordiv skip limit) as [q|]; [|done]. intros [= <- <-].
    cbn [items create_paginated] in Hr. simpl in Hr.
    revert E. unfold get_assets, sqlalchemy_error_handler, session_rollback, offset_limit.
    unfold_m. rewrite where_listed. fold (listed f s).
    destruct (execute s) as [[[]|e] s2]; [|repeat case_match; done].
    case_bool_decide; [intros [= _ <- _]; by apply elem_of_nil in Hr|].
    destruct (execute s2) as [[[]|e] s3]; [|repeat case_match; done].
    case_bool_decide; [repeat case_match; done|]. intros [= _ <- _].
    apply subseteq_take, subseteq_drop in Hr.
    by rewrite (merge_sort_Permutation newest_first) in Hr. }
  apply listed_spec in Hl as (? & ? & ? & _ & _ & _ & ? & ? & ? & _). done.
Qed.

(** X29, on a concrete session. *)
Lemma retired_assets_are_never_listed_witness :
  ∃ resp s',
    get_assets_route demo_refusal no_filters 0 100 (demo_session []) = (Ok resp, s')
    ∧ length (items resp) = 12%nat
    ∧ Forall (λ r, estado (row r) ≠ retirado) (items resp).
Proof.
  destruct (get_assets_route demo_refusal no_filters 0 100 (demo_session []))
    as [[resp|e] s'] eqn:Hrun; [|by vm_compute in Hrun].
  exists resp, s'. split; [done|].
  pose proof (λ r, retired_assets_are_never_listed _ _ _ _ _ _ _ r Hrun) as H.
  split; [vm_compute in Hrun; by injection Hrun as <- <-|].
  apply Forall_forall. intros r Hr. by destruct (H r Hr) as (_ & ? & _).
Defined.

(** X30. The synchronisation route never answers with assets: for every
    request and every session it raises status 500 with "Error
    synchronizing assets", before any statement is executed. *)
Theorem sync_never_returns_assets (negative_row_count : exn)
    (sync_request : AssetSyncRequest) (s : session) :
  sync_assets_route negative_row_count sync_request s
  = (Raise (HTTPException 500 "Error synchronizing assets"), s).
Proof. done. Qed.

End AssetQueriesFacts.
